(** * Dance-a-mole: the event-driven game state machine

    A shallow embedding of [danceamole/events.py] and of the game core of
    [danceamole/main.py] ([MoleState], [State], [BUTTON_TO_MOLE],
    [handle_in_game_over], [handle_in_game], [handle], the sprite selection
    of [render_game] and the frame loop of [main]), followed by the media
    files ([Paths], [check_all_files_exist]), the image cache, the
    game-over screen, [render], and the crop boxes of the scripts under
    [dev_scripts].

    Conventions of the embedding:
    - time stamps (Python floats) are rationals [Q]; the rounding of float
      arithmetic is outside the model;
    - [score] and [misses] (Python ints) are [Z];
    - the wall clock [time.time()] and the generator [random.random()] are
      streams read through a position kept in the [World];
    - Python exceptions are the [Raise] results of an error monad. *)

From Stdlib Require Import QArith Qround ZArith List Bool String Lia Lqa.
Import ListNotations.

Open Scope Q_scope.

(** ** Exceptions and the error monad *)

Inductive exn : Type :=
| IndexError
| ZeroDivisionError
| ViolationError.

Inductive result (A : Type) : Type :=
| Ok (a : A)
| Raise (e : exn).

Arguments Ok {A} a.
Arguments Raise {A} e.

Definition bind {A B : Type} (m : result A) (k : A -> result B) : result B :=
  match m with
  | Ok a => k a
  | Raise e => Raise e
  end.

Notation "x <- m ;; k" := (bind m (fun x => k))
  (at level 61, m at next level, right associativity).
Notation "' p <- m ;; k" := (bind m (fun p => k))
  (at level 61, p pattern, m at next level, right associativity).

(** ** Python arithmetic on floats and ints *)

(** [int(x)]: truncation toward zero. *)
Definition int (x : Q) : Z := Z.quot (Qnum x) (Zpos (Qden x)).

(** [a > b] on floats. *)
Definition Qgt_bool (a b : Q) : bool := negb (Qle_bool a b).

(** [a / b] on floats: raises on a zero divisor. *)
Definition py_div (a b : Q) : result Q :=
  if Qeq_bool b 0 then Raise ZeroDivisionError else Ok (a / b).

(** [l[i]] for a Python list: indices [-len .. len-1] are valid. *)
Definition py_getitem {A : Type} (l : list A) (i : Z) : result A :=
  let n := Z.of_nat (List.length l) in
  let j := (if (i <? 0)%Z then (n + i)%Z else i) in
  if ((j <? 0)%Z || (n <=? j)%Z)%bool then Raise IndexError
  else match nth_error l (Z.to_nat j) with
       | Some a => Ok a
       | None => Raise IndexError
       end.

(** ** events.py *)

Inductive Button : Type :=
| CROSS | UP | CIRCLE | RIGHT | SQUARE | DOWN | TRIANGLE | LEFT.

Inductive Event : Type :=
| Tick
| ReceivedQuit
| ButtonDown (button : Button)
| GameOver.

Definition Button_eqb (a b : Button) : bool :=
  match a, b with
  | CROSS, CROSS | UP, UP | CIRCLE, CIRCLE | RIGHT, RIGHT
  | SQUARE, SQUARE | DOWN, DOWN | TRIANGLE, TRIANGLE | LEFT, LEFT => true
  | _, _ => false
  end.

(** The value of each member of the [Button] enumeration. *)
Definition Button_value (b : Button) : Z :=
  match b with
  | CROSS => 0 | UP => 1 | CIRCLE => 2 | RIGHT => 3
  | SQUARE => 4 | DOWN => 5 | TRIANGLE => 6 | LEFT => 7
  end%Z.

(** ** The outside world: clock, random generator, sound *)

Record World : Type := mkWorld {
  clock : nat -> Q;          (* successive readings of time.time() *)
  clock_pos : nat;           (* number of readings taken so far *)
  rnd : nat -> Q;            (* successive draws of random.random() *)
  rnd_pos : nat;             (* number of draws taken so far *)
  played : list string       (* sounds started so far, latest first *)
}.

Definition time_time (w : World) : Q * World :=
  (clock w (clock_pos w),
   mkWorld (clock w) (S (clock_pos w)) (rnd w) (rnd_pos w) (played w)).

Definition random_random (w : World) : Q * World :=
  (rnd w (rnd_pos w),
   mkWorld (clock w) (clock_pos w) (rnd w) (S (rnd_pos w)) (played w)).

Definition play_sound (path : string) (w : World) : World :=
  mkWorld (clock w) (clock_pos w) (rnd w) (rnd_pos w) (path :: played w).

(** ** Paths: the media files *)

Definition digit (n : nat) : string :=
  match n with
  | 0%nat => "0" | 1%nat => "1" | 2%nat => "2" | 3%nat => "3" | 4%nat => "4"
  | 5%nat => "5" | 6%nat => "6" | 7%nat => "7" | 8%nat => "8" | _ => "9"
  end%string.

Definition decimal (n : nat) : string :=
  if (n <? 10)%nat then digit n
  else (digit (n / 10) ++ digit (n mod 10))%string.

(** [[f"media/sprites/{name}{i}.png" for i in range(n)]], relative to the
    package directory. *)
Definition sprite_paths (name : string) (n : nat) : list string :=
  map (fun i => ("media/sprites/" ++ name ++ decimal i ++ ".png")%string)
      (seq 0 n).

Record Paths : Type := mkPaths {
  background : string;
  lingering_images : list string;
  dizzy_images : list string;
  going_down_images : list string;
  going_up_images : list string;
  up_images : list string;
  vegetable_images : list string;
  hourglass_images : list string;
  hit_sound : string;
  font : string
}.

Definition Paths_init : Paths := {|
  background := "media/sprites/background.png";
  lingering_images := sprite_paths "lingering" 1;
  dizzy_images := sprite_paths "dizzy" 6;
  going_down_images := sprite_paths "going_down" 6;
  going_up_images := sprite_paths "going_up" 6;
  up_images := sprite_paths "up" 2;
  vegetable_images := sprite_paths "vegetable" 12;
  hourglass_images := sprite_paths "hourglass" 5;
  hit_sound := "media/sfx/hit.ogg";
  font := "media/freesansbold.ttf"
|}.

(** ** MoleAction, MoleState, State *)

Inductive MoleAction : Type :=
| LINGERING_BENEATH
| GOING_UP
| LOOKING_AROUND
| GOING_DOWN
| DIZZYING_DOWN.

Record MoleState : Type := mkMoleState {
  action : MoleAction;
  start : Q;
  end_ : Q
}.

(** [MoleState(action, start, end)]: the class invariant [start <= end] is
    checked when the constructor returns. *)
Definition MoleState_init (a : MoleAction) (s e : Q) : result MoleState :=
  if Qle_bool s e then Ok (mkMoleState a s e) else Raise ViolationError.

Record State : Type := mkState {
  received_quit : bool;
  score : Z;
  misses : Z;
  game_start : Q;
  now : Q;
  game_end : Q;
  mole_states : list MoleState;
  game_over : bool
}.

Definition set_received_quit (b : bool) (s : State) : State :=
  mkState b (score s) (misses s) (game_start s) (now s) (game_end s)
          (mole_states s) (game_over s).

Definition set_game_over (b : bool) (s : State) : State :=
  mkState (received_quit s) (score s) (misses s) (game_start s) (now s)
          (game_end s) (mole_states s) b.

Definition set_now (t : Q) (s : State) : State :=
  mkState (received_quit s) (score s) (misses s) (game_start s) t
          (game_end s) (mole_states s) (game_over s).

Definition set_score (n : Z) (s : State) : State :=
  mkState (received_quit s) n (misses s) (game_start s) (now s)
          (game_end s) (mole_states s) (game_over s).

Definition set_misses (n : Z) (s : State) : State :=
  mkState (received_quit s) (score s) n (game_start s) (now s)
          (game_end s) (mole_states s) (game_over s).

Definition set_mole_states (ms : list MoleState) (s : State) : State :=
  mkState (received_quit s) (score s) (misses s) (game_start s) (now s)
          (game_end s) ms (game_over s).

(** The list comprehension of [State.__init__]: [n] moles, one draw each. *)
Fixpoint init_moles (n : nat) (game_start : Q) (w : World)
  : result (list MoleState * World) :=
  match n with
  | O => Ok ([], w)
  | S n' =>
      let (r, w1) := random_random w in
      m <- MoleState_init LINGERING_BENEATH game_start
             (game_start + 2 + inject_Z (int (r * 13))) ;;
      ' (ms, w2) <- init_moles n' game_start w1 ;;
      Ok (m :: ms, w2)
  end.

(** [State(game_start, game_end)] with its [require] and [ensure]. *)
Definition State_init (game_start game_end : Q) (w : World)
  : result (State * World) :=
  if negb (Qle_bool game_start game_end) then Raise ViolationError
  else
    ' (ms, w1) <- init_moles 8 game_start w ;;
    if negb (List.length ms =? 8)%nat then Raise ViolationError
    else Ok (mkState false 0 0 game_start game_start game_end ms false, w1).

(** ** BUTTON_TO_MOLE *)

Definition BUTTON_TO_MOLE : list (Button * nat) :=
  [ (CROSS, 0%nat); (UP, 1%nat); (CIRCLE, 2%nat); (RIGHT, 3%nat);
    (SQUARE, 4%nat); (DOWN, 5%nat); (TRIANGLE, 6%nat); (LEFT, 7%nat) ].

(** [d.get(key, None)] on a dict given by its items. *)
Fixpoint dict_get {V : Type} (d : list (Button * V)) (key : Button)
  : option V :=
  match d with
  | [] => None
  | (k, v) :: d' => if Button_eqb k key then Some v else dict_get d' key
  end.

Arguments dict_get : simpl never.

Definition GOING_DOWN_IN_SECONDS : Q := 1 # 4.
Definition GOING_UP_IN_SECONDS : Q := 1 # 4.

(** ** The handlers *)

(** A handler works on the world, the state and the event queue. *)
Definition Machine : Type := (World * State * list Event)%type.

(** [l[i] = a] for an index known to be in range. *)
Fixpoint list_set {A : Type} (l : list A) (i : nat) (a : A) : list A :=
  match l, i with
  | [], _ => []
  | _ :: l', O => a :: l'
  | x :: l', S i' => x :: list_set l' i' a
  end.

Definition handle_in_game_over (paths : Paths) (w : World) (state : State)
           (our_event_queue : list Event) : result Machine :=
  match our_event_queue with
  | [] => Ok (w, state, [])
  | event :: rest =>
      match event with
      | ReceivedQuit => Ok (w, set_received_quit true state, rest)
      | _ => Ok (w, state, rest)
      end
  end.

(** The body of [if now > mole_state.end:] in the loop of a [Tick]. *)
Definition expire (now : Q) (mole_state : MoleState) (misses : Z) (w : World)
  : MoleState * Z * World :=
  match action mole_state with
  | LINGERING_BENEATH =>
      (mkMoleState GOING_UP now (now + GOING_UP_IN_SECONDS), misses, w)
  | GOING_UP =>
      (mkMoleState LOOKING_AROUND now (now + (7 # 2)), misses, w)
  | LOOKING_AROUND =>
      (mkMoleState GOING_DOWN now (now + GOING_DOWN_IN_SECONDS),
       (misses + 1)%Z, w)
  | GOING_DOWN | DIZZYING_DOWN =>
      let (r, w1) := random_random w in
      (mkMoleState LINGERING_BENEATH now (now + 2 + r * 13), misses, w1)
  end.

(** [for mole_state in state.mole_states: ...], threading [state.misses]
    and the random generator from one mole to the next. *)
Fixpoint update_moles (now : Q) (moles : list MoleState) (misses : Z)
         (w : World) : list MoleState * Z * World :=
  match moles with
  | [] => ([], misses, w)
  | mole_state :: rest =>
      let '(m1, misses1, w1) :=
        if Qgt_bool now (end_ mole_state)
        then expire now mole_state misses w
        else (mole_state, misses, w) in
      let '(rest1, misses2, w2) := update_moles now rest misses1 w1 in
      (m1 :: rest1, misses2, w2)
  end.

Definition handle_in_game (paths : Paths) (w : World) (state : State)
           (our_event_queue : list Event) : result Machine :=
  match our_event_queue with
  | [] => Ok (w, state, [])
  | event :: rest =>
      let (now_, w1) := time_time w in
      match event with
      | ReceivedQuit => Ok (w1, set_received_quit true state, rest)
      | GameOver => Ok (w1, set_game_over true state, rest)
      | ButtonDown button =>
          if game_over state then Ok (w1, state, rest)
          else
            match dict_get BUTTON_TO_MOLE button with
            | None => Ok (w1, state, rest)
            | Some mole_index =>
                match nth_error (mole_states state) mole_index with
                | None => Raise IndexError
                | Some mole_state =>
                    match action mole_state with
                    | LOOKING_AROUND =>
                        let hit :=
                          mkMoleState DIZZYING_DOWN (now state)
                            (now state + GOING_DOWN_IN_SECONDS) in
                        let state1 :=
                          set_mole_states
                            (list_set (mole_states state) mole_index hit)
                            state in
                        let state2 :=
                          set_score (score state1 + 1)%Z state1 in
                        Ok (play_sound (hit_sound paths) w1, state2, rest)
                    | _ => Ok (w1, state, rest)
                    end
                end
            end
      | Tick =>
          if game_over state then Ok (w1, state, rest)
          else
            let state1 := set_now now_ state in
            if Qgt_bool now_ (game_end state1)
            then Ok (w1, state1, rest ++ [GameOver])
            else
              let '(moles, misses1, w2) :=
                update_moles now_ (mole_states state1) (misses state1) w1 in
              Ok (w2, set_misses misses1 (set_mole_states moles state1), rest)
      end
  end.

Definition handle (paths : Paths) (w : World) (state : State)
           (our_event_queue : list Event) : result Machine :=
  if game_over state
  then handle_in_game_over paths w state our_event_queue
  else handle_in_game paths w state our_event_queue.

(** ** The drain loop of [main]

    [while len(our_event_queue) > 0: handle(state, our_event_queue, paths)].
    The loop is run on fuel; [None] means that the fuel ran out before the
    queue was empty. *)

Fixpoint drain (paths : Paths) (fuel : nat) (w : World) (state : State)
         (our_event_queue : list Event) : option (result (World * State)) :=
  match our_event_queue with
  | [] => Some (Ok (w, state))
  | _ :: _ =>
      match fuel with
      | O => None
      | S fuel' =>
          match handle paths w state our_event_queue with
          | Raise e => Some (Raise e)
          | Ok (w1, state1, queue1) => drain paths fuel' w1 state1 queue1
          end
      end
  end.

Definition is_Tick (e : Event) : bool :=
  match e with Tick => true | _ => false end.

(** An upper bound on the number of [handle] calls a queue can cause: a
    [Tick] may leave a [GameOver] behind, every other event leaves nothing. *)
Definition queue_weight (q : list Event) : nat :=
  (List.length q + List.length (filter is_Tick q))%nat.

(** ** The sprite selection of [render_game] *)

Definition MOLES_XY_ON_SCENE : list (Z * Z) :=
  [ (156, 189); (442, 137); (755, 177); (737, 379);
    (726, 526); (402, 498); (152, 490); (179, 333) ]%Z.

Definition len {A : Type} (l : list A) : Z := Z.of_nat (List.length l).

Definition images_for (paths : Paths) (a : MoleAction) : list string :=
  match a with
  | LINGERING_BENEATH => lingering_images paths
  | GOING_UP => going_up_images paths
  | LOOKING_AROUND => up_images paths
  | GOING_DOWN => going_down_images paths
  | DIZZYING_DOWN => dizzy_images paths
  end.

(** What is drawn for one mole: the sprite index, the sprite and where. *)
Record Sprite : Type := mkSprite {
  sprite_step : Z;
  sprite_image : string;
  sprite_xy : Z * Z
}.

(** One iteration of [for i, mole_xy in enumerate(MOLES_XY_ON_SCENE)]. *)
Definition render_mole (paths : Paths) (state : State) (i : nat)
           (mole_xy : Z * Z) : result Sprite :=
  mole_state <- py_getitem (mole_states state) (Z.of_nat i) ;;
  let total_time_in_state := end_ mole_state - start mole_state in
  let time_passed_in_state := now state - start mole_state in
  fraction_of_time <- py_div time_passed_in_state total_time_in_state ;;
  let image_paths := images_for paths (action mole_state) in
  let step :=
    Z.min (int (fraction_of_time * inject_Z (len image_paths)))
          (len image_paths - 1) in
  mole <- py_getitem image_paths step ;;
  Ok (mkSprite step mole mole_xy).

Fixpoint render_moles (paths : Paths) (state : State) (i : nat)
         (xys : list (Z * Z)) : result (list Sprite) :=
  match xys with
  | [] => Ok []
  | mole_xy :: rest =>
      sprite <- render_mole paths state i mole_xy ;;
      sprites <- render_moles paths state (S i) rest ;;
      Ok (sprite :: sprites)
  end.

Record Scene : Type := mkScene {
  scene_score : Z;
  scene_moles : list Sprite;
  hourglass_step : Z;
  hourglass_image : string
}.

Definition render_game (paths : Paths) (state : State) : result Scene :=
  sprites <- render_moles paths state 0 MOLES_XY_ON_SCENE ;;
  game_time_fraction <-
    py_div (now state - game_start state)
           (game_end state - game_start state) ;;
  let step :=
    Z.min (int (game_time_fraction * inject_Z (len (hourglass_images paths))))
          (len (hourglass_images paths) - 1) in
  hourglass_path <- py_getitem (hourglass_images paths) step ;;
  Ok (mkScene (score state) sprites step hourglass_path).

(** ** The frame loop of [main] *)

(** A pygame event once the test [joysticks[event.instance_id] is
    active_joystick] of a button press has been evaluated to a boolean;
    the events as pygame delivers them, with the instance id and the list
    index that can raise, are [RawEvent] and [collect_events] below. *)
Inductive PygameEvent : Type :=
| QUIT
| JOYBUTTONDOWN (on_active_joystick : bool) (button : Z)
| KEYDOWN (key : Z)
| OTHER.

Definition K_ESCAPE : Z := 27.
Definition K_q : Z := 113.

Definition button_map : list (Z * Button) :=
  [ (6, CROSS); (2, UP); (7, CIRCLE); (3, RIGHT);
    (5, SQUARE); (1, DOWN); (4, TRIANGLE); (0, LEFT) ]%Z.

Fixpoint button_map_get (d : list (Z * Button)) (key : Z) : option Button :=
  match d with
  | [] => None
  | (k, v) :: d' => if (k =? key)%Z then Some v else button_map_get d' key
  end.

(** [for event in pygame.event.get(): ...] followed by the frame's tick,
    on events whose joystick test has been evaluated. *)
Fixpoint collect (events : list PygameEvent) (our_event_queue : list Event)
  : list Event :=
  match events with
  | [] => our_event_queue ++ [Tick]
  | event :: rest =>
      match event with
      | QUIT => collect rest (our_event_queue ++ [ReceivedQuit])
      | JOYBUTTONDOWN true button =>
          match button_map_get button_map button with
          | Some our_button =>
              collect rest (our_event_queue ++ [ButtonDown our_button])
          | None => collect rest our_event_queue
          end
      | KEYDOWN key =>
          if ((key =? K_ESCAPE) || (key =? K_q))%Z%bool
          then collect rest (our_event_queue ++ [ReceivedQuit])
          else collect rest our_event_queue
      | _ => collect rest our_event_queue
      end
  end.

Definition game_duration : Q := 120.

(** [now = time.time(); state = State(now, now + game_duration)]. *)
Definition main_start (w : World) : result (State * World) :=
  let (now_, w1) := time_time w in
  State_init now_ (now_ + game_duration) w1.

(** One pass of [while not state.received_quit:] up to the drained queue. *)
Definition run_frame (paths : Paths) (events : list PygameEvent)
           (w : World) (state : State) : option (result (World * State)) :=
  let our_event_queue := collect events [] in
  drain paths (queue_weight our_event_queue) w state our_event_queue.

(** The states [main] hands to [render], from the world [w0] it starts in. *)
Inductive main_reaches (paths : Paths) (w0 : World) : World -> State -> Prop :=
| reaches_start : forall w state,
    main_start w0 = Ok (state, w) ->
    main_reaches paths w0 w state
| reaches_frame : forall w state events w1 state1,
    main_reaches paths w0 w state ->
    received_quit state = false ->
    run_frame paths events w state = Some (Ok (w1, state1)) ->
    main_reaches paths w0 w1 state1.

(** [render] dispatches on the flags; [render_game] is the normal play. *)
Definition normal_play (state : State) : Prop :=
  received_quit state = false /\ game_over state = false.

(** ** Assumptions on the collaborators and specification predicates *)

(** [random.random()] returns a value of [[0, 1)]. *)
Definition rnd_in_range (w : World) : Prop :=
  forall n, 0 <= rnd w n /\ rnd w n < 1.

(** The clock never runs backwards. *)
Definition clock_monotone (w : World) : Prop :=
  forall n, clock w n <= clock w (S n).

(** The reading the next call of [time.time()] returns. *)
Definition next_now (w : World) : Q := clock w (clock_pos w).

Definition unexpired (m : MoleState) : Prop := start m <= end_ m.
Definition running (m : MoleState) : Prop := start m < end_ m.

(** One step along the cycle of a mole, taken at [t], as the specification
    words it. *)
Definition advanced (t : Q) (m m' : MoleState) : Prop :=
  start m' = t /\
  match action m with
  | LINGERING_BENEATH => action m' = GOING_UP /\ end_ m' = t + (1 # 4)
  | GOING_UP => action m' = LOOKING_AROUND /\ end_ m' = t + (7 # 2)
  | LOOKING_AROUND => action m' = GOING_DOWN /\ end_ m' = t + (1 # 4)
  | GOING_DOWN | DIZZYING_DOWN =>
      action m' = LINGERING_BENEATH /\
      exists r, 0 <= r /\ r < 1 /\ end_ m' = t + 2 + r * 13
  end.

(** The moles a tick at [t] counts as missed. *)
Definition missed (t : Q) (m : MoleState) : bool :=
  Qgt_bool t (end_ m) &&
  match action m with LOOKING_AROUND => true | _ => false end.

(** Everything of the state but the moles, the score and the misses. *)
Definition same_round (s s' : State) : Prop :=
  received_quit s' = received_quit s /\ game_over s' = game_over s /\
  game_start s' = game_start s /\ game_end s' = game_end s.

(** The slot a button stands for, by the value of the enumeration. *)
Definition mole_of (b : Button) : nat := Z.to_nat (Button_value b).

(** What handling one event can do to the state, as a step relation: the
    cases are the branches of the handlers that return normally. *)
Inductive effect (w : World) (s : State) : State -> Prop :=
| eff_none : effect w s s
| eff_quit : effect w s (set_received_quit true s)
| eff_over : effect w s (set_game_over true s)
| eff_hit : forall b m,
    game_over s = false ->
    nth_error (mole_states s) (mole_of b) = Some m ->
    action m = LOOKING_AROUND ->
    effect w s
      (set_score (score s + 1)
         (set_mole_states
            (list_set (mole_states s) (mole_of b)
               (mkMoleState DIZZYING_DOWN (now s) (now s + (1 # 4))))
            s))
| eff_late :
    game_over s = false ->
    game_end s < next_now w ->
    effect w s (set_now (next_now w) s)
| eff_tick : forall moles misses1 w1,
    game_over s = false ->
    next_now w <= game_end s ->
    update_moles (next_now w) (mole_states s) (misses s) (snd (time_time w))
    = (moles, misses1, w1) ->
    effect w s
      (set_misses misses1 (set_mole_states moles (set_now (next_now w) s))).

(** What [main] keeps true of the world and the state between events. *)
Definition round_inv (w : World) (s : State) : Prop :=
  List.length (mole_states s) = 8%nat /\
  Forall (fun m => start m < end_ m /\ start m <= now s) (mole_states s) /\
  game_start s <= now s /\ game_start s < game_end s /\
  (forall n, (clock_pos w <= n)%nat -> now s <= clock w n) /\
  rnd_in_range w /\ clock_monotone w.

(** [image] is frame [step] of [images], a valid frame. *)
Definition frame_in_range (images : list string) (step : Z) (image : string)
  : Prop :=
  (0 <= step <= len images - 1)%Z /\
  nth_error images (Z.to_nat step) = Some image.

(** The sprite drawn for the mole [m] at time [t] is a frame of the set of
    its action, the last one once [t] has reached the end of the action. *)
Definition sprite_in_range (paths : Paths) (t : Q) (m : MoleState)
           (sp : Sprite) : Prop :=
  frame_in_range (images_for paths (action m))
                 (sprite_step sp) (sprite_image sp) /\
  (end_ m <= t -> sprite_step sp = (len (images_for paths (action m)) - 1)%Z).

(** ** Concrete worlds and states used to exercise the theorems *)

(** A clock that reads 0, 1, 2, ... and a generator stuck at 1/2. *)
Definition demo_world (pos : nat) : World :=
  mkWorld (fun n => inject_Z (Z.of_nat n)) pos (fun _ => 1 # 2) 0 [].

Definition demo_moles : list MoleState :=
  [ mkMoleState LOOKING_AROUND 10 (27 # 2);
    mkMoleState LINGERING_BENEATH 0 16;
    mkMoleState GOING_UP 12 (49 # 4);
    mkMoleState GOING_DOWN 12 (49 # 4);
    mkMoleState DIZZYING_DOWN 12 (49 # 4);
    mkMoleState LINGERING_BENEATH 0 13;
    mkMoleState LOOKING_AROUND 11 (29 # 2);
    mkMoleState LINGERING_BENEATH 0 20 ].

Definition demo_state : State :=
  mkState false 3 1 0 12 120 demo_moles false.

Definition demo_state_over : State :=
  mkState false 3 1 0 121 120 demo_moles true.

(** A clock stuck at 0 and a generator stuck at 0. *)
Definition still_world : World :=
  mkWorld (fun _ => 0) 0 (fun _ => 0) 0 [].

(** ** events.py: [__str__] *)

(** [button.name]. *)
Definition Button_name (b : Button) : string :=
  match b with
  | CROSS => "CROSS" | UP => "UP" | CIRCLE => "CIRCLE" | RIGHT => "RIGHT"
  | SQUARE => "SQUARE" | DOWN => "DOWN" | TRIANGLE => "TRIANGLE"
  | LEFT => "LEFT"
  end%string.

(** [str(event)]: the class name, with the button for a [ButtonDown]. *)
Definition Event_str (e : Event) : string :=
  match e with
  | Tick => "Tick"
  | ReceivedQuit => "ReceivedQuit"
  | ButtonDown button => "ButtonDown(" ++ Button_name button ++ ")"
  | GameOver => "GameOver"
  end%string.

(** ** Paths.all and check_all_files_exist *)

(** [paths.all] once [Paths.__init__] has returned: every path, in the
    order [prepend_package_dir_and_register] was called. *)
Definition Paths_all (paths : Paths) : list string :=
  [background paths] ++ lingering_images paths ++ dizzy_images paths
  ++ going_down_images paths ++ going_up_images paths ++ up_images paths
  ++ vegetable_images paths ++ hourglass_images paths
  ++ [hit_sound paths; font paths].

(** The loop of [check_all_files_exist]; [os_path_exists] is the file
    system. *)
Fixpoint first_missing (os_path_exists : string -> bool) (all : list string)
  : option string :=
  match all with
  | [] => None
  | path :: rest =>
      if negb (os_path_exists path)
      then Some ("The media file does not exist: " ++ path)%string
      else first_missing os_path_exists rest
  end.

Definition check_all_files_exist (os_path_exists : string -> bool)
           (paths : Paths) : option string :=
  first_missing os_path_exists (Paths_all paths).

(** ** IMAGE_CACHE and load_image_or_retrieve_from_cache *)

Section ImageCache.

(** [pygame.surface.Surface], and [pygame.image.load(path).convert_alpha()]
    as a function of the path. *)
Variable Surface : Type.
Variable pygame_image_load : string -> Surface.

(** The module-level dict with the log of the loads from disk, latest
    first. *)
Record ImageStore : Type := mkImageStore {
  IMAGE_CACHE : list (string * Surface);
  disk_loads : list string
}.

(** [d.get(path, None)] on a dict given by its items. *)
Fixpoint cache_get (d : list (string * Surface)) (path : string)
  : option Surface :=
  match d with
  | [] => None
  | (k, v) :: d' => if String.eqb k path then Some v else cache_get d' path
  end.

(** [d[path] = image] on a dict given by its items. *)
Fixpoint cache_set (d : list (string * Surface)) (path : string)
         (image : Surface) : list (string * Surface) :=
  match d with
  | [] => [(path, image)]
  | (k, v) :: d' =>
      if String.eqb k path then (k, image) :: d'
      else (k, v) :: cache_set d' path image
  end.

Definition load_image_or_retrieve_from_cache (store : ImageStore)
           (path : string) : Surface * ImageStore :=
  match cache_get (IMAGE_CACHE store) path with
  | Some image => (image, store)
  | None =>
      let image := pygame_image_load path in
      (image,
       mkImageStore (cache_set (IMAGE_CACHE store) path image)
                    (path :: disk_loads store))
  end.

(** A run of requests, one after the other, on the shared store. *)
Fixpoint load_images (store : ImageStore) (requests : list string)
  : list Surface * ImageStore :=
  match requests with
  | [] => ([], store)
  | path :: rest =>
      let (image, store1) := load_image_or_retrieve_from_cache store path in
      let (images, store2) := load_images store1 rest in
      (image :: images, store2)
  end.

(** Every cached image is the one on disk under its key. *)
Definition cache_coherent (store : ImageStore) : Prop :=
  forall path image,
    cache_get (IMAGE_CACHE store) path = Some image ->
    image = pygame_image_load path.

(** Every path read from disk sits in the cache, and none was read
    twice. *)
Definition loads_cached (store : ImageStore) : Prop :=
  NoDup (disk_loads store) /\
  forall path, In path (disk_loads store) ->
               cache_get (IMAGE_CACHE store) path <> None.

End ImageCache.

Arguments IMAGE_CACHE {Surface} _.
Arguments disk_loads {Surface} _.
Arguments mkImageStore {Surface} _ _.

(** ** render_quitting, render_game_over and render *)

(** What the collaborators tell the game-over screen: the height of the
    surface and the heights of the three rendered lines of text. *)
Record Display : Type := mkDisplay {
  surface_height : Z;
  game_over_text_height : Z;
  score_text_height : Z;
  result_text_height : Z
}.

(** [max(1, int(0.01 * surface.get_height()))]. *)
Definition one_percent (display : Display) : Z :=
  Z.max 1 (int ((1 # 100) * inject_Z (surface_height display))).

(** A vegetable as the game-over screen draws it. *)
Record Vegetable : Type := mkVegetable {
  vegetable_image : string;
  vegetable_xy : Z * Z;
  vegetable_size : Z;
  vegetable_lost : bool      (* filled red *)
}.

Record GameOverScreen : Type := mkGameOverScreen {
  final_score : Z;
  vegetable_score : Z;
  vegetables : list Vegetable
}.

(** [for i, vegetable_image in enumerate(paths.vegetable_images): ...]. *)
Fixpoint draw_vegetables (onepw : Z) (vegetable_origin_xy : Z * Z)
         (vegetable_score : Z) (i : Z) (images : list string)
  : list Vegetable :=
  match images with
  | [] => []
  | vegetable_image :: rest =>
      let vegetable_size := (onepw * 20)%Z in
      let vegetable_size_with_padding := (onepw * 22)%Z in
      let vegetable_xy :=
        ((fst vegetable_origin_xy
          + vegetable_size_with_padding * (i mod 4))%Z,
         (snd vegetable_origin_xy
          + vegetable_size_with_padding * int (inject_Z i / 4))%Z) in
      mkVegetable vegetable_image vegetable_xy vegetable_size
                  (vegetable_score <=? i)%Z
      :: draw_vegetables onepw vegetable_origin_xy vegetable_score
                         (i + 1)%Z rest
  end.

Definition render_game_over (paths : Paths) (display : Display)
           (state : State) : GameOverScreen :=
  let oneph := one_percent display in
  let onepw := one_percent display in
  let game_over_xy := (10 * onepw, 10 * oneph)%Z in
  let score_xy :=
    (fst game_over_xy,
     snd game_over_xy + game_over_text_height display + oneph)%Z in
  let vegetable_score :=
    Z.max (len (vegetable_images paths) - misses state) 0 in
  let result_xy :=
    (fst score_xy, snd score_xy + score_text_height display + 6 * oneph)%Z in
  let vegetable_origin_xy :=
    (fst result_xy,
     snd result_xy + result_text_height display + 2 * oneph)%Z in
  mkGameOverScreen (score state) vegetable_score
    (draw_vegetables onepw vegetable_origin_xy vegetable_score 0
                     (vegetable_images paths)).

Inductive Screen : Type :=
| QuittingScreen
| OverScreen (screen : GameOverScreen)
| GameScreen (scene : Scene).

Definition render (paths : Paths) (display : Display) (state : State)
  : result Screen :=
  if received_quit state then Ok QuittingScreen
  else if game_over state
       then Ok (OverScreen (render_game_over paths display state))
       else scene <- render_game paths state ;; Ok (GameScreen scene).

(** ** The events as pygame delivers them *)

(** A button press carries the instance id of its joystick. *)
Inductive RawEvent : Type :=
| RAW_QUIT
| RAW_JOYBUTTONDOWN (instance_id : Z) (button : Z)
| RAW_KEYDOWN (key : Z)
| RAW_OTHER.

(** [joysticks[instance_id] is active_joystick]: the joystick objects are
    told apart by a number each; the index raises when it is out of
    range. *)
Definition is_active_joystick (joysticks : list nat) (active_joystick : nat)
           (instance_id : Z) : result bool :=
  joystick <- py_getitem joysticks instance_id ;;
  Ok (joystick =? active_joystick)%nat.

(** [for event in pygame.event.get(): ...] followed by the frame's tick,
    as [main] writes it. *)
Fixpoint collect_events (joysticks : list nat) (active_joystick : nat)
         (events : list RawEvent) (our_event_queue : list Event)
  : result (list Event) :=
  match events with
  | [] => Ok (our_event_queue ++ [Tick])
  | event :: rest =>
      match event with
      | RAW_QUIT =>
          collect_events joysticks active_joystick rest
                         (our_event_queue ++ [ReceivedQuit])
      | RAW_JOYBUTTONDOWN instance_id button =>
          on_active <- is_active_joystick joysticks active_joystick
                                          instance_id ;;
          if on_active
          then match button_map_get button_map button with
               | Some our_button =>
                   collect_events joysticks active_joystick rest
                                  (our_event_queue ++ [ButtonDown our_button])
               | None =>
                   collect_events joysticks active_joystick rest
                                  our_event_queue
               end
          else collect_events joysticks active_joystick rest our_event_queue
      | RAW_KEYDOWN key =>
          if ((key =? K_ESCAPE) || (key =? K_q))%Z%bool
          then collect_events joysticks active_joystick rest
                              (our_event_queue ++ [ReceivedQuit])
          else collect_events joysticks active_joystick rest our_event_queue
      | RAW_OTHER =>
          collect_events joysticks active_joystick rest our_event_queue
      end
  end.

(** One pass of [while not state.received_quit:] up to the drained queue,
    on the events as delivered. *)
Definition run_frame_events (paths : Paths) (joysticks : list nat)
           (active_joystick : nat) (events : list RawEvent)
           (w : World) (state : State) : option (result (World * State)) :=
  match collect_events joysticks active_joystick events [] with
  | Raise e => Some (Raise e)
  | Ok our_event_queue =>
      drain paths (queue_weight our_event_queue) w state our_event_queue
  end.

(** The instance id of a button press is an index of [joysticks]. *)
Definition instance_known (joysticks : list nat) (event : RawEvent) : bool :=
  match event with
  | RAW_JOYBUTTONDOWN instance_id _ =>
      ((- len joysticks <=? instance_id) && (instance_id <? len joysticks))%Z
  | _ => true
  end.

(** The event with its joystick test evaluated. *)
Definition observe (joysticks : list nat) (active_joystick : nat)
           (event : RawEvent) : result PygameEvent :=
  match event with
  | RAW_QUIT => Ok QUIT
  | RAW_JOYBUTTONDOWN instance_id button =>
      on_active <- is_active_joystick joysticks active_joystick
                                      instance_id ;;
      Ok (JOYBUTTONDOWN on_active button)
  | RAW_KEYDOWN key => Ok (KEYDOWN key)
  | RAW_OTHER => Ok OTHER
  end.

Fixpoint observe_all (joysticks : list nat) (active_joystick : nat)
         (events : list RawEvent) : result (list PygameEvent) :=
  match events with
  | [] => Ok []
  | event :: rest =>
      seen <- observe joysticks active_joystick event ;;
      others <- observe_all joysticks active_joystick rest ;;
      Ok (seen :: others)
  end.

(** A delivered event that asks to quit. *)
Definition raw_asks_to_quit (event : RawEvent) : bool :=
  match event with
  | RAW_QUIT => true
  | RAW_KEYDOWN key => ((key =? K_ESCAPE) || (key =? K_q))%Z
  | _ => false
  end.

(** ** The loop of [main] over the frames

    [while not state.received_quit:] with the batch of pygame events of
    each pass given in advance; the screens are those handed to
    [pygame.display.flip()], in order.  The loop of the model also stops
    when the batches run out. *)

Fixpoint main_loop (paths : Paths) (display : Display)
         (joysticks : list nat) (active_joystick : nat)
         (frames : list (list RawEvent)) (w : World) (state : State)
  : option (result (list Screen * World * State)) :=
  match frames with
  | [] => Some (Ok ([], w, state))
  | events :: rest =>
      if received_quit state then Some (Ok ([], w, state))
      else
        match run_frame_events paths joysticks active_joystick events
                               w state with
        | None => None
        | Some (Raise e) => Some (Raise e)
        | Some (Ok (w1, state1)) =>
            match render paths display state1 with
            | Raise e => Some (Raise e)
            | Ok screen =>
                match main_loop paths display joysticks active_joystick
                                rest w1 state1 with
                | Some (Ok (screens, w2, state2)) =>
                    Some (Ok (screen :: screens, w2, state2))
                | other => other
                end
            end
        end
  end.

(** A frame that asks to quit: the window was closed, or ESC or q pressed. *)
Definition asks_to_quit (event : PygameEvent) : bool :=
  match event with
  | QUIT => true
  | KEYDOWN key => ((key =? K_ESCAPE) || (key =? K_q))%Z
  | _ => false
  end.

(** ** dev_scripts: the crop boxes *)

(** The box [(left, upper, right, lower)] of sprite [i] on a sheet with
    [columns] sprites per row. *)
Definition crop_box (columns sprite_width sprite_height i : Z)
  : Z * Z * Z * Z :=
  ((i mod columns) * sprite_width,
   int (inject_Z i / inject_Z columns) * sprite_height,
   (i mod columns) * sprite_width + sprite_width,
   int (inject_Z i / inject_Z columns) * sprite_height + sprite_height)%Z.

Definition sprite_file (name : string) (i : nat) : string :=
  ("media/sprites/" ++ name ++ decimal i ++ ".png")%string.

(** [enumerate(indices)] saved under [name]. *)
Fixpoint cut_out (name : string) (columns sprite_width sprite_height : Z)
         (k : nat) (indices : list Z) : list (string * (Z * Z * Z * Z)) :=
  match indices with
  | [] => []
  | i :: rest =>
      (sprite_file name k, crop_box columns sprite_width sprite_height i)
      :: cut_out name columns sprite_width sprite_height (S k) rest
  end.

(** cut_out_mole_sprites.py: the files saved, with the box each was
    cropped from, for a sheet of the given size. *)
Definition cut_out_mole_sprites (size : Z * Z)
  : list (string * (Z * Z * Z * Z)) :=
  let sprite_width := int (inject_Z (fst size) / 6) in
  let sprite_height := int (inject_Z (snd size) / 8) in
  flat_map (fun i =>
              [ (sprite_file "going_up" i,
                 crop_box 6 sprite_width sprite_height (Z.of_nat i));
                (sprite_file "going_down" (5 - i),
                 crop_box 6 sprite_width sprite_height (Z.of_nat i)) ])
           (seq 0 6)
  ++ cut_out "up" 6 sprite_width sprite_height 0 [6; 6 + 1]%Z
  ++ cut_out "dizzy" 6 sprite_width sprite_height 0
       [6 * 6; 6 * 6 + 1; 6 * 6 + 2; 7 * 6; 7 * 6 + 1; 7 * 6 + 2]%Z.

(** cut_out_vegetables.py. *)
Definition cut_out_vegetables (size : Z * Z)
  : list (string * (Z * Z * Z * Z)) :=
  let sprite_width := int (inject_Z (fst size) / 4) in
  let sprite_height := sprite_width in
  cut_out "vegetable" 4 sprite_width sprite_height 0
          (map Z.of_nat (seq 0 12)).

(** Two boxes share no pixel. *)
Definition boxes_disjoint (a b : Z * Z * Z * Z) : Prop :=
  let '(al, au, ar, alo) := a in
  let '(bl, bu, br, blo) := b in
  (ar <= bl \/ br <= al \/ alo <= bu \/ blo <= au)%Z.

(** A box lies on a sheet of the given size. *)
Definition box_on_sheet (size : Z * Z) (a : Z * Z * Z * Z) : Prop :=
  let '(al, au, ar, alo) := a in
  (0 <= al /\ al <= ar /\ ar <= fst size /\
   0 <= au /\ au <= alo /\ alo <= snd size)%Z.

(** The edges a mole takes from one action to the next. *)
Inductive cycle_edge : MoleAction -> MoleAction -> Prop :=
| edge_up : cycle_edge LINGERING_BENEATH GOING_UP
| edge_look : cycle_edge GOING_UP LOOKING_AROUND
| edge_down : cycle_edge LOOKING_AROUND GOING_DOWN
| edge_hit : cycle_edge LOOKING_AROUND DIZZYING_DOWN
| edge_hide : cycle_edge GOING_DOWN LINGERING_BENEATH
| edge_recover : cycle_edge DIZZYING_DOWN LINGERING_BENEATH.

(** The events [collect] puts before the tick. *)
Definition is_input (e : Event) : bool :=
  match e with
  | ReceivedQuit | ButtonDown _ => true
  | _ => false
  end.

(** The presses in a queue. *)
Definition is_ButtonDown (e : Event) : bool :=
  match e with ButtonDown _ => true | _ => false end.

(** The moles a tick at [t] sends back beneath, each for one draw. *)
Definition hides (t : Q) (m : MoleState) : bool :=
  Qgt_bool t (end_ m) &&
  match action m with GOING_DOWN | DIZZYING_DOWN => true | _ => false end.

(** Following the specification's words for the end of a fresh mole, "a
    randomized end in [game_start+2, game_start+15) (uniform)": the draw
    of [[0, 1)] spread evenly over that interval. *)
Definition spec_uniform_end (game_start r : Q) : Q := game_start + 2 + r * 13.

(** ** Field by field comparisons of two states *)

(** Everything but [now] is the same. *)
Definition same_except_now (s s' : State) : Prop :=
  received_quit s' = received_quit s /\ score s' = score s /\
  misses s' = misses s /\ game_start s' = game_start s /\
  game_end s' = game_end s /\ mole_states s' = mole_states s /\
  game_over s' = game_over s.

(** Everything but [game_over] is the same. *)
Definition same_except_game_over (s s' : State) : Prop :=
  received_quit s' = received_quit s /\ score s' = score s /\
  misses s' = misses s /\ game_start s' = game_start s /\
  now s' = now s /\ game_end s' = game_end s /\
  mole_states s' = mole_states s.

(** Everything but [received_quit] is the same. *)
Definition same_except_received_quit (s s' : State) : Prop :=
  score s' = score s /\ misses s' = misses s /\
  game_start s' = game_start s /\ now s' = now s /\
  game_end s' = game_end s /\ mole_states s' = mole_states s /\
  game_over s' = game_over s.

(** * Theorems *)

(** ** Basic facts *)

Lemma Qgt_bool_true (a b : Q) : Qgt_bool a b = true <-> b < a.
Proof.
  unfold Qgt_bool. rewrite negb_true_iff. split; intro H.
  - apply Qnot_le_lt. intro Hle. apply Qle_bool_iff in Hle. congruence.
  - destruct (Qle_bool a b) eqn:E; [|reflexivity].
    apply Qle_bool_iff in E. exfalso. apply (Qlt_not_le _ _ H E).
Qed.

Lemma Qgt_bool_false (a b : Q) : Qgt_bool a b = false <-> a <= b.
Proof.
  unfold Qgt_bool. rewrite negb_false_iff. apply Qle_bool_iff.
Qed.

Lemma set_game_over_idem (s : State) :
  game_over s = true -> set_game_over true s = s.
Proof. destruct s; simpl; intros ->; reflexivity. Qed.

Lemma dict_get_BUTTON_TO_MOLE (b : Button) :
  dict_get BUTTON_TO_MOLE b = Some (Z.to_nat (Button_value b)).
Proof. destruct b; reflexivity. Qed.

Lemma list_set_length {A : Type} (l : list A) (i : nat) (a : A) :
  List.length (list_set l i a) = List.length l.
Proof.
  revert i; induction l as [|x l IH]; intros [|i]; simpl; auto.
Qed.

Lemma list_set_same {A : Type} (l : list A) (i : nat) (a : A) :
  (i < List.length l)%nat -> nth_error (list_set l i a) i = Some a.
Proof.
  revert i; induction l as [|x l IH]; intros [|i]; simpl; intros H;
    try lia; auto.
  apply IH; lia.
Qed.

Lemma list_set_other {A : Type} (l : list A) (i j : nat) (a : A) :
  i <> j -> nth_error (list_set l i a) j = nth_error l j.
Proof.
  revert i j; induction l as [|x l IH]; intros [|i] [|j] H; simpl; auto.
  congruence.
Qed.

(** ** The empty queue *)

Lemma handle_empty_queue_free (paths : Paths) (w : World) (s : State) :
  handle paths w s [] = Ok (w, s, []) /\
  handle_in_game paths w s [] = Ok (w, s, []).
Proof. unfold handle. destruct (game_over s); split; reflexivity. Qed.

(** C10: [handle] on an empty queue returns at once in both modes: the
    state, the world (clock, generator, sounds) and the queue are what they
    were. *)
Theorem handle_empty_queue_noop (paths : Paths) (w : World) (s : State) :
  handle paths w s [] = Ok (w, s, []) /\
  handle_in_game paths w s [] = Ok (w, s, []) /\
  handle_in_game_over paths w s [] = Ok (w, s, []).
Proof.
  unfold handle. destruct (game_over s); repeat split; reflexivity.
Qed.

(** ** Game over *)

Lemma handle_game_over_mode (paths : Paths) (w : World) (s : State)
      (e : Event) (q : list Event) :
  game_over s = true ->
  handle paths w s (e :: q) =
  Ok (w, match e with ReceivedQuit => set_received_quit true s | _ => s end,
      q).
Proof.
  intros H. unfold handle. rewrite H. destruct e; reflexivity.
Qed.

Lemma update_moles_length (t : Q) (ms : list MoleState) :
  forall misses0 w ms' misses1 w1,
    update_moles t ms misses0 w = (ms', misses1, w1) ->
    List.length ms' = List.length ms.
Proof.
  induction ms as [|m ms IH]; simpl; intros misses0 w ms' misses1 w1 H.
  - inversion H; reflexivity.
  - destruct (if Qgt_bool t (end_ m) then expire t m misses0 w
              else (m, misses0, w)) as [[m1 mi1] wa].
    destruct (update_moles t ms mi1 wa) as [[r mi2] wb] eqn:E.
    inversion H; subst. simpl. f_equal. eapply IH; eauto.
Qed.

(** A handled event never clears a flag and never touches the bounds of the
    round. *)
Lemma handle_flags_monotone (paths : Paths) (w : World) (s : State)
      (q : list Event) (w1 : World) (s1 : State) (q1 : list Event) :
  handle paths w s q = Ok (w1, s1, q1) ->
  (received_quit s = true -> received_quit s1 = true) /\
  (game_over s = true -> game_over s1 = true) /\
  game_start s1 = game_start s /\ game_end s1 = game_end s.
Proof.
  unfold handle. destruct (game_over s) eqn:Hover.
  - destruct q as [|e q]; simpl.
    + intros H; inversion H; subst; repeat split; auto; congruence.
    + destruct e; intros H; inversion H; subst; simpl; repeat split; auto; congruence.
  - destruct q as [|e q]; simpl.
    + intros H; inversion H; subst; repeat split; auto; congruence.
    + rewrite Hover. destruct e.
      * simpl. destruct (Qgt_bool (clock w (clock_pos w)) (game_end s)).
        -- intros H; inversion H; subst; simpl; repeat split; auto; congruence.
        -- destruct (update_moles _ _ _ _) as [[ms mi] wa].
           intros H; inversion H; subst; simpl; repeat split; auto; congruence.
      * intros H; inversion H; subst; simpl; repeat split; auto; congruence.
      * destruct (dict_get BUTTON_TO_MOLE button); [|intros H; inversion H; subst; repeat split; auto; congruence].
        destruct (nth_error (mole_states s) n); [|discriminate].
        destruct (action m); intros H; inversion H; subst; simpl; repeat split; auto; congruence.
      * intros H; inversion H; subst; simpl; repeat split; auto; congruence.
Qed.

(** C4: in game-over mode every event but [ReceivedQuit] leaves the whole
    state (and the world and the rest of the queue) untouched;
    [ReceivedQuit] leaves [received_quit] true and every other field as it
    was; no handled event, in either mode, resets [received_quit] or
    [game_over]; and a [ButtonDown] queued behind a [GameOver] finds
    [game_over] true, is handled in game-over mode and so ignored. *)
Theorem game_over_is_absorbing (paths : Paths) (w : World) (s : State)
        (q : list Event) (Hover : game_over s = true) :
  (forall e, e <> ReceivedQuit -> handle paths w s (e :: q) = Ok (w, s, q)) /\
  (exists s1,
      handle paths w s (ReceivedQuit :: q) = Ok (w, s1, q) /\
      received_quit s1 = true /\ same_except_received_quit s s1 /\
      s1 = set_received_quit true s) /\
  (forall w0 s0 q0 w1 s1 q1,
      handle paths w0 s0 q0 = Ok (w1, s1, q1) ->
      (received_quit s0 = true -> received_quit s1 = true) /\
      (game_over s0 = true -> game_over s1 = true)) /\
  (forall w0 s0 b,
      game_over s0 = false ->
      exists w1 s1,
        handle paths w0 s0 (GameOver :: ButtonDown b :: q)
        = Ok (w1, s1, ButtonDown b :: q) /\
        game_over s1 = true /\ same_except_game_over s0 s1 /\
        handle paths w1 s1 (ButtonDown b :: q) = Ok (w1, s1, q)).
Proof.
  split; [|split; [|split]].
  - intros e He. rewrite handle_game_over_mode by assumption.
    destruct e; try reflexivity. contradiction.
  - exists (set_received_quit true s).
    split; [apply handle_game_over_mode; assumption|].
    split; [reflexivity|]. split; [|reflexivity].
    unfold same_except_received_quit. cbn. auto 10.
  - intros w0 s0 q0 w1 s1 q1 H.
    destruct (handle_flags_monotone _ _ _ _ _ _ _ H) as (A & B & _).
    split; assumption.
  - intros w0 s0 b H0.
    exists (snd (time_time w0)), (set_game_over true s0). split.
    + unfold handle. rewrite H0. reflexivity.
    + split; [reflexivity|]. split.
      * unfold same_except_game_over. cbn. auto 10.
      * apply handle_game_over_mode. reflexivity.
Qed.

Lemma game_over_is_absorbing_witness :
  game_over demo_state_over = true /\
  handle Paths_init (demo_world 5) demo_state_over [ButtonDown CROSS; Tick]
  = Ok (demo_world 5, demo_state_over, [Tick]) /\
  exists s1,
    handle Paths_init (demo_world 5) demo_state_over [ReceivedQuit; Tick]
    = Ok (demo_world 5, s1, [Tick]) /\
    received_quit demo_state_over = false /\ received_quit s1 = true /\
    score s1 = 3%Z /\ game_over s1 = true.
Proof.
  pose proof (game_over_is_absorbing Paths_init (demo_world 5)
                demo_state_over [Tick] eq_refl) as (A & (s1 & B & C & D & _) & _).
  split; [reflexivity|]. split; [apply A; discriminate|].
  exists s1. split; [exact B|]. split; [reflexivity|]. split; [exact C|].
  destruct D as (Hs & _ & _ & _ & _ & _ & Ho).
  split; [rewrite Hs; reflexivity | rewrite Ho; reflexivity].
Defined.

(** ** Button presses during the round *)

Lemma mole_of_lt8 (b : Button) : (mole_of b < 8)%nat.
Proof. destruct b; unfold mole_of; simpl; lia. Qed.

Lemma handle_ButtonDown_in_game (paths : Paths) (w : World) (s : State)
      (b : Button) (q : list Event) (m : MoleState) :
  game_over s = false ->
  nth_error (mole_states s) (mole_of b) = Some m ->
  handle paths w s (ButtonDown b :: q) =
  match action m with
  | LOOKING_AROUND =>
      Ok (play_sound (hit_sound paths) (snd (time_time w)),
          set_score (score s + 1)
            (set_mole_states
               (list_set (mole_states s) (mole_of b)
                  (mkMoleState DIZZYING_DOWN (now s) (now s + (1 # 4))))
               s),
          q)
  | _ => Ok (snd (time_time w), s, q)
  end.
Proof.
  intros Hover Hm. unfold handle, handle_in_game. rewrite Hover. simpl.
  rewrite dict_get_BUTTON_TO_MOLE. fold (mole_of b). rewrite Hm.
  destruct (action m); reflexivity.
Qed.

(** C1: during the round, a [ButtonDown] for a mole that is
    [LOOKING_AROUND] adds exactly one to the score and sends that mole
    [DIZZYING_DOWN] from [state.now] to [state.now + 0.25], touching
    nothing else of the state; for a mole in any other action the whole
    state is left as it was.  The score moves if and only if the mole was
    [LOOKING_AROUND]. *)
Theorem button_down_hits_only_looking_around
        (paths : Paths) (w : World) (s : State) (b : Button) (q : list Event)
        (Hmoles : List.length (mole_states s) = 8%nat)
        (Hplay : game_over s = false) :
  exists i m w1 s1,
    dict_get BUTTON_TO_MOLE b = Some i /\
    nth_error (mole_states s) i = Some m /\
    handle paths w s (ButtonDown b :: q) = Ok (w1, s1, q) /\
    (action m = LOOKING_AROUND ->
       score s1 = (score s + 1)%Z /\
       nth_error (mole_states s1) i
       = Some (mkMoleState DIZZYING_DOWN (now s) (now s + (1 # 4))) /\
       (forall j, j <> i ->
                  nth_error (mole_states s1) j = nth_error (mole_states s) j) /\
       List.length (mole_states s1) = 8%nat /\
       misses s1 = misses s /\ now s1 = now s /\ same_round s s1 /\
       played w1 = hit_sound paths :: played w) /\
    (action m <> LOOKING_AROUND -> s1 = s /\ played w1 = played w) /\
    (score s1 = (score s + 1)%Z <-> action m = LOOKING_AROUND) /\
    (action (nth i (mole_states s1) m) = DIZZYING_DOWN /\
     action m <> DIZZYING_DOWN <-> action m = LOOKING_AROUND).
Proof.
  pose proof (mole_of_lt8 b) as Hi.
  destruct (nth_error (mole_states s) (mole_of b)) as [m|] eqn:Hm.
  2:{ apply nth_error_None in Hm. lia. }
  pose proof (handle_ButtonDown_in_game paths w s b q m Hplay Hm) as Hh.
  assert (Hnth : forall l, nth_error l (mole_of b) = Some m ->
                           nth (mole_of b) l m = m).
  { intros l Hl. apply nth_error_nth with (d := m) in Hl. exact Hl. }
  destruct (action m) eqn:Ha;
    (eexists (mole_of b), m, _, _;
     split; [apply dict_get_BUTTON_TO_MOLE|];
     split; [exact Hm|];
     split; [exact Hh|]).
  all: rewrite Ha.
  all: try (split; [intros; discriminate|];
            split; [intros _; split; reflexivity|];
            split; [split; [lia|discriminate]|];
            split; [intros [A B]; rewrite (Hnth _ Hm) in A; congruence
                   |discriminate]).
  split; [|split; [congruence|split; [split; reflexivity|]]].
  - intros _. simpl. repeat split.
    + apply list_set_same. lia.
    + intros j Hj. apply list_set_other. congruence.
    + rewrite list_set_length. exact Hmoles.
  - split; [reflexivity|]. intros _. split; [|discriminate]. simpl.
    erewrite nth_error_nth; [|apply list_set_same; lia]. reflexivity.
Qed.

Lemma button_down_hits_only_looking_around_witness :
  List.length (mole_states demo_state) = 8%nat /\
  game_over demo_state = false /\
  exists w1 s1,
    handle Paths_init (demo_world 13) demo_state [ButtonDown CROSS; Tick]
    = Ok (w1, s1, [Tick]) /\
    score s1 = 4%Z /\
    nth_error (mole_states s1) 0
    = Some (mkMoleState DIZZYING_DOWN 12 (12 + (1 # 4))).
Proof.
  split; [reflexivity|]. split; [reflexivity|].
  destruct (button_down_hits_only_looking_around Paths_init (demo_world 13)
              demo_state CROSS [Tick] eq_refl eq_refl)
    as (i & m & w1 & s1 & Hi & Hm & Hh & Hhit & _).
  exists w1, s1. split; [exact Hh|].
  vm_compute in Hi. injection Hi as <-.
  vm_compute in Hm. injection Hm as <-.
  destruct (Hhit eq_refl) as (A & B & _).
  split; [exact A | exact B].
Defined.

(** ** Ticks after the end of the round *)

Lemma handle_GameOver (paths : Paths) (w : World) (s : State)
      (q : list Event) :
  exists w1,
    handle paths w s (GameOver :: q) = Ok (w1, set_game_over true s, q) /\
    played w1 = played w /\ rnd_pos w1 = rnd_pos w.
Proof.
  unfold handle. destruct (game_over s) eqn:Hover.
  - exists w. simpl. rewrite set_game_over_idem by assumption. auto.
  - exists (snd (time_time w)). simpl. auto.
Qed.

(** C3: a [Tick] handled during the round once the clock reading is past
    [game_end] leaves [now] equal to that reading, appends exactly one
    [GameOver] at the tail of the queue and changes no other field (moles,
    score, misses, flags, round bounds), nor a draw or a sound; handling
    a [GameOver], in any state, leaves [game_over] true and every other
    field as it was; and draining a queue that holds just that [Tick]
    ends with [game_over] true, [now] at the reading and the rest as it
    was. *)
Theorem tick_past_game_end_appends_GameOver
        (paths : Paths) (w : World) (s : State) (q : list Event)
        (Hplay : game_over s = false)
        (Hlate : game_end s < next_now w) :
  exists w1 s1,
    handle paths w s (Tick :: q) = Ok (w1, s1, q ++ [GameOver]) /\
    now s1 = next_now w /\ same_except_now s s1 /\
    game_over s1 = false /\
    s1 = set_now (next_now w) s /\
    rnd_pos w1 = rnd_pos w /\ played w1 = played w /\
    clock_pos w1 = S (clock_pos w) /\
    (forall w' s' q',
        exists w2 s2,
          handle paths w' s' (GameOver :: q') = Ok (w2, s2, q') /\
          game_over s2 = true /\ same_except_game_over s' s2) /\
    exists w2 s2,
      drain paths 2 w s [Tick] = Some (Ok (w2, s2)) /\
      game_over s2 = true /\ now s2 = next_now w /\
      received_quit s2 = received_quit s /\ score s2 = score s /\
      misses s2 = misses s /\ mole_states s2 = mole_states s /\
      game_start s2 = game_start s /\ game_end s2 = game_end s.
Proof.
  assert (Hh : forall q0, handle paths w s (Tick :: q0)
               = Ok (snd (time_time w), set_now (next_now w) s,
                     q0 ++ [GameOver])).
  { intros q0. unfold handle, handle_in_game. rewrite Hplay. simpl.
    apply Qgt_bool_true in Hlate. unfold next_now in Hlate.
    rewrite Hlate. reflexivity. }
  assert (Hover : forall w' s' q',
             exists w2 s2,
               handle paths w' s' (GameOver :: q') = Ok (w2, s2, q') /\
               game_over s2 = true /\ same_except_game_over s' s2).
  { intros w' s' q'. destruct (handle_GameOver paths w' s' q') as (w2 & H & _).
    exists w2, (set_game_over true s'). split; [exact H|].
    split; [reflexivity|]. unfold same_except_game_over. cbn. auto 10. }
  exists (snd (time_time w)), (set_now (next_now w) s).
  split; [apply Hh|]. split; [reflexivity|].
  split; [unfold same_except_now; cbn; auto 10|].
  split; [exact Hplay|]. split; [reflexivity|].
  split; [reflexivity|]. split; [reflexivity|]. split; [reflexivity|].
  split; [exact Hover|].
  destruct (Hover (snd (time_time w)) (set_now (next_now w) s) [])
    as (w2 & s2 & H & Hg & Hsame).
  exists w2, s2. cbn [drain]. rewrite (Hh []). cbn [app]. rewrite H.
  split; [reflexivity|]. split; [exact Hg|].
  destruct Hsame as (A & B & C & D & E & F & G). cbn in A, B, C, D, E, F, G.
  auto 10.
Qed.

Lemma tick_past_game_end_appends_GameOver_witness :
  game_over demo_state = false /\
  game_end demo_state < next_now (demo_world 121) /\
  exists w1 s1,
    handle Paths_init (demo_world 121) demo_state [Tick; ButtonDown UP]
    = Ok (w1, s1, [ButtonDown UP; GameOver]) /\
    now demo_state = 12 /\ now s1 = 121 /\ score s1 = 3%Z /\
    exists w2 s2,
      drain Paths_init 2 (demo_world 121) demo_state [Tick]
      = Some (Ok (w2, s2)) /\
      game_over s2 = true /\ now s2 = 121.
Proof.
  split; [reflexivity|]. split; [reflexivity|].
  destruct (tick_past_game_end_appends_GameOver Paths_init (demo_world 121)
              demo_state [ButtonDown UP] eq_refl eq_refl)
    as (w1 & s1 & H & Hn & Hs & _ & _ & _ & _ & _ & _ & Hd).
  exists w1, s1. split; [exact H|]. split; [reflexivity|].
  split; [exact Hn|]. split; [destruct Hs as (_ & -> & _); reflexivity|].
  destruct Hd as (w2 & s2 & D & G & N & _). exists w2, s2. auto.
Defined.

(** ** Every handled event is one of six effects *)

Lemma handle_effect (paths : Paths) (w : World) (s : State) (q : list Event)
      (w1 : World) (s1 : State) (q1 : list Event) :
  handle paths w s q = Ok (w1, s1, q1) -> effect w s s1.
Proof.
  destruct q as [|e q].
  - destruct (handle_empty_queue_free paths w s) as [-> _].
    intros H; inversion H; subst. constructor.
  - destruct (game_over s) eqn:Hover.
    + rewrite handle_game_over_mode by assumption.
      destruct e; intros H; inversion H; subst; constructor.
    + destruct e.
      * unfold handle, handle_in_game. rewrite Hover. simpl.
        fold (next_now w).
        destruct (Qgt_bool (next_now w) (game_end s)) eqn:Hlate.
        -- intros H; inversion H; subst. apply eff_late; auto.
           apply Qgt_bool_true; assumption.
        -- destruct (update_moles _ _ _ _) as [[ms mi] wa] eqn:Hu.
           intros H; inversion H; subst.
           eapply eff_tick; eauto. apply Qgt_bool_false; assumption.
      * unfold handle. rewrite Hover. simpl.
        intros H; inversion H; subst; constructor.
      * destruct (nth_error (mole_states s) (mole_of button)) as [m|] eqn:Hm.
        -- rewrite (handle_ButtonDown_in_game paths w s button q m Hover Hm).
           destruct (action m) eqn:Ha; intros H; inversion H; subst;
             try constructor.
           eapply eff_hit; eauto.
        -- unfold handle, handle_in_game. rewrite Hover. simpl.
           rewrite dict_get_BUTTON_TO_MOLE. fold (mole_of button).
           rewrite Hm. discriminate.
      * unfold handle. rewrite Hover. simpl.
        intros H; inversion H; subst; constructor.
Qed.

(** ** Truncation of non-negative floats *)

Lemma int_is_floor (x : Q) : 0 <= x -> int x = Qfloor x.
Proof.
  destruct x as [n d]. unfold Qle, int, Qfloor. simpl. intros H.
  apply Z.quot_div_nonneg; lia.
Qed.

Lemma int_nonneg (x : Q) : 0 <= x -> (0 <= int x)%Z.
Proof.
  destruct x as [n d]. unfold Qle, int. simpl. intros H.
  apply Z.quot_pos; lia.
Qed.

Lemma int_below (x : Q) (n : Z) :
  0 <= x -> x < inject_Z n -> (int x < n)%Z.
Proof.
  intros H0 Hn. rewrite int_is_floor by assumption.
  rewrite Zlt_Qlt. eapply Qle_lt_trans; [apply Qfloor_le | exact Hn].
Qed.

Lemma inject_Z_nonneg (k : Z) : (0 <= k)%Z -> 0 <= inject_Z k.
Proof. intros H. change 0 with (inject_Z 0). rewrite <- Zle_Qle. exact H. Qed.

Lemma draw_offset (r : Q) :
  0 <= r -> r < 1 ->
  0 <= inject_Z (int (r * 13)) /\ inject_Z (int (r * 13)) < 13.
Proof.
  intros H0 H1.
  assert (A : 0 <= r * 13) by lra.
  assert (B : r * 13 < inject_Z 13).
  { change (inject_Z 13) with 13. lra. }
  split.
  - apply inject_Z_nonneg, int_nonneg, A.
  - change 13 with (inject_Z 13) at 2. rewrite <- Zlt_Qlt.
    apply int_below; assumption.
Qed.

(** ** Construction of the state *)

(** The [k]-th mole [State.__init__] builds from the world [w]. *)
Lemma init_moles_ok (gs : Q) (n : nat) :
  forall w, rnd_in_range w ->
  exists w1,
    init_moles n gs w
    = Ok (map (fun k => mkMoleState LINGERING_BENEATH gs
                          (gs + 2 + inject_Z (int (rnd w (rnd_pos w + k) * 13))))
              (seq 0 n), w1) /\
    rnd w1 = rnd w /\ rnd_pos w1 = (rnd_pos w + n)%nat /\
    clock w1 = clock w /\ clock_pos w1 = clock_pos w /\ played w1 = played w.
Proof.
  induction n as [|n IH]; intros w Hr.
  - exists w. simpl. rewrite Nat.add_0_r. auto 10.
  - cbn [init_moles]. unfold random_random.
    set (w' := mkWorld (clock w) (clock_pos w) (rnd w) (S (rnd_pos w))
                       (played w)).
    destruct (IH w') as (w1 & Hi & A & B & C & D & E); [exact Hr|].
    exists w1. unfold MoleState_init.
    destruct (Hr (rnd_pos w)) as [H0 H1].
    destruct (draw_offset _ H0 H1) as [K0 K1].
    assert (Hle : Qle_bool gs (gs + 2 + inject_Z (int (rnd w (rnd_pos w) * 13)))
                  = true) by (apply Qle_bool_iff; lra).
    rewrite Hle. cbn [bind]. rewrite Hi. cbn [bind].
    split; [|simpl in *; repeat split; auto; lia].
    f_equal. f_equal. cbn [seq map]. rewrite Nat.add_0_r. f_equal.
    rewrite <- seq_shift, map_map. apply map_ext. intros k. simpl.
    rewrite Nat.add_succ_r. reflexivity.
Qed.

(** What [State.__init__] returns, mole by mole. *)
Lemma State_init_ok (gs ge : Q) (w : World)
        (Hle : gs <= ge) (Hr : rnd_in_range w) :
  exists s w1,
    State_init gs ge w = Ok (s, w1) /\
    received_quit s = false /\ game_over s = false /\
    score s = 0%Z /\ misses s = 0%Z /\
    now s = gs /\ game_start s = gs /\ game_end s = ge /\
    List.length (mole_states s) = 8%nat /\
    Forall (fun m => action m = LINGERING_BENEATH /\ start m = gs /\
                     gs + 2 <= end_ m /\ end_ m < gs + 15)
           (mole_states s) /\
    (forall k, (k < 8)%nat ->
       nth_error (mole_states s) k
       = Some (mkMoleState LINGERING_BENEATH gs
                 (gs + 2 + inject_Z (int (rnd w (rnd_pos w + k) * 13))))) /\
    rnd_pos w1 = (rnd_pos w + 8)%nat.
Proof.
  destruct (init_moles_ok gs 8 w Hr) as (w1 & Hi & _ & Hp & _).
  eexists _, w1. unfold State_init.
  apply Qle_bool_iff in Hle. rewrite Hle. cbn [negb]. rewrite Hi.
  cbn [bind]. rewrite length_map, length_seq. cbn [Nat.eqb negb].
  split; [reflexivity|]. cbn [received_quit game_over score misses now
                              game_start game_end mole_states].
  repeat (split; [reflexivity|]).
  split; [|split; [|exact Hp]].
  - apply Forall_forall. intros m Hm. apply in_map_iff in Hm.
    destruct Hm as (k & <- & _). cbn [action start end_].
    destruct (Hr (rnd_pos w + k)%nat) as [H0 H1].
    destruct (draw_offset _ H0 H1) as [K0 K1].
    repeat split; lra.
  - intros k Hk. rewrite nth_error_map.
    rewrite nth_error_nth' with (d := 0%nat) by (rewrite length_seq; exact Hk).
    rewrite seq_nth by exact Hk. reflexivity.
Qed.

(** C8 (as amended): for [game_start <= game_end] and draws of [[0, 1)]
    the constructor returns normally with both flags cleared, [score] and
    [misses] zero, [now] at [game_start], and exactly 8 moles, each
    [LINGERING_BENEATH] from [game_start] to
    [game_start + 2 + int(13 * r)] for that mole's own draw [r]: a whole
    number of seconds, 2 to 14, after [game_start], hence within
    [[game_start + 2, game_start + 15)]. *)
Theorem State_init_spec (gs ge : Q) (w : World)
        (Hle : gs <= ge) (Hr : rnd_in_range w) :
  exists s w1,
    State_init gs ge w = Ok (s, w1) /\
    received_quit s = false /\ game_over s = false /\
    score s = 0%Z /\ misses s = 0%Z /\
    now s = gs /\ game_start s = gs /\ game_end s = ge /\
    List.length (mole_states s) = 8%nat /\
    Forall (fun m => action m = LINGERING_BENEATH /\ start m = gs /\
                     gs + 2 <= end_ m /\ end_ m < gs + 15)
           (mole_states s) /\
    (forall k, (k < 8)%nat ->
       nth_error (mole_states s) k
       = Some (mkMoleState LINGERING_BENEATH gs
                 (gs + 2 + inject_Z (int (rnd w (rnd_pos w + k) * 13))))) /\
    Forall (fun m => exists n : Z, (0 <= n <= 12)%Z /\
                                   end_ m = gs + 2 + inject_Z n)
           (mole_states s) /\
    rnd w1 = rnd w /\ rnd_pos w1 = (rnd_pos w + 8)%nat.
Proof.
  destruct (State_init_ok gs ge w Hle Hr)
    as (s & w1 & H & A1 & A2 & A3 & A4 & A5 & A6 & A7 & Hlen & Hall & Hnth
        & Hp).
  exists s, w1. split; [exact H|].
  repeat (split; [assumption|]).
  split; [|split; [|exact Hp]].
  - apply Forall_forall. intros m Hm. apply In_nth_error in Hm.
    destruct Hm as (k & Hk).
    assert (Hk8 : (k < 8)%nat).
    { rewrite <- Hlen. apply nth_error_Some. congruence. }
    rewrite (Hnth k Hk8) in Hk. injection Hk as <-. cbn [end_].
    destruct (Hr (rnd_pos w + k)%nat) as [H0 H1].
    exists (int (rnd w (rnd_pos w + k) * 13)). split; [|reflexivity].
    split; [apply int_nonneg; lra|].
    assert (int (rnd w (rnd_pos w + k) * 13) < 13)%Z; [|lia].
    apply int_below; [lra|]. change (inject_Z 13) with 13. lra.
  - unfold State_init in H.
    destruct (negb (Qle_bool gs ge)); [discriminate|].
    destruct (init_moles_ok gs 8 w Hr) as (wa & Hi & Hrw & _).
    rewrite Hi in H. cbn [bind] in H.
    rewrite length_map, length_seq in H. cbn [Nat.eqb negb] in H.
    injection H as _ <-. exact Hrw.
Qed.

Lemma State_init_spec_witness :
  0 <= 120 /\ rnd_in_range (demo_world 0) /\
  exists w1,
    State_init 0 120 (demo_world 0)
    = Ok (mkState false 0 0 0 0 120
            (repeat (mkMoleState LINGERING_BENEATH 0 (0 + 2 + 6)) 8) false,
          w1).
Proof.
  assert (Hr : rnd_in_range (demo_world 0)).
  { intros n. simpl. split; [discriminate | reflexivity]. }
  split; [discriminate|]. split; [exact Hr|].
  destruct (State_init_spec 0 120 (demo_world 0)) as (s & w1 & H & _);
    [discriminate | exact Hr |].
  exists w1. rewrite H. f_equal. f_equal.
  vm_compute in H. injection H as Hs _. rewrite <- Hs. reflexivity.
Defined.

(** ** Ticks during the round *)

Lemma expire_spec (t : Q) (m : MoleState) (mi : Z) (w : World)
      (m1 : MoleState) (mi1 : Z) (w1 : World) :
  rnd_in_range w ->
  expire t m mi w = (m1, mi1, w1) ->
  advanced t m m1 /\
  mi1 = (mi + match action m with LOOKING_AROUND => 1 | _ => 0 end)%Z /\
  clock w1 = clock w /\ clock_pos w1 = clock_pos w /\ rnd w1 = rnd w /\
  played w1 = played w /\ (rnd_pos w <= rnd_pos w1)%nat.
Proof.
  intros Hr. unfold expire, advanced.
  destruct (action m); simpl; intros H; inversion H; subst; simpl;
    repeat split; auto; try lia;
    exists (rnd w (rnd_pos w)); destruct (Hr (rnd_pos w)); auto.
Qed.

(** The loop of a tick, mole by mole. *)
Lemma update_moles_spec (t : Q) (ms : list MoleState) :
  forall mi w ms1 mi1 w1,
    rnd_in_range w ->
    update_moles t ms mi w = (ms1, mi1, w1) ->
    Forall2 (fun m m1 => (t <= end_ m -> m1 = m) /\
                         (end_ m < t -> advanced t m m1)) ms ms1 /\
    mi1 = (mi + Z.of_nat (List.length (filter (missed t) ms)))%Z /\
    clock w1 = clock w /\ clock_pos w1 = clock_pos w /\ rnd w1 = rnd w /\
    played w1 = played w.
Proof.
  induction ms as [|m ms IH]; intros mi w ms1 mi1 w1 Hr; cbn [update_moles].
  - intros H; inversion H; subst. simpl. repeat split; auto. lia.
  - destruct (Qgt_bool t (end_ m)) eqn:Hexp.
    + destruct (expire t m mi w) as [[ma mia] wa] eqn:He.
      destruct (update_moles t ms mia wa) as [[r mib] wb] eqn:Hu.
      intros H; inversion H; subst.
      destruct (expire_spec _ _ _ _ _ _ _ Hr He)
        as (Ha & Hmi & C1 & C2 & C3 & C4 & _).
      assert (Hra : rnd_in_range wa) by (unfold rnd_in_range; rewrite C3; exact Hr).
      destruct (IH _ _ _ _ _ Hra Hu) as (F & Hmi2 & D1 & D2 & D3 & D4).
      apply Qgt_bool_true in Hexp.
      split; [constructor; [split; [intros; lra | auto] | exact F]|].
      split; [|repeat split; congruence].
      cbn [filter]. unfold missed at 1.
      assert (Hg : Qgt_bool t (end_ m) = true) by (apply Qgt_bool_true; exact Hexp).
      rewrite Hg. subst mi1 mia.
      destruct (action m); cbn [andb List.length]; lia.
    + destruct (update_moles t ms mi w) as [[r mib] wb] eqn:Hu.
      intros H; inversion H; subst.
      destruct (IH _ _ _ _ _ Hr Hu) as (F & Hmi2 & D).
      pose proof Hexp as Hle. apply Qgt_bool_false in Hle.
      split; [constructor; [split; [auto | intros; lra] | exact F]|].
      split; [|exact D].
      cbn [filter]. unfold missed at 1. rewrite Hexp. cbn [andb]. exact Hmi2.
Qed.

Lemma Forall2_nth_error_l {A B : Type} (R : A -> B -> Prop)
      (l : list A) (l' : list B) :
  Forall2 R l l' ->
  forall i a, nth_error l i = Some a ->
              exists b, nth_error l' i = Some b /\ R a b.
Proof.
  induction 1 as [|x y l l' Hxy _ IH]; intros [|i] a; simpl; try discriminate.
  - intros [= <-]. eauto.
  - apply IH.
Qed.

(** The draw each mole sent beneath receives: the generator is read once
    for each such mole, in the order of the list. *)
Lemma update_moles_draws (t : Q) (ms : list MoleState) :
  forall mi w ms1 mi1 w1,
    update_moles t ms mi w = (ms1, mi1, w1) ->
    rnd w1 = rnd w /\
    rnd_pos w1 = (rnd_pos w + List.length (filter (hides t) ms))%nat /\
    forall i m m1,
      nth_error ms i = Some m -> nth_error ms1 i = Some m1 ->
      hides t m = true ->
      end_ m1
      = t + 2
        + rnd w (rnd_pos w
                 + List.length (filter (hides t) (firstn i ms))) * 13.
Proof.
  induction ms as [|m0 ms IH]; intros mi w ms1 mi1 w1; cbn [update_moles].
  - intros [= <- <- <-]. cbn. split; [reflexivity|]. split; [lia|].
    intros [|i] m m1; discriminate.
  - destruct (if Qgt_bool t (end_ m0) then expire t m0 mi w else (m0, mi, w))
      as [[ma mia] wa] eqn:Hhead.
    destruct (update_moles t ms mia wa) as [[r mib] wb] eqn:Hu.
    intros [= <- <- <-].
    destruct (IH _ _ _ _ _ Hu) as (Hr & Hp & Hd).
    assert (Hwa : rnd wa = rnd w /\
                  rnd_pos wa
                  = (rnd_pos w + if hides t m0 then 1 else 0)%nat /\
                  (hides t m0 = true ->
                   end_ ma = t + 2 + rnd w (rnd_pos w) * 13)).
    { unfold hides. destruct (Qgt_bool t (end_ m0)); cbn [andb].
      - unfold expire in Hhead.
        destruct (action m0); cbn [random_random] in Hhead;
          injection Hhead as <- _ <-; cbn;
          (split; [reflexivity|]); (split; [lia|]);
          first [discriminate | reflexivity].
      - injection Hhead as <- _ <-.
        split; [reflexivity|]. split; [lia | discriminate]. }
    destruct Hwa as (Hra & Hpa & Hea).
    split; [congruence|]. split.
    + rewrite Hp, Hpa. cbn [filter]. destruct (hides t m0); cbn; lia.
    + intros [|i] m m1; cbn [nth_error firstn filter].
      * intros [= <-] [= <-] Hh. cbn. rewrite Nat.add_0_r. auto.
      * intros Hm Hm1 Hh. rewrite (Hd i m m1 Hm Hm1 Hh), Hra, Hpa.
        destruct (hides t m0); cbn [List.length];
          do 3 f_equal; lia.
Qed.

(** C2: a [Tick] handled during the round with a clock reading [t] not past
    [game_end] stores [t] in [state.now], appends nothing, and moves every
    mole with [t > end] exactly one step along the cycle with [start = t]
    (the step given by [advanced]: 0.25 s up, 3.5 s looking around, 0.25 s
    down, and 2 s plus 13 times a draw of [[0, 1)] beneath), whatever the
    delay; the draw of a mole sent beneath is the one the generator gives
    at its turn, the moles being served in the order of the list; a mole
    with [t <= end] is left as it is; [misses] grows by one for each mole
    that expired while [LOOKING_AROUND] and by nothing else; score, flags
    and round bounds stay. *)
Theorem tick_advances_expired_moles_one_step
        (paths : Paths) (w : World) (s : State) (q : list Event)
        (Hplay : game_over s = false)
        (Hin : next_now w <= game_end s)
        (Hr : rnd_in_range w) :
  exists w1 s1,
    handle paths w s (Tick :: q) = Ok (w1, s1, q) /\
    now s1 = next_now w /\
    List.length (mole_states s1) = List.length (mole_states s) /\
    (forall i m, nth_error (mole_states s) i = Some m ->
       exists m1, nth_error (mole_states s1) i = Some m1 /\
                  (next_now w <= end_ m -> m1 = m) /\
                  (end_ m < next_now w ->
                   advanced (next_now w) m m1 /\
                   (action m = GOING_DOWN \/ action m = DIZZYING_DOWN ->
                    end_ m1
                    = next_now w + 2
                      + rnd w (rnd_pos w
                               + List.length
                                   (filter (hides (next_now w))
                                           (firstn i (mole_states s))))
                        * 13))) /\
    misses s1
    = (misses s
       + Z.of_nat (List.length (filter (missed (next_now w)) (mole_states s))))%Z /\
    score s1 = score s /\ same_round s s1 /\ played w1 = played w /\
    rnd w1 = rnd w /\
    rnd_pos w1
    = (rnd_pos w
       + List.length (filter (hides (next_now w)) (mole_states s)))%nat.
Proof.
  unfold handle, handle_in_game. rewrite Hplay. simpl.
  fold (next_now w).
  pose proof Hin as Hb. apply Qgt_bool_false in Hb. rewrite Hb.
  destruct (update_moles _ _ _ _) as [[ms mi] w1] eqn:Hu.
  pose proof (update_moles_draws _ _ _ _ _ _ _ Hu) as (Hrw & Hpw & Hd).
  cbn [rnd rnd_pos] in Hrw, Hpw, Hd.
  apply update_moles_spec in Hu; [|exact Hr].
  destruct Hu as (F & Hmi & _ & _ & _ & Hp).
  exists w1. eexists. split; [reflexivity|]. simpl.
  split; [reflexivity|].
  split; [symmetry; eapply Forall2_length; exact F|].
  split.
  { intros i m Hm.
    destruct (Forall2_nth_error_l _ _ _ F i m Hm) as (m1 & Hm1 & Hk & Ha).
    exists m1. split; [exact Hm1|]. split; [exact Hk|].
    intros Hexp. split; [apply Ha, Hexp|]. intros Hact.
    apply (Hd i m m1 Hm Hm1). unfold hides.
    apply Qgt_bool_true in Hexp. rewrite Hexp.
    destruct Hact as [-> | ->]; reflexivity. }
  split; [exact Hmi|].
  split; [reflexivity|]. split; [repeat split|].
  split; [exact Hp|]. split; [exact Hrw | exact Hpw].
Qed.

Lemma demo_rnd_in_range (pos : nat) : rnd_in_range (demo_world pos).
Proof. intros n. simpl. split; [discriminate | reflexivity]. Qed.

(** A generator that gives 0, 1/4, 2/4, 3/4, 0, ... under a clock at 14. *)
Lemma demo_draws_in_range :
  rnd_in_range
    (mkWorld (fun n => inject_Z (Z.of_nat n)) 14
             (fun n => inject_Z (Z.of_nat (n mod 4)) / 4) 0 []).
Proof.
  intros n. cbn [rnd].
  pose proof (Nat.mod_upper_bound n 4 ltac:(lia)) as Hn.
  assert (H0 : 0 <= inject_Z (Z.of_nat (n mod 4)))
    by (apply inject_Z_nonneg; lia).
  assert (H4 : inject_Z (Z.of_nat (n mod 4)) < 4).
  { change 4 with (inject_Z 4). rewrite <- Zlt_Qlt. lia. }
  split.
  - apply Qle_shift_div_l; [reflexivity | lra].
  - apply Qlt_shift_div_r; [reflexivity | lra].
Qed.

Lemma tick_advances_expired_moles_one_step_witness :
  game_over demo_state = false /\
  rnd_in_range
    (mkWorld (fun n => inject_Z (Z.of_nat n)) 14
             (fun n => inject_Z (Z.of_nat (n mod 4)) / 4) 0 []) /\
  exists w1 s1 m3 m4,
    handle Paths_init
      (mkWorld (fun n => inject_Z (Z.of_nat n)) 14
               (fun n => inject_Z (Z.of_nat (n mod 4)) / 4) 0 [])
      demo_state [Tick] = Ok (w1, s1, []) /\
    nth_error (mole_states s1) 0
    = Some (mkMoleState GOING_DOWN 14 (14 + (1 # 4))) /\
    nth_error (mole_states s1) 1 = Some (mkMoleState LINGERING_BENEATH 0 16) /\
    nth_error (mole_states s1) 3 = Some m3 /\ end_ m3 == 14 + 2 + 0 * 13 /\
    nth_error (mole_states s1) 4 = Some m4 /\
    end_ m4 == 14 + 2 + (1 # 4) * 13 /\
    misses s1 = 2%Z /\ rnd_pos w1 = 2%nat.
Proof.
  split; [reflexivity|]. split; [exact demo_draws_in_range|].
  destruct (tick_advances_expired_moles_one_step Paths_init
              (mkWorld (fun n => inject_Z (Z.of_nat n)) 14
                       (fun n => inject_Z (Z.of_nat (n mod 4)) / 4) 0 [])
              demo_state [] eq_refl)
    as (w1 & s1 & H & _ & _ & Hm & _ & _ & _ & _ & _ & Hp);
    [discriminate | exact demo_draws_in_range |].
  destruct (Hm 3%nat _ eq_refl) as (m3 & H3 & _ & E3).
  destruct (Hm 4%nat _ eq_refl) as (m4 & H4 & _ & E4).
  exists w1, s1, m3, m4. split; [exact H|].
  assert (Hs : nth_error (mole_states s1) 0
               = Some (mkMoleState GOING_DOWN 14 (14 + (1 # 4))) /\
               nth_error (mole_states s1) 1
               = Some (mkMoleState LINGERING_BENEATH 0 16) /\
               misses s1 = 2%Z).
  { vm_compute in H. injection H as _ Hs. rewrite <- Hs.
    repeat split; reflexivity. }
  destruct Hs as (A & B & C).
  split; [exact A|]. split; [exact B|]. split; [exact H3|].
  split; [rewrite (proj2 (E3 eq_refl) (or_introl eq_refl)); reflexivity|].
  split; [exact H4|].
  split; [rewrite (proj2 (E4 eq_refl) (or_intror eq_refl)); reflexivity|].
  split; [exact C | exact Hp].
Defined.

(** ** What a handled event does to the world *)

Lemma handle_world (paths : Paths) (w : World) (s : State) (q : list Event)
      (w1 : World) (s1 : State) (q1 : list Event) :
  rnd_in_range w ->
  handle paths w s q = Ok (w1, s1, q1) ->
  clock w1 = clock w /\ rnd w1 = rnd w /\
  ((clock_pos w1 = clock_pos w /\ now s1 = now s) \/
   (clock_pos w1 = S (clock_pos w) /\
    (now s1 = now s \/ now s1 = next_now w))).
Proof.
  intros Hr. destruct q as [|e q].
  - destruct (handle_empty_queue_free paths w s) as [-> _].
    intros H; inversion H; subst. auto 10.
  - destruct (game_over s) eqn:Hover.
    + rewrite handle_game_over_mode by assumption.
      destruct e; intros H; inversion H; subst; auto 10.
    + destruct e.
      * unfold handle, handle_in_game. rewrite Hover. simpl.
        fold (next_now w).
        destruct (Qgt_bool (next_now w) (game_end s)) eqn:Hlate.
        -- intros H; inversion H; subst. simpl. auto 10.
        -- destruct (update_moles _ _ _ _) as [[ms mi] wa] eqn:Hu.
           intros H; inversion H; subst.
           apply update_moles_spec in Hu; [|exact Hr].
           destruct Hu as (_ & _ & A & B & C & _). simpl in *. auto 10.
      * unfold handle. rewrite Hover. simpl.
        intros H; inversion H; subst; simpl; auto 10.
      * destruct (nth_error (mole_states s) (mole_of button)) as [m|] eqn:Hm.
        -- rewrite (handle_ButtonDown_in_game paths w s button q m Hover Hm).
           destruct (action m) eqn:Ha; intros H; inversion H; subst;
             simpl; auto 10.
        -- unfold handle, handle_in_game. rewrite Hover. simpl.
           rewrite dict_get_BUTTON_TO_MOLE. fold (mole_of button).
           rewrite Hm. discriminate.
      * unfold handle. rewrite Hover. simpl.
        intros H; inversion H; subst; simpl; auto 10.
Qed.

(** A property of world and state kept by every handled event is kept by a
    whole drain. *)
Lemma drain_invariant (paths : Paths) (P : World -> State -> Prop) :
  (forall w s q w1 s1 q1,
      P w s -> handle paths w s q = Ok (w1, s1, q1) -> P w1 s1) ->
  forall fuel w s q w1 s1,
    P w s -> drain paths fuel w s q = Some (Ok (w1, s1)) -> P w1 s1.
Proof.
  intros Hstep. induction fuel as [|fuel IH]; intros w s q w1 s1 HP.
  - destruct q; simpl; [intros [= <- <-]; exact HP | discriminate].
  - destruct q as [|e q]; cbn [drain]; [intros [= <- <-]; exact HP|].
    destruct (handle paths w s (e :: q)) as [[[wa sa] qa]|ex] eqn:Hh;
      [|discriminate].
    intros Hd. eapply IH; [|exact Hd]. eapply Hstep; eauto.
Qed.

(** ** The interval of a mole *)

Lemma running_unexpired (m : MoleState) : running m -> unexpired m.
Proof. unfold running, unexpired. apply Qlt_le_weak. Qed.

Lemma advanced_running (t : Q) (m m1 : MoleState) :
  advanced t m m1 -> running m1.
Proof.
  unfold advanced, running. intros [Hs H]. rewrite Hs.
  destruct (action m).
  1-3: destruct H as [_ ->]; lra.
  1-2: destruct H as (_ & r & H0 & H1 & ->); lra.
Qed.

Lemma Forall_list_set {A : Type} (P : A -> Prop) (l : list A) (i : nat)
      (a : A) :
  Forall P l -> P a -> Forall P (list_set l i a).
Proof.
  intros Hl Ha. revert i. induction Hl as [|x l Hx Hl IH]; intros [|i];
    simpl; constructor; auto.
Qed.

Lemma Forall2_keep_or_replace {A : Type} (P Q R : A -> Prop)
      (S : A -> A -> Prop) (l l' : list A) :
  (forall a, P a \/ Q a) ->
  (forall a b, S a b -> R b) ->
  Forall2 (fun a b => (P a -> b = a) /\ (Q a -> S a b)) l l' ->
  Forall R l -> Forall R l'.
Proof.
  intros Hdec HS. induction 1 as [|a b l l' [Hk Hr] _ IH]; intros Hl.
  - constructor.
  - inversion Hl; subst. constructor; [|auto].
    destruct (Hdec a) as [Hp|Hq]; [rewrite (Hk Hp); assumption|].
    eapply HS; eauto.
Qed.

Lemma effect_keeps_intervals (R : MoleState -> Prop) (w : World)
      (s s1 : State) :
  (forall m, running m -> R m) ->
  rnd_in_range w ->
  effect w s s1 ->
  Forall R (mole_states s) -> Forall R (mole_states s1).
Proof.
  intros HR Hr He Hall. destruct He; simpl; auto.
  - apply Forall_list_set; [exact Hall|].
    apply HR. unfold running. simpl. lra.
  - apply update_moles_spec in H1; [|exact Hr].
    destruct H1 as (F & _).
    eapply Forall2_keep_or_replace; [| |exact F|exact Hall].
    + intros a. destruct (Qlt_le_dec (end_ a) (next_now w)); auto.
    + intros a b Hab. apply HR. eapply advanced_running; eauto.
Qed.

(** C5: with draws of [[0, 1)], every mole of a constructed state has
    [start < end]; and handling any event keeps [start <= end] on all
    moles, and keeps [start < end] on all moles, also over a whole drain. *)
Theorem mole_interval_invariant (paths : Paths) (w : World)
        (Hr : rnd_in_range w) :
  (forall gs ge s w1,
      State_init gs ge w = Ok (s, w1) ->
      Forall running (mole_states s) /\ Forall unexpired (mole_states s)) /\
  (forall s q w1 s1 q1,
      handle paths w s q = Ok (w1, s1, q1) ->
      (Forall unexpired (mole_states s) -> Forall unexpired (mole_states s1)) /\
      (Forall running (mole_states s) -> Forall running (mole_states s1))) /\
  (forall fuel s q w1 s1,
      drain paths fuel w s q = Some (Ok (w1, s1)) ->
      (Forall unexpired (mole_states s) -> Forall unexpired (mole_states s1)) /\
      (Forall running (mole_states s) -> Forall running (mole_states s1))).
Proof.
  split; [|split].
  - intros gs ge s w1 H. unfold State_init in H.
    destruct (negb (Qle_bool gs ge)); [discriminate|].
    destruct (init_moles_ok gs 8 w Hr) as (wa & Hi & _).
    rewrite Hi in H. cbn [bind] in H.
    rewrite length_map, length_seq in H. cbn [Nat.eqb negb] in H.
    injection H as <- _. cbn [mole_states].
    assert (Hrun : Forall running
                     (map (fun k => mkMoleState LINGERING_BENEATH gs
                        (gs + 2 + inject_Z (int (rnd w (rnd_pos w + k) * 13))))
                        (seq 0 8))).
    { apply Forall_forall. intros m Hm. apply in_map_iff in Hm.
      destruct Hm as (k & <- & _). unfold running. cbn [start end_].
      destruct (Hr (rnd_pos w + k)%nat) as [H0 H1].
      destruct (draw_offset _ H0 H1). lra. }
    split; [exact Hrun|].
    eapply Forall_impl; [apply running_unexpired | exact Hrun].
  - intros s q w1 s1 q1 H. apply handle_effect in H. split; intros Hall.
    + eapply effect_keeps_intervals; eauto using running_unexpired.
    + eapply effect_keeps_intervals; eauto.
  - intros fuel s q w1 s1 H. split; intros Hall.
    + apply (drain_invariant paths
               (fun w' s' => rnd_in_range w' /\ Forall unexpired (mole_states s')))
        with (w1 := w1) (s1 := s1) in H; [tauto| |tauto].
      intros wa sa qa wb sb qb [Hra Ha] Hh. split.
      * destruct (handle_world _ _ _ _ _ _ _ Hra Hh) as (_ & E & _).
        unfold rnd_in_range. rewrite E. exact Hra.
      * apply handle_effect in Hh.
        eapply effect_keeps_intervals; eauto using running_unexpired.
    + apply (drain_invariant paths
               (fun w' s' => rnd_in_range w' /\ Forall running (mole_states s')))
        with (w1 := w1) (s1 := s1) in H; [tauto| |tauto].
      intros wa sa qa wb sb qb [Hra Ha] Hh. split.
      * destruct (handle_world _ _ _ _ _ _ _ Hra Hh) as (_ & E & _).
        unfold rnd_in_range. rewrite E. exact Hra.
      * apply handle_effect in Hh.
        eapply effect_keeps_intervals; eauto.
Qed.

Lemma mole_interval_invariant_witness :
  rnd_in_range (demo_world 14) /\
  Forall running (mole_states demo_state) /\
  exists w1 s1,
    handle Paths_init (demo_world 14) demo_state [Tick] = Ok (w1, s1, []) /\
    Forall running (mole_states s1).
Proof.
  split; [apply demo_rnd_in_range|].
  assert (Hd : Forall running (mole_states demo_state)).
  { repeat constructor. }
  split; [exact Hd|].
  eexists _, _. split; [vm_compute; reflexivity|].
  refine (proj2 (proj1 (proj2 (mole_interval_invariant Paths_init
                 (demo_world 14) (demo_rnd_in_range 14)))
                 demo_state [Tick] _ _ [] _) Hd).
  vm_compute. reflexivity.
Defined.

(** ** The eight moles and their buttons *)

Lemma effect_length (w : World) (s s1 : State) :
  effect w s s1 ->
  List.length (mole_states s1) = List.length (mole_states s).
Proof.
  intros He. destruct He; simpl; auto.
  - apply list_set_length.
  - eapply update_moles_length; eauto.
Qed.

(** On a state with its eight moles no handler raises. *)
Lemma handle_total (paths : Paths) (w : World) (s : State) (q : list Event) :
  List.length (mole_states s) = 8%nat ->
  exists w1 s1 q1, handle paths w s q = Ok (w1, s1, q1).
Proof.
  intros Hlen. destruct q as [|e q].
  - destruct (handle_empty_queue_free paths w s) as [-> _]. eauto.
  - destruct (game_over s) eqn:Hover.
    + rewrite handle_game_over_mode by assumption. eauto.
    + destruct e.
      * unfold handle, handle_in_game. rewrite Hover. simpl.
        destruct (Qgt_bool _ _); [eauto|].
        destruct (update_moles _ _ _ _) as [[ms mi] wa]. eauto.
      * unfold handle. rewrite Hover. simpl. eauto.
      * destruct (nth_error (mole_states s) (mole_of button)) as [m|] eqn:Hm.
        -- rewrite (handle_ButtonDown_in_game paths w s button q m Hover Hm).
           destruct (action m); eauto.
        -- apply nth_error_None in Hm. pose proof (mole_of_lt8 button). lia.
      * unfold handle. rewrite Hover. simpl. eauto.
Qed.

(** C7: [BUTTON_TO_MOLE] has 8 entries with distinct keys, maps every
    button to a slot below 8, maps no two buttons to one slot and reaches
    every slot below 8; a constructed state has 8 moles, a handled event
    keeps the number of moles, and on 8 moles every event is handled
    without an exception. *)
Theorem button_mole_bijection_and_eight_moles (paths : Paths) :
  (List.length BUTTON_TO_MOLE = 8%nat /\ NoDup (map fst BUTTON_TO_MOLE) /\
   map snd BUTTON_TO_MOLE = seq 0 8) /\
  (forall b, exists i, dict_get BUTTON_TO_MOLE b = Some i /\ (i < 8)%nat) /\
  (forall b1 b2 i, dict_get BUTTON_TO_MOLE b1 = Some i ->
                   dict_get BUTTON_TO_MOLE b2 = Some i -> b1 = b2) /\
  (forall i, (i < 8)%nat -> exists b, dict_get BUTTON_TO_MOLE b = Some i) /\
  (forall gs ge w s w1, State_init gs ge w = Ok (s, w1) ->
                        List.length (mole_states s) = 8%nat) /\
  (forall w s q w1 s1 q1,
      handle paths w s q = Ok (w1, s1, q1) ->
      List.length (mole_states s1) = List.length (mole_states s)) /\
  (forall w s q, List.length (mole_states s) = 8%nat ->
      exists w1 s1 q1, handle paths w s q = Ok (w1, s1, q1) /\
                       List.length (mole_states s1) = 8%nat) /\
  (forall fuel w s q w1 s1,
      drain paths fuel w s q = Some (Ok (w1, s1)) ->
      List.length (mole_states s) = 8%nat ->
      List.length (mole_states s1) = 8%nat).
Proof.
  split; [|split; [|split; [|split; [|split; [|split; [|split]]]]]].
  - split; [reflexivity|]. split; [|reflexivity].
    simpl. repeat constructor; simpl; intuition discriminate.
  - intros b. exists (mole_of b). split;
      [apply dict_get_BUTTON_TO_MOLE | apply mole_of_lt8].
  - intros b1 b2 i. rewrite !dict_get_BUTTON_TO_MOLE.
    destruct b1, b2; intros H1 H2; try reflexivity;
      rewrite <- H2 in H1; vm_compute in H1; discriminate.
  - intros i Hi.
    do 8 (destruct i as [|i];
          [first [ exists CROSS; reflexivity | exists UP; reflexivity
                 | exists CIRCLE; reflexivity | exists RIGHT; reflexivity
                 | exists SQUARE; reflexivity | exists DOWN; reflexivity
                 | exists TRIANGLE; reflexivity | exists LEFT; reflexivity ]|]).
    lia.
  - intros gs ge w s w1 H. unfold State_init in H.
    destruct (negb (Qle_bool gs ge)); [discriminate|].
    destruct (init_moles 8 gs w) as [[ms wa]|]; [|discriminate].
    cbn [bind] in H.
    destruct (List.length ms =? 8)%nat eqn:E; [|discriminate].
    cbn [negb] in H. injection H as <- _. cbn [mole_states].
    apply Nat.eqb_eq. exact E.
  - intros w s q w1 s1 q1 H. eapply effect_length, handle_effect, H.
  - intros w s q Hlen.
    destruct (handle_total paths w s q Hlen) as (w1 & s1 & q1 & H).
    exists w1, s1, q1. split; [exact H|].
    rewrite (effect_length _ _ _ (handle_effect _ _ _ _ _ _ _ H)). exact Hlen.
  - intros fuel w s q w1 s1 H Hlen.
    apply (drain_invariant paths
             (fun _ s' => List.length (mole_states s') = 8%nat))
      with (w1 := w1) (s1 := s1) in H; auto.
    intros wa sa qa wb sb qb Ha Hh.
    rewrite (effect_length _ _ _ (handle_effect _ _ _ _ _ _ _ Hh)). exact Ha.
Qed.

Lemma button_mole_bijection_and_eight_moles_witness :
  List.length (mole_states demo_state) = 8%nat /\
  exists w1 s1 q1,
    handle Paths_init (demo_world 14) demo_state [ButtonDown LEFT; Tick]
    = Ok (w1, s1, q1) /\
    List.length (mole_states s1) = 8%nat.
Proof.
  split; [reflexivity|].
  apply (proj1 (proj2 (proj2 (proj2 (proj2 (proj2 (proj2
           (button_mole_bijection_and_eight_moles Paths_init)))))))).
  reflexivity.
Defined.

(** ** Termination of the drain *)

Lemma handle_queue (paths : Paths) (w : World) (s : State) (e : Event)
      (q : list Event) (w1 : World) (s1 : State) (q1 : list Event) :
  handle paths w s (e :: q) = Ok (w1, s1, q1) ->
  q1 = q \/
  (q1 = q ++ [GameOver] /\ e = Tick /\ game_over s = false /\
   game_end s < next_now w).
Proof.
  destruct (game_over s) eqn:Hover.
  - rewrite handle_game_over_mode by assumption.
    intros H; inversion H; auto.
  - destruct e.
    + unfold handle, handle_in_game. rewrite Hover. simpl.
      fold (next_now w).
      destruct (Qgt_bool (next_now w) (game_end s)) eqn:Hlate.
      * intros H; inversion H; subst. right.
        apply Qgt_bool_true in Hlate. auto.
      * destruct (update_moles _ _ _ _) as [[ms mi] wa].
        intros H; inversion H; auto.
    + unfold handle. rewrite Hover. simpl. intros H; inversion H; auto.
    + destruct (nth_error (mole_states s) (mole_of button)) as [m|] eqn:Hm.
      * rewrite (handle_ButtonDown_in_game paths w s button q m Hover Hm).
        destruct (action m); intros H; inversion H; auto.
      * unfold handle, handle_in_game. rewrite Hover. simpl.
        rewrite dict_get_BUTTON_TO_MOLE. fold (mole_of button).
        rewrite Hm. discriminate.
    + unfold handle. rewrite Hover. simpl. intros H; inversion H; auto.
Qed.

Lemma queue_weight_app_GameOver (q : list Event) :
  queue_weight (q ++ [GameOver]) = S (queue_weight q).
Proof.
  unfold queue_weight. rewrite filter_app, !length_app. simpl. lia.
Qed.

Lemma handle_weight (paths : Paths) (w : World) (s : State) (e : Event)
      (q : list Event) (w1 : World) (s1 : State) (q1 : list Event) :
  handle paths w s (e :: q) = Ok (w1, s1, q1) ->
  (queue_weight q1 < queue_weight (e :: q))%nat.
Proof.
  intros H. apply handle_queue in H. destruct H as [->|(-> & -> & _)].
  - unfold queue_weight. simpl. destruct (is_Tick e); simpl; lia.
  - rewrite queue_weight_app_GameOver. unfold queue_weight. simpl. lia.
Qed.

Lemma drain_enough_fuel (paths : Paths) :
  forall fuel w s q,
    (queue_weight q <= fuel)%nat ->
    exists r, drain paths fuel w s q = Some r.
Proof.
  induction fuel as [|fuel IH]; intros w s q Hq.
  - destruct q; [simpl; eauto|]. unfold queue_weight in Hq. simpl in Hq. lia.
  - destruct q as [|e q]; [simpl; eauto|]. cbn [drain].
    destruct (handle paths w s (e :: q)) as [[[wa sa] qa]|ex] eqn:Hh; [|eauto].
    apply IH. apply handle_weight in Hh. lia.
Qed.

Lemma drain_more_fuel (paths : Paths) :
  forall fuel fuel' w s q r,
    drain paths fuel w s q = Some r -> (fuel <= fuel')%nat ->
    drain paths fuel' w s q = Some r.
Proof.
  induction fuel as [|fuel IH]; intros fuel' w s q r.
  - destruct q; simpl; [|discriminate]. intros H _. destruct fuel'; exact H.
  - destruct q as [|e q]; cbn [drain].
    + intros H _. destruct fuel'; exact H.
    + intros H Hle. destruct fuel' as [|fuel']; [lia|]. cbn [drain].
      destruct (handle paths w s (e :: q)) as [[[wa sa] qa]|ex]; [|exact H].
      apply IH with (fuel' := fuel') in H; [exact H | lia].
Qed.

Lemma drain_ok_on_eight (paths : Paths) :
  forall fuel w s q,
    (queue_weight q <= fuel)%nat ->
    List.length (mole_states s) = 8%nat ->
    exists w1 s1, drain paths fuel w s q = Some (Ok (w1, s1)).
Proof.
  induction fuel as [|fuel IH]; intros w s q Hq Hlen.
  - destruct q; [simpl; eauto|]. unfold queue_weight in Hq. simpl in Hq. lia.
  - destruct q as [|e q]; [simpl; eauto|]. cbn [drain].
    destruct (handle_total paths w s (e :: q) Hlen) as (wa & sa & qa & Hh).
    rewrite Hh. apply IH.
    + apply handle_weight in Hh. lia.
    + rewrite (effect_length _ _ _ (handle_effect _ _ _ _ _ _ _ Hh)).
      exact Hlen.
Qed.

(** C9: the drain of any queue from any state ends within
    [queue_weight q] calls of [handle] (with a result, which more fuel
    does not change, and normally when the state has its 8 moles); a call
    on a non-empty queue that returns has removed the front event and
    appended either nothing or one [GameOver], the latter only for a
    [Tick] handled during the round with the clock past [game_end]. *)
Theorem drain_terminates (paths : Paths) (w : World) (s : State)
        (q : list Event) :
  (exists r, drain paths (queue_weight q) w s q = Some r /\
             forall fuel, (queue_weight q <= fuel)%nat ->
                          drain paths fuel w s q = Some r) /\
  (List.length (mole_states s) = 8%nat ->
   exists w1 s1, drain paths (queue_weight q) w s q = Some (Ok (w1, s1))) /\
  (forall e w1 s1 q1,
      handle paths w s (e :: q) = Ok (w1, s1, q1) ->
      (q1 = q \/
       (q1 = q ++ [GameOver] /\ e = Tick /\ game_over s = false /\
        game_end s < next_now w)) /\
      (e <> Tick -> q1 = q) /\
      (queue_weight q1 < queue_weight (e :: q))%nat).
Proof.
  split; [|split].
  - destruct (drain_enough_fuel paths (queue_weight q) w s q (le_n _))
      as [r Hr].
    exists r. split; [exact Hr|]. intros fuel Hf.
    eapply drain_more_fuel; eauto.
  - intros Hlen. apply drain_ok_on_eight; auto.
  - intros e w1 s1 q1 H. split; [eapply handle_queue; eauto|].
    split; [|eapply handle_weight; eauto].
    intros He. apply handle_queue in H. destruct H as [->|(_ & -> & _)];
      [reflexivity | contradiction].
Qed.

Lemma drain_terminates_witness :
  List.length (mole_states demo_state) = 8%nat /\
  exists w1 s1,
    drain Paths_init 4 (demo_world 121) demo_state
          [ButtonDown CROSS; Tick; ReceivedQuit]
    = Some (Ok (w1, s1)) /\ game_over s1 = true /\ received_quit s1 = true.
Proof.
  split; [reflexivity|].
  destruct (proj1 (proj2 (drain_terminates Paths_init (demo_world 121)
              demo_state [ButtonDown CROSS; Tick; ReceivedQuit])) eq_refl)
    as (w1 & s1 & H).
  exists w1, s1. split; [exact H|].
  vm_compute in H. injection H as _ Hs. rewrite <- Hs. split; reflexivity.
Defined.

(** ** The sprite selection *)

Lemma py_getitem_nth {A : Type} (l : list A) (i : nat) (a : A) :
  nth_error l i = Some a -> py_getitem l (Z.of_nat i) = Ok a.
Proof.
  intros H. unfold py_getitem.
  assert (Hi : (i < List.length l)%nat)
    by (apply nth_error_Some; congruence).
  destruct (Z.ltb_spec (Z.of_nat i) 0); [lia|].
  destruct (Z.ltb_spec (Z.of_nat i) 0); [lia|].
  destruct (Z.leb_spec (Z.of_nat (List.length l)) (Z.of_nat i)); [lia|].
  cbn [orb]. rewrite Nat2Z.id, H. reflexivity.
Qed.

Lemma py_getitem_in_range {A : Type} (l : list A) (z : Z) :
  (0 <= z <= len l - 1)%Z ->
  exists a, py_getitem l z = Ok a /\ nth_error l (Z.to_nat z) = Some a.
Proof.
  unfold len. intros Hz.
  destruct (nth_error l (Z.to_nat z)) as [a|] eqn:Hn.
  - exists a. split; [|reflexivity].
    rewrite <- (Z2Nat.id z) by lia. apply py_getitem_nth. exact Hn.
  - apply nth_error_None in Hn. lia.
Qed.

Lemma py_div_pos (a b : Q) :
  0 <= a -> 0 < b ->
  py_div a b = Ok (a / b) /\ 0 <= a / b /\ (b <= a -> 1 <= a / b).
Proof.
  intros Ha Hb. unfold py_div.
  destruct (Qeq_bool b 0) eqn:E.
  - apply Qeq_bool_iff in E. lra.
  - split; [reflexivity|]. split.
    + apply Qle_shift_div_l; [exact Hb | lra].
    + intros Hba. apply Qle_shift_div_l; [exact Hb | lra].
Qed.

Lemma step_in_range (f : Q) (n : Z) :
  0 <= f -> (1 <= n)%Z ->
  (0 <= Z.min (int (f * inject_Z n)) (n - 1) <= n - 1)%Z /\
  (1 <= f -> Z.min (int (f * inject_Z n)) (n - 1) = (n - 1)%Z).
Proof.
  intros Hf Hn.
  assert (Hn0 : 0 <= inject_Z n) by (apply inject_Z_nonneg; lia).
  assert (Hx : 0 <= f * inject_Z n) by (apply Qmult_le_0_compat; assumption).
  pose proof (int_nonneg _ Hx) as Hi.
  split; [lia|]. intros H1.
  assert (Hge : inject_Z n <= f * inject_Z n).
  { setoid_replace (inject_Z n) with (1 * inject_Z n) at 1 by ring.
    apply Qmult_le_compat_r; assumption. }
  apply Qfloor_resp_le in Hge. rewrite Qfloor_Z in Hge.
  rewrite <- int_is_floor in Hge by assumption. lia.
Qed.

Lemma render_mole_ok (paths : Paths) (s : State) (i : nat) (xy : Z * Z)
      (m : MoleState) :
  nth_error (mole_states s) i = Some m ->
  start m < end_ m -> start m <= now s ->
  images_for paths (action m) <> [] ->
  exists sp, render_mole paths s i xy = Ok sp /\
             sprite_in_range paths (now s) m sp /\ sprite_xy sp = xy.
Proof.
  intros Hm Hrun Hnow Himg. unfold render_mole.
  rewrite (py_getitem_nth _ _ _ Hm). cbn [bind].
  destruct (py_div_pos (now s - start m) (end_ m - start m))
    as (Hd & Hf0 & Hf1); [lra | lra |].
  rewrite Hd. cbn [bind].
  set (images := images_for paths (action m)) in *.
  assert (Hn : (1 <= len images)%Z).
  { unfold len. destruct images; [congruence | simpl; lia]. }
  destruct (step_in_range _ _ Hf0 Hn) as [Hrange Hlast].
  destruct (py_getitem_in_range images _ Hrange) as (img & Hg & Hnth).
  rewrite Hg. cbn [bind]. eexists. split; [reflexivity|].
  split; [|reflexivity]. split; [split; [exact Hrange | exact Hnth]|].
  cbn [sprite_step]. intros Hend. fold images. apply Hlast. apply Hf1. lra.
Qed.

Lemma skipn_cons_inv {A : Type} (l : list A) :
  forall i a rest, skipn i l = a :: rest ->
                   nth_error l i = Some a /\ skipn (S i) l = rest.
Proof.
  induction l as [|x l IH]; intros [|i] a rest; simpl; try discriminate.
  - intros [= <- <-]. auto.
  - intros H. apply IH in H. exact H.
Qed.

Lemma render_moles_ok (paths : Paths) (s : State) :
  (forall a, images_for paths a <> []) ->
  forall xys i ms,
    skipn i (mole_states s) = ms ->
    List.length ms = List.length xys ->
    Forall (fun m => start m < end_ m /\ start m <= now s) ms ->
    exists sprites,
      render_moles paths s i xys = Ok sprites /\
      Forall2 (sprite_in_range paths (now s)) ms sprites.
Proof.
  intros Himg. induction xys as [|xy xys IH]; intros i ms Hskip Hlen Hall.
  - destruct ms; [|discriminate]. exists []. split; [reflexivity|constructor].
  - destruct ms as [|m ms]; [discriminate|].
    apply skipn_cons_inv in Hskip. destruct Hskip as [Hm Hrest].
    inversion Hall as [|? ? [Hrun Hnow] Hall']; subst.
    destruct (render_mole_ok paths s i xy m Hm Hrun Hnow (Himg _))
      as (sp & Hsp & Hok & _).
    destruct (IH (S i) _ eq_refl) as (sprites & Hs & F);
      [cbn [List.length] in Hlen; lia | exact Hall' |].
    exists (sp :: sprites). cbn [render_moles]. rewrite Hsp. cbn [bind].
    rewrite Hs. cbn [bind]. split; [reflexivity|]. constructor; assumption.
Qed.

Lemma render_game_ok (paths : Paths) (w : World) (s : State) :
  (forall a, images_for paths a <> []) ->
  hourglass_images paths <> [] ->
  round_inv w s ->
  exists scene,
    render_game paths s = Ok scene /\
    Forall2 (sprite_in_range paths (now s)) (mole_states s)
            (scene_moles scene) /\
    frame_in_range (hourglass_images paths) (hourglass_step scene)
                   (hourglass_image scene) /\
    (game_end s <= now s ->
     hourglass_step scene = (len (hourglass_images paths) - 1)%Z).
Proof.
  intros Himg Hhour (Hlen & Hall & Hgs & Hround & _).
  destruct (render_moles_ok paths s Himg MOLES_XY_ON_SCENE 0 (mole_states s))
    as (sprites & Hs & F); [reflexivity | rewrite Hlen; reflexivity | exact Hall |].
  unfold render_game. rewrite Hs. cbn [bind].
  destruct (py_div_pos (now s - game_start s) (game_end s - game_start s))
    as (Hd & Hf0 & Hf1); [lra | lra |].
  rewrite Hd. cbn [bind].
  assert (Hn : (1 <= len (hourglass_images paths))%Z).
  { unfold len. destruct (hourglass_images paths); [congruence | simpl; lia]. }
  destruct (step_in_range _ _ Hf0 Hn) as [Hrange Hlast].
  destruct (py_getitem_in_range _ _ Hrange) as (img & Hg & Hnth).
  rewrite Hg. cbn [bind]. eexists. split; [reflexivity|].
  cbn [scene_moles hourglass_step hourglass_image].
  split; [exact F|]. split; [split; assumption|].
  intros Hend. apply Hlast, Hf1. lra.
Qed.

(** ** The invariant of the round *)

Lemma clock_monotone_le (w : World) :
  clock_monotone w -> forall i j, (i <= j)%nat -> clock w i <= clock w j.
Proof.
  intros Hc i j Hij. induction Hij as [|j _ IH].
  - apply Qle_refl.
  - eapply Qle_trans; [exact IH | apply Hc].
Qed.

Lemma handle_round_inv (paths : Paths) (w : World) (s : State)
      (q : list Event) (w1 : World) (s1 : State) (q1 : list Event) :
  round_inv w s -> handle paths w s q = Ok (w1, s1, q1) -> round_inv w1 s1.
Proof.
  intros (Hlen & Hall & Hgs & Hround & Hclk & Hr & Hc) Hh.
  pose proof (handle_effect _ _ _ _ _ _ _ Hh) as He.
  destruct (handle_world _ _ _ _ _ _ _ Hr Hh) as (Ec & Er & Hpos).
  assert (Hp : (clock_pos w <= clock_pos w1)%nat) by (destruct Hpos; lia).
  assert (Hnext : now s <= next_now w) by (apply Hclk; lia).
  assert (Hfut : forall n, (clock_pos w1 <= n)%nat -> next_now w <= clock w n).
  { intros n Hn. apply clock_monotone_le; [exact Hc | lia]. }
  unfold round_inv.
  split; [rewrite (effect_length _ _ _ He); exact Hlen|].
  assert (Hr1 : rnd_in_range w1) by (unfold rnd_in_range; rewrite Er; exact Hr).
  assert (Hc1 : clock_monotone w1)
    by (unfold clock_monotone; rewrite Ec; exact Hc).
  rewrite Ec.
  assert (Hkeep : forall n, (clock_pos w1 <= n)%nat -> now s <= clock w n)
    by (intros n Hn; apply Hclk; lia).
  assert (Hlater : Forall (fun m => start m < end_ m /\ start m <= next_now w)
                          (mole_states s)).
  { eapply Forall_impl; [|exact Hall]. simpl. intros m [A B]. split; lra. }
  assert (Hnow : now s1 = now s \/ now s1 = next_now w)
    by (destruct He; simpl; auto).
  assert (Hb : game_start s1 = game_start s /\ game_end s1 = game_end s)
    by (destruct He; simpl; auto).
  destruct Hb as [-> ->].
  split; [|split; [|split; [|split; [|split; [exact Hr1 | exact Hc1]]]]].
  - destruct He; simpl; auto.
    + apply Forall_list_set; [exact Hall|]. simpl. split; lra.
    + apply update_moles_spec in H1; [|exact Hr]. destruct H1 as (F & _).
      eapply Forall2_keep_or_replace with
        (R := fun m => start m < end_ m /\ start m <= next_now w);
        [| |exact F|exact Hlater].
      * intros a. destruct (Qlt_le_dec (end_ a) (next_now w)); auto.
      * intros a b Hab. split; [eapply advanced_running; eauto|].
        destruct Hab as [-> _]. apply Qle_refl.
  - destruct Hnow as [-> | ->]; lra.
  - exact Hround.
  - intros n Hn. destruct Hnow as [-> | ->]; auto.
Qed.

Lemma State_init_world (gs ge : Q) (w : World) (s : State) (w1 : World) :
  rnd_in_range w ->
  State_init gs ge w = Ok (s, w1) ->
  clock w1 = clock w /\ clock_pos w1 = clock_pos w /\ rnd w1 = rnd w.
Proof.
  intros Hr H. unfold State_init in H.
  destruct (negb (Qle_bool gs ge)); [discriminate|].
  destruct (init_moles_ok gs 8 w Hr) as (wa & Hi & A & _ & B & C & _).
  rewrite Hi in H. cbn [bind] in H.
  rewrite length_map, length_seq in H. cbn [Nat.eqb negb] in H.
  injection H as _ <-. auto.
Qed.

Lemma main_start_round_inv (w0 : World) (s : State) (w : World) :
  rnd_in_range w0 -> clock_monotone w0 ->
  main_start w0 = Ok (s, w) -> round_inv w s.
Proof.
  intros Hr Hc H. unfold main_start, time_time in H.
  set (w' := mkWorld (clock w0) (S (clock_pos w0)) (rnd w0) (rnd_pos w0)
                     (played w0)) in H.
  assert (Hr' : rnd_in_range w') by exact Hr.
  set (t := clock w0 (clock_pos w0)) in *.
  assert (Hle : t <= t + game_duration) by (unfold game_duration; lra).
  destruct (State_init_ok t (t + game_duration) w' Hle Hr')
    as (s' & w1 & Hs & _ & _ & _ & _ & Hnow & Hgs & Hge & Hlen & Hall & _).
  rewrite Hs in H. injection H as <- <-.
  destruct (State_init_world _ _ _ _ _ Hr' Hs) as (Ec & Ep & Er).
  unfold round_inv. rewrite Hnow, Hgs, Hge, Ec, Ep.
  split; [exact Hlen|]. split.
  { eapply Forall_impl; [|exact Hall]. simpl.
    intros m (_ & -> & A & _). split; lra. }
  split; [apply Qle_refl|]. split; [unfold game_duration; lra|].
  split.
  { simpl. intros n Hn. apply clock_monotone_le; [exact Hc | lia]. }
  split.
  - unfold rnd_in_range. rewrite Er. exact Hr.
  - unfold clock_monotone. rewrite Ec. exact Hc.
Qed.

Lemma main_reaches_round_inv (paths : Paths) (w0 w : World) (s : State) :
  rnd_in_range w0 -> clock_monotone w0 ->
  main_reaches paths w0 w s -> round_inv w s.
Proof.
  intros Hr Hc Hreach. induction Hreach as [w s H|w s events w1 s1 _ IH _ H].
  - eapply main_start_round_inv; eauto.
  - unfold run_frame in H.
    eapply (drain_invariant paths round_inv); [|exact IH|exact H].
    intros; eapply handle_round_inv; eauto.
Qed.

Lemma Paths_init_images (a : MoleAction) : images_for Paths_init a <> [].
Proof. destruct a; discriminate. Qed.

(** C6: for every state [main] reaches (started from the clock with a
    round of 120 s, the clock never running backwards, draws in [[0, 1)])
    and hands to [render_game] in normal play, neither [end - start] of a
    mole nor [game_end - game_start] is zero, [render_game] raises nothing,
    the sprite index of every mole is within the frames of the set of its
    action and the hourglass index within the hourglass frames, and once
    [now] has reached the end the index is the last frame. *)
Theorem render_game_indices_in_bounds
        (w0 w : World) (s : State)
        (Hr : rnd_in_range w0) (Hc : clock_monotone w0)
        (Hreach : main_reaches Paths_init w0 w s)
        (Hplay : normal_play s) :
  Forall (fun m => ~ end_ m - start m == 0) (mole_states s) /\
  ~ game_end s - game_start s == 0 /\
  exists scene,
    render_game Paths_init s = Ok scene /\
    Forall2 (sprite_in_range Paths_init (now s)) (mole_states s)
            (scene_moles scene) /\
    frame_in_range (hourglass_images Paths_init) (hourglass_step scene)
                   (hourglass_image scene) /\
    (game_end s <= now s ->
     hourglass_step scene = (len (hourglass_images Paths_init) - 1)%Z).
Proof.
  pose proof (main_reaches_round_inv _ _ _ _ Hr Hc Hreach) as Hinv.
  pose proof Hinv as (_ & Hall & _ & Hround & _).
  split; [|split].
  - eapply Forall_impl; [|exact Hall]. simpl. intros m [A _] E. lra.
  - intros E. lra.
  - apply (render_game_ok Paths_init w s);
      [apply Paths_init_images | discriminate | exact Hinv].
Qed.

Lemma demo_clock_monotone (pos : nat) : clock_monotone (demo_world pos).
Proof.
  intros n. simpl. rewrite <- Zle_Qle. lia.
Qed.

Lemma demo_main_reaches :
  exists w s,
    main_reaches Paths_init (demo_world 0) w s /\ normal_play s /\
    now s = 2 /\ score s = 0%Z.
Proof.
  eexists _, _. split.
  - eapply reaches_frame with (events := [JOYBUTTONDOWN true 6; OTHER]).
    + apply reaches_start. vm_compute. reflexivity.
    + reflexivity.
    + vm_compute. reflexivity.
  - repeat split.
Defined.

Lemma render_game_indices_in_bounds_witness :
  rnd_in_range (demo_world 0) /\ clock_monotone (demo_world 0) /\
  exists w s scene,
    main_reaches Paths_init (demo_world 0) w s /\ normal_play s /\
    render_game Paths_init s = Ok scene /\
    frame_in_range (hourglass_images Paths_init) (hourglass_step scene)
                   (hourglass_image scene).
Proof.
  split; [apply demo_rnd_in_range|]. split; [apply demo_clock_monotone|].
  destruct demo_main_reaches as (w & s & Hreach & Hplay & _).
  destruct (render_game_indices_in_bounds (demo_world 0) w s
              (demo_rnd_in_range 0) (demo_clock_monotone 0) Hreach Hplay)
    as (_ & _ & scene & Hs & _ & Hh & _).
  exists w, s, scene. auto.
Defined.

(** ** Remarks on the edges of the contracts *)

(** The ends [State.__init__] draws are whole seconds after [game_start]:
    the draw is truncated by [int] before it is added. *)
Remark State_init_whole_seconds (gs ge : Q) (w : World) (s : State)
       (w1 : World) :
  rnd_in_range w ->
  State_init gs ge w = Ok (s, w1) ->
  Forall (fun m => exists k, (0 <= k <= 12)%Z /\
                             end_ m = gs + 2 + inject_Z k)
         (mole_states s).
Proof.
  intros Hr H. unfold State_init in H.
  destruct (negb (Qle_bool gs ge)); [discriminate|].
  destruct (init_moles_ok gs 8 w Hr) as (wa & Hi & _).
  rewrite Hi in H. cbn [bind] in H.
  rewrite length_map, length_seq in H. cbn [Nat.eqb negb] in H.
  injection H as <- _. cbn [mole_states].
  assert (Hall : Forall (fun m => exists k, (0 <= k <= 12)%Z /\
                                            end_ m = gs + 2 + inject_Z k)
                   (map (fun k => mkMoleState LINGERING_BENEATH gs
                      (gs + 2 + inject_Z (int (rnd w (rnd_pos w + k) * 13))))
                      (seq 0 8))); [|exact Hall].
  apply Forall_forall. intros m Hm. apply in_map_iff in Hm.
  destruct Hm as (k & <- & _). cbn [end_].
  destruct (Hr (rnd_pos w + k)%nat) as [H0 H1].
  exists (int (rnd w (rnd_pos w + k) * 13)). split; [|reflexivity].
  split; [apply int_nonneg; lra|].
  assert (int (rnd w (rnd_pos w + k) * 13) < 13)%Z; [|lia].
  apply int_below; [lra|]. change (inject_Z 13) with 13. lra.
Qed.

(** C8 (as first stated) fails: the end of a fresh mole is not the draw
    spread evenly over [[game_start + 2, game_start + 15)].  With the
    draw 1/2 the constructor gives the end 8 where the even spread gives
    8.5; and whatever the draws, no end falls strictly between 2 and 3
    seconds after the start, a part of the interval that an even spread
    reaches with every draw below 1/13. *)
Lemma State_init_end_not_uniform :
  (exists s w1 m,
      State_init 0 120 (demo_world 0) = Ok (s, w1) /\
      nth_error (mole_states s) 0 = Some m /\
      rnd (demo_world 0) (rnd_pos (demo_world 0)) = 1 # 2 /\
      end_ m == 8 /\
      spec_uniform_end 0 (1 # 2) == 17 # 2 /\
      ~ end_ m == spec_uniform_end 0 (1 # 2)) /\
  (forall w s w1 m,
      rnd_in_range w -> State_init 0 120 w = Ok (s, w1) ->
      In m (mole_states s) -> ~ (0 + 2 < end_ m /\ end_ m < 0 + 3)) /\
  (2 < spec_uniform_end 0 (1 # 26) /\ spec_uniform_end 0 (1 # 26) < 3) /\
  ~ (forall gs ge w s w1 k m,
        gs <= ge -> rnd_in_range w ->
        State_init gs ge w = Ok (s, w1) ->
        nth_error (mole_states s) k = Some m ->
        end_ m == spec_uniform_end gs (rnd w (rnd_pos w + k))).
Proof.
  assert (Hdemo : exists s w1 m,
             State_init 0 120 (demo_world 0) = Ok (s, w1) /\
             nth_error (mole_states s) 0 = Some m /\
             end_ m == 8).
  { eexists _, _, _. split; [vm_compute; reflexivity|].
    split; reflexivity. }
  destruct Hdemo as (s & w1 & m & Hs & Hm & He).
  assert (Hne : ~ end_ m == spec_uniform_end 0 (1 # 2)).
  { rewrite He. discriminate. }
  split; [|split; [|split]].
  - exists s, w1, m. repeat split; auto.
  - intros w s' w1' m' Hr Hs' Hin [H2 H3].
    pose proof (State_init_whole_seconds 0 120 w s' w1' Hr Hs') as Hall.
    rewrite Forall_forall in Hall.
    destruct (Hall m' Hin) as (n & Hn & En). rewrite En in H2, H3.
    assert (A : inject_Z 0 < inject_Z n) by (change (inject_Z 0) with 0; lra).
    assert (B : inject_Z n < inject_Z 1) by (change (inject_Z 1) with 1; lra).
    rewrite <- Zlt_Qlt in A, B. lia.
  - split; reflexivity.
  - intros H. apply Hne.
    apply (H 0 120 (demo_world 0) s w1 0%nat m);
      [discriminate | apply demo_rnd_in_range | exact Hs | exact Hm].
Qed.

(** The precondition of [State.__init__] admits a round of no length, which
    [main] never builds; on such a round [render_game] divides by zero. *)
Remark render_game_round_of_no_length :
  exists s w,
    State_init 0 0 still_world = Ok (s, w) /\ normal_play s /\
    render_game Paths_init s = Raise ZeroDivisionError.
Proof.
  eexists _, _. split; [vm_compute; reflexivity|].
  split; [split; reflexivity | vm_compute; reflexivity].
Qed.

(** * Further properties of the handlers *)

(** ** The loop of a tick, without assumptions on the draws *)

Lemma update_moles_account (t : Q) (ms : list MoleState) :
  forall mi w ms1 mi1 w1,
    update_moles t ms mi w = (ms1, mi1, w1) ->
    Forall2 (fun m m1 => (Qgt_bool t (end_ m) = false /\ m1 = m) \/
                         (Qgt_bool t (end_ m) = true /\ start m1 = t /\
                          cycle_edge (action m) (action m1) /\
                          action m1 <> DIZZYING_DOWN))
            ms ms1 /\
    mi1 = (mi + Z.of_nat (List.length (filter (missed t) ms)))%Z /\
    rnd_pos w1 = (rnd_pos w + List.length (filter (hides t) ms))%nat /\
    clock w1 = clock w /\ clock_pos w1 = clock_pos w /\ rnd w1 = rnd w /\
    played w1 = played w.
Proof.
  induction ms as [|m ms IH]; intros mi w ms1 mi1 w1; cbn [update_moles].
  - intros H; inversion H; subst. simpl. repeat split; auto; lia.
  - cbn [filter].
    change (missed t m)
      with (Qgt_bool t (end_ m) &&
            match action m with LOOKING_AROUND => true | _ => false end).
    change (hides t m)
      with (Qgt_bool t (end_ m) &&
            match action m with
            | GOING_DOWN | DIZZYING_DOWN => true
            | _ => false
            end).
    destruct (Qgt_bool t (end_ m)) eqn:Hexp; cbn [andb].
    + unfold expire.
      destruct (action m) eqn:Ha; cbn [random_random];
        match goal with
        | |- context [update_moles t ms ?a ?b] =>
            destruct (update_moles t ms a b) as [[r mib] wb] eqn:Hu
        end;
        intros H; inversion H; subst;
        destruct (IH _ _ _ _ _ Hu) as (F & Hmi & Hp & C1 & C2 & C3 & C4);
        (split; [constructor; [right; cbn [start action]; rewrite ?Ha;
                               repeat split;
                               first [assumption | discriminate | constructor]
                              | exact F]|]);
        cbn [List.length] in *; simpl in *; repeat split; auto; lia.
    + destruct (update_moles t ms mi w) as [[r mib] wb] eqn:Hu.
      intros H; inversion H; subst.
      destruct (IH _ _ _ _ _ Hu) as (F & Hmi & Hp & C).
      split; [constructor; [left; auto | exact F]|].
      repeat split; try tauto; lia.
Qed.


(** ** What each event does *)

Lemma set_now_same (s : State) : set_now (now s) s = s.
Proof. destruct s; reflexivity. Qed.

(** The outcome of a call of [handle] that returns, event by event. *)
Lemma handle_by_event (paths : Paths) (w : World) (s : State) (e : Event)
      (q : list Event) (w1 : World) (s1 : State) (q1 : list Event) :
  handle paths w s (e :: q) = Ok (w1, s1, q1) ->
  match e with
  | ReceivedQuit => s1 = set_received_quit true s /\ q1 = q
  | GameOver => s1 = set_game_over true s /\ q1 = q
  | ButtonDown b =>
      q1 = q /\
      (s1 = s \/
       exists m,
         game_over s = false /\
         nth_error (mole_states s) (mole_of b) = Some m /\
         action m = LOOKING_AROUND /\
         s1 = set_score (score s + 1)
                (set_mole_states
                   (list_set (mole_states s) (mole_of b)
                      (mkMoleState DIZZYING_DOWN (now s) (now s + (1 # 4))))
                   s) /\
         w1 = play_sound (hit_sound paths) (snd (time_time w)))
  | Tick =>
      if game_over s then s1 = s /\ q1 = q /\ w1 = w
      else if Qgt_bool (next_now w) (game_end s)
           then s1 = set_now (next_now w) s /\ q1 = q ++ [GameOver] /\
                w1 = snd (time_time w)
           else q1 = q /\
                exists moles misses1,
                  update_moles (next_now w) (mole_states s) (misses s)
                               (snd (time_time w)) = (moles, misses1, w1) /\
                  s1 = set_misses misses1
                         (set_mole_states moles (set_now (next_now w) s))
  end.
Proof.
  destruct (game_over s) eqn:Hover.
  - rewrite handle_game_over_mode by assumption.
    destruct e; intros H; inversion H; subst; auto.
    split; [symmetry; apply set_game_over_idem; assumption | reflexivity].
  - destruct e.
    + unfold handle, handle_in_game. rewrite Hover. simpl.
      fold (next_now w).
      destruct (Qgt_bool (next_now w) (game_end s)) eqn:Hlate.
      * intros H; inversion H; subst. auto.
      * destruct (update_moles _ _ _ _) as [[ms mi] wa] eqn:Hu.
        intros H; inversion H; subst. split; [reflexivity|].
        exists ms, mi. auto.
    + unfold handle. rewrite Hover. simpl. intros H; inversion H; auto.
    + destruct (nth_error (mole_states s) (mole_of button)) as [m|] eqn:Hm.
      * rewrite (handle_ButtonDown_in_game paths w s button q m Hover Hm).
        destruct (action m) eqn:Ha; intros H; inversion H; subst; auto.
        split; [reflexivity|]. right. exists m. auto.
      * unfold handle, handle_in_game. rewrite Hover. simpl.
        rewrite dict_get_BUTTON_TO_MOLE. fold (mole_of button).
        rewrite Hm. discriminate.
    + unfold handle. rewrite Hover. simpl. intros H; inversion H; auto.
Qed.

(** X1: what [handle] does depends on the front event only: the rest of
    the queue comes back untouched and in order, in front of whatever the
    event appended, and neither the state nor the world nor an exception
    depends on it. *)
Theorem handle_looks_at_front_only (paths : Paths) (w : World) (s : State)
        (e : Event) (q : list Event) :
  handle paths w s (e :: q) =
  match handle paths w s [e] with
  | Ok (w1, s1, appended) => Ok (w1, s1, q ++ appended)
  | Raise x => Raise x
  end.
Proof.
  destruct (game_over s) eqn:Hover.
  - rewrite !handle_game_over_mode by assumption. rewrite app_nil_r.
    reflexivity.
  - destruct e.
    + unfold handle, handle_in_game. rewrite Hover. simpl.
      destruct (Qgt_bool _ _); [reflexivity|].
      destruct (update_moles _ _ _ _) as [[ms mi] wa].
      rewrite app_nil_r. reflexivity.
    + unfold handle. rewrite Hover. simpl. rewrite app_nil_r. reflexivity.
    + destruct (nth_error (mole_states s) (mole_of button)) as [m|] eqn:Hm.
      * rewrite !(handle_ButtonDown_in_game paths w s button _ m Hover Hm).
        destruct (action m); rewrite app_nil_r; reflexivity.
      * unfold handle, handle_in_game. rewrite Hover. simpl.
        rewrite dict_get_BUTTON_TO_MOLE. fold (mole_of button).
        rewrite Hm. reflexivity.
    + unfold handle. rewrite Hover. simpl. rewrite app_nil_r. reflexivity.
Qed.

(** ** Invariants of a drain that look at the queue *)

Lemma drain_invariant_queue (paths : Paths)
      (P : World -> State -> list Event -> Prop) :
  (forall w s e q w1 s1 q1,
      P w s (e :: q) -> handle paths w s (e :: q) = Ok (w1, s1, q1) ->
      P w1 s1 q1) ->
  forall fuel w s q w1 s1,
    P w s q -> drain paths fuel w s q = Some (Ok (w1, s1)) -> P w1 s1 [].
Proof.
  intros Hstep. induction fuel as [|fuel IH]; intros w s q w1 s1 HP.
  - destruct q; simpl; [intros [= <- <-]; exact HP | discriminate].
  - destruct q as [|e q]; cbn [drain]; [intros [= <- <-]; exact HP|].
    destruct (handle paths w s (e :: q)) as [[[wa sa] qa]|ex] eqn:Hh;
      [|discriminate].
    intros Hd. eapply IH; [|exact Hd]. eapply Hstep; eauto.
Qed.

Lemma State_init_fields (gs ge : Q) (w : World) (s : State) (w1 : World) :
  State_init gs ge w = Ok (s, w1) ->
  received_quit s = false /\ game_over s = false /\
  score s = 0%Z /\ misses s = 0%Z /\
  now s = gs /\ game_start s = gs /\ game_end s = ge /\ gs <= ge /\
  List.length (mole_states s) = 8%nat.
Proof.
  unfold State_init. destruct (Qle_bool gs ge) eqn:Hle; [|discriminate].
  cbn [negb]. destruct (init_moles 8 gs w) as [[ms wa]|]; [|discriminate].
  cbn [bind]. destruct (List.length ms =? 8)%nat eqn:E; [|discriminate].
  cbn [negb]. intros [= <- _]. cbn.
  apply Qle_bool_iff in Hle. apply Nat.eqb_eq in E. auto 10.
Qed.

(** ** Score and misses *)

Lemma handle_counters (paths : Paths) (w : World) (s : State)
      (q : list Event) (w1 : World) (s1 : State) (q1 : list Event) :
  handle paths w s q = Ok (w1, s1, q1) ->
  (score s <= score s1 <= score s + 1)%Z /\
  (misses s <= misses s1
   <= misses s + Z.of_nat (List.length (mole_states s)))%Z /\
  (score s1 = score s \/ misses s1 = misses s).
Proof.
  destruct q as [|e q].
  - destruct (handle_empty_queue_free paths w s) as [-> _].
    intros [= <- <- <-]. lia.
  - intros H. apply handle_by_event in H. destruct e.
    + destruct (game_over s); [destruct H as (-> & _); lia|].
      destruct (Qgt_bool _ _); [destruct H as (-> & _); simpl; lia|].
      destruct H as (_ & ms & mi & Hu & ->). simpl.
      apply update_moles_account in Hu. destruct Hu as (_ & -> & _).
      pose proof (filter_length_le (missed (next_now w)) (mole_states s)).
      lia.
    + destruct H as (-> & _). simpl. lia.
    + destruct H as (_ & [-> | (m & _ & _ & _ & -> & _)]); simpl; lia.
    + destruct H as (-> & _). simpl. lia.
Qed.

(** X2: a handled event never lowers [score] or [misses]; it adds at most
    one point, at most one miss per mole, and never both points and
    misses. *)
Theorem counters_only_grow (paths : Paths) (w : World) (s : State)
        (q : list Event) (w1 : World) (s1 : State) (q1 : list Event)
        (H : handle paths w s q = Ok (w1, s1, q1)) :
  (score s <= score s1 <= score s + 1)%Z /\
  (misses s <= misses s1
   <= misses s + Z.of_nat (List.length (mole_states s)))%Z /\
  (score s1 = score s \/ misses s1 = misses s).
Proof. exact (handle_counters paths w s q w1 s1 q1 H). Qed.

Lemma counters_only_grow_witness :
  exists w1 s1,
    handle Paths_init (demo_world 14) demo_state [Tick] = Ok (w1, s1, []) /\
    (misses demo_state <= misses s1 <= misses demo_state + 8)%Z /\
    misses s1 = 2%Z.
Proof.
  assert (H : exists w1 s1,
             handle Paths_init (demo_world 14) demo_state [Tick]
             = Ok (w1, s1, []))
    by (eexists _, _; vm_compute; reflexivity).
  destruct H as (w1 & s1 & H). exists w1, s1. split; [exact H|].
  destruct (counters_only_grow _ _ _ _ _ _ _ H) as (_ & B & _).
  split; [exact B|].
  vm_compute in H. injection H as _ Hs. rewrite <- Hs. reflexivity.
Defined.

Lemma main_reaches_counters (paths : Paths) (w0 w : World) (s : State) :
  main_reaches paths w0 w s -> (0 <= score s)%Z /\ (0 <= misses s)%Z.
Proof.
  induction 1 as [w s H|w s events w1 s1 _ IH _ H].
  - unfold main_start in H. destruct (time_time w0) as [t wa].
    apply State_init_fields in H. destruct H as (_ & _ & -> & -> & _). lia.
  - unfold run_frame in H.
    eapply (drain_invariant paths
              (fun _ s' => (0 <= score s')%Z /\ (0 <= misses s')%Z));
      [|exact IH|exact H].
    intros wa sa qa wb sb qb [A B] Hh. apply handle_counters in Hh. lia.
Qed.

(** ** Sounds *)

Lemma handle_sounds (paths : Paths) (w : World) (s : State)
      (q : list Event) (w1 : World) (s1 : State) (q1 : list Event) :
  handle paths w s q = Ok (w1, s1, q1) ->
  exists n, played w1 = repeat (hit_sound paths) n ++ played w /\
            score s1 = (score s + Z.of_nat n)%Z.
Proof.
  destruct q as [|e q].
  - destruct (handle_empty_queue_free paths w s) as [-> _].
    intros [= <- <- <-]. exists 0%nat. split; [reflexivity | simpl; lia].
  - destruct (game_over s) eqn:Hover.
    + rewrite handle_game_over_mode by assumption.
      intros [= <- <- <-]. exists 0%nat.
      split; [reflexivity | destruct e; simpl; lia].
    + destruct e.
      * intros H. apply handle_by_event in H. rewrite Hover in H.
        destruct (Qgt_bool _ _).
        -- destruct H as (-> & _ & ->). exists 0%nat.
           split; [reflexivity | simpl; lia].
        -- destruct H as (_ & ms & mi & Hu & ->).
           apply update_moles_account in Hu.
           destruct Hu as (_ & _ & _ & _ & _ & _ & ->).
           exists 0%nat. split; [reflexivity | simpl; lia].
      * unfold handle. rewrite Hover. simpl. intros [= <- <- <-].
        exists 0%nat. split; [reflexivity | simpl; lia].
      * destruct (nth_error (mole_states s) (mole_of button)) as [m|] eqn:Hm.
        -- rewrite (handle_ButtonDown_in_game paths w s button q m Hover Hm).
           destruct (action m); intros [= <- <- <-];
             first [ exists 0%nat; split; [reflexivity | simpl; lia]
                   | exists 1%nat; split; [reflexivity | simpl; lia] ].
        -- unfold handle, handle_in_game. rewrite Hover. simpl.
           rewrite dict_get_BUTTON_TO_MOLE. fold (mole_of button).
           rewrite Hm. discriminate.
      * unfold handle. rewrite Hover. simpl. intros [= <- <- <-].
        exists 0%nat. split; [reflexivity | simpl; lia].
Qed.

(** X3: over a whole drain the hit sound is started once for every point
    scored and no other sound is started. *)
Theorem one_hit_sound_per_point (paths : Paths) (fuel : nat) (w : World)
        (s : State) (q : list Event) (w1 : World) (s1 : State)
        (H : drain paths fuel w s q = Some (Ok (w1, s1))) :
  exists n, played w1 = repeat (hit_sound paths) n ++ played w /\
            score s1 = (score s + Z.of_nat n)%Z.
Proof.
  apply (drain_invariant paths
           (fun w' s' =>
              exists n, played w' = repeat (hit_sound paths) n ++ played w /\
                        score s' = (score s + Z.of_nat n)%Z))
    with (w1 := w1) (s1 := s1) in H; [exact H| |].
  - intros wa sa qa wb sb qb (n & Hp & Hs) Hh.
    apply handle_sounds in Hh. destruct Hh as (k & Hp' & Hs').
    exists (k + n)%nat. rewrite Hp', Hp, Hs', Hs, repeat_app, app_assoc.
    split; [reflexivity | lia].
  - exists 0%nat. split; [reflexivity | lia].
Qed.

Lemma one_hit_sound_per_point_witness :
  exists w1 s1 n,
    drain Paths_init 4 (demo_world 13) demo_state
          [ButtonDown CROSS; ButtonDown CROSS; Tick] = Some (Ok (w1, s1)) /\
    played w1 = repeat "media/sfx/hit.ogg"%string n /\
    score s1 = (3 + Z.of_nat n)%Z.
Proof.
  assert (H : exists w1 s1,
             drain Paths_init 4 (demo_world 13) demo_state
                   [ButtonDown CROSS; ButtonDown CROSS; Tick]
             = Some (Ok (w1, s1)))
    by (eexists _, _; vm_compute; reflexivity).
  destruct H as (w1 & s1 & H).
  destruct (one_hit_sound_per_point _ _ _ _ _ _ _ H) as (n & Hp & Hs).
  exists w1, s1, n. split; [exact H|]. split; [|exact Hs].
  rewrite Hp. apply app_nil_r.
Defined.

(** ** Clock readings and draws *)

(** X4: a returning call of [handle] on a non-empty queue reads the clock
    exactly once during the round and not at all once the game is over;
    it draws from the random generator only for a [Tick] handled during
    the round and not past [game_end], once for each expired mole that
    was [GOING_DOWN] or [DIZZYING_DOWN]. *)
Theorem handle_reads_and_draws (paths : Paths) (w : World) (s : State)
        (e : Event) (q : list Event) (w1 : World) (s1 : State)
        (q1 : list Event)
        (H : handle paths w s (e :: q) = Ok (w1, s1, q1)) :
  clock_pos w1 = (if game_over s then clock_pos w else S (clock_pos w)) /\
  rnd_pos w1
  = (rnd_pos w
     + match e with
       | Tick =>
           if (game_over s || Qgt_bool (next_now w) (game_end s))%bool
           then 0
           else List.length (filter (hides (next_now w)) (mole_states s))
       | _ => 0
       end)%nat /\
  clock w1 = clock w /\ rnd w1 = rnd w.
Proof.
  revert H. destruct (game_over s) eqn:Hover.
  - rewrite handle_game_over_mode by assumption.
    intros [= <- <- <-]. destruct e; cbn [orb]; repeat split; lia.
  - destruct e; cbn [orb].
    + intros H. apply handle_by_event in H. rewrite Hover in H.
      destruct (Qgt_bool _ _).
      * destruct H as (_ & _ & ->). simpl. repeat split; lia.
      * destruct H as (_ & ms & mi & Hu & _).
        apply update_moles_account in Hu.
        destruct Hu as (_ & _ & Hp & C1 & C2 & C3 & _).
        simpl in *. repeat split; auto.
    + unfold handle. rewrite Hover. simpl. intros [= <- <- <-].
      simpl. repeat split; lia.
    + destruct (nth_error (mole_states s) (mole_of button)) as [m|] eqn:Hm.
      * rewrite (handle_ButtonDown_in_game paths w s button q m Hover Hm).
        destruct (action m); intros [= <- <- <-]; simpl; repeat split; lia.
      * unfold handle, handle_in_game. rewrite Hover. simpl.
        rewrite dict_get_BUTTON_TO_MOLE. fold (mole_of button).
        rewrite Hm. discriminate.
    + unfold handle. rewrite Hover. simpl. intros [= <- <- <-].
      simpl. repeat split; lia.
Qed.

Lemma handle_reads_and_draws_witness :
  exists w1 s1,
    handle Paths_init (demo_world 14) demo_state [Tick] = Ok (w1, s1, []) /\
    clock_pos w1 = 15%nat /\ rnd_pos w1 = 2%nat.
Proof.
  assert (H : exists w1 s1,
             handle Paths_init (demo_world 14) demo_state [Tick]
             = Ok (w1, s1, []))
    by (eexists _, _; vm_compute; reflexivity).
  destruct H as (w1 & s1 & H). exists w1, s1. split; [exact H|].
  destruct (handle_reads_and_draws _ _ _ _ _ _ _ _ H) as (A & B & _).
  split; [exact A | exact B].
Defined.

(** ** Flags *)

(** X5: [received_quit] changes only when a [ReceivedQuit] is handled and
    [game_over] only when a [GameOver] is handled during the round; in
    particular a [Tick] past [game_end] does not itself end the round. *)
Theorem flags_change_with_their_event_only
        (paths : Paths) (w : World) (s : State) (e : Event) (q : list Event)
        (w1 : World) (s1 : State) (q1 : list Event)
        (H : handle paths w s (e :: q) = Ok (w1, s1, q1)) :
  (received_quit s1 <> received_quit s -> e = ReceivedQuit) /\
  (game_over s1 <> game_over s -> e = GameOver /\ game_over s = false).
Proof.
  apply handle_by_event in H. destruct e.
  - destruct (game_over s) eqn:Hover;
      [destruct H as (-> & _); split; congruence|].
    destruct (Qgt_bool _ _).
    + destruct H as (-> & _). simpl. split; congruence.
    + destruct H as (_ & ms & mi & _ & ->). simpl. split; congruence.
  - destruct H as (-> & _). simpl. split; congruence.
  - destruct H as (_ & [-> | (m & _ & _ & _ & -> & _)]); simpl;
      split; congruence.
  - destruct H as (-> & _). simpl. split; [congruence|].
    destruct (game_over s) eqn:Hover; intros; [congruence | auto].
Qed.

Lemma flags_change_with_their_event_only_witness :
  exists w1 s1,
    handle Paths_init (demo_world 121) demo_state [Tick]
    = Ok (w1, s1, [GameOver]) /\
    game_over s1 = false.
Proof.
  assert (H : exists w1 s1,
             handle Paths_init (demo_world 121) demo_state [Tick]
             = Ok (w1, s1, [GameOver]))
    by (eexists _, _; vm_compute; reflexivity).
  destruct H as (w1 & s1 & H). exists w1, s1. split; [exact H|].
  destruct (flags_change_with_their_event_only _ _ _ _ _ _ _ _ H)
    as (_ & B).
  destruct (game_over s1) eqn:E; [|reflexivity].
  destruct B as [B _]; [discriminate | discriminate].
Defined.

(** ** The cycle of a mole *)

Lemma Forall2_same {A : Type} (R : A -> A -> Prop) (l : list A) :
  (forall a, R a a) -> Forall2 R l l.
Proof. intros HR. induction l; constructor; auto. Qed.

Lemma Forall2_list_set {A : Type} (R : A -> A -> Prop) (l : list A)
      (i : nat) (x a : A) :
  (forall y, R y y) -> nth_error l i = Some x -> R x a ->
  Forall2 R l (list_set l i a).
Proof.
  intros HR. revert i. induction l as [|y l IH]; intros [|i]; simpl;
    try discriminate.
  - intros [= ->] Hxa. constructor; [exact Hxa | apply Forall2_same, HR].
  - intros Hn Hxa. constructor; [apply HR | apply IH; assumption].
Qed.

(** X6: whatever event is handled, every mole either keeps its action or
    follows one edge of the cycle: beneath to going up, to looking
    around, to going down or (hit) dizzying down, and back beneath; the
    number of moles stays. *)
Theorem moles_follow_the_cycle (paths : Paths) (w : World) (s : State)
        (q : list Event) (w1 : World) (s1 : State) (q1 : list Event)
        (H : handle paths w s q = Ok (w1, s1, q1)) :
  Forall2 (fun m m1 => m1 = m \/ cycle_edge (action m) (action m1))
          (mole_states s) (mole_states s1).
Proof.
  apply handle_effect in H. destruct H; simpl;
    try (apply Forall2_same; auto).
  - eapply Forall2_list_set; eauto.
    right. rewrite H1. constructor.
  - apply update_moles_account in H1. destruct H1 as (F & _).
    eapply Forall2_impl; [|exact F]. simpl.
    intros a b [[_ ->] | (_ & _ & E & _)]; auto.
Qed.

Lemma moles_follow_the_cycle_witness :
  exists w1 s1 m1,
    handle Paths_init (demo_world 13) demo_state [ButtonDown CROSS]
    = Ok (w1, s1, []) /\
    nth_error (mole_states s1) 0 = Some m1 /\
    cycle_edge LOOKING_AROUND (action m1).
Proof.
  assert (H : exists w1 s1,
             handle Paths_init (demo_world 13) demo_state [ButtonDown CROSS]
             = Ok (w1, s1, []))
    by (eexists _, _; vm_compute; reflexivity).
  destruct H as (w1 & s1 & H).
  pose proof (moles_follow_the_cycle _ _ _ _ _ _ _ H) as F.
  vm_compute in H. injection H as _ Hs. subst s1.
  inversion F as [|m m1 l l1 [E|E] _]; subst.
  - discriminate.
  - eexists _, _, _. split; [reflexivity|]. split; [reflexivity | exact E].
Defined.

(** ** Pressing twice *)

(** X7: of two presses of the same button handled back to back during the
    round, the second changes nothing: a mole that was hit is dizzying
    down and cannot be hit again. *)
Theorem second_press_scores_nothing
        (paths : Paths) (w : World) (s : State) (b : Button) (q : list Event)
        (Hmoles : List.length (mole_states s) = 8%nat)
        (Hplay : game_over s = false) :
  exists w1 s1 w2,
    handle paths w s (ButtonDown b :: ButtonDown b :: q)
    = Ok (w1, s1, ButtonDown b :: q) /\
    handle paths w1 s1 (ButtonDown b :: q) = Ok (w2, s1, q) /\
    played w2 = played w1 /\ (score s1 <= score s + 1)%Z.
Proof.
  pose proof (mole_of_lt8 b) as Hi.
  destruct (nth_error (mole_states s) (mole_of b)) as [m|] eqn:Hm.
  2:{ apply nth_error_None in Hm. lia. }
  rewrite (handle_ButtonDown_in_game paths w s b _ m Hplay Hm).
  destruct (action m) eqn:Ha.
  3:{ eexists _, _, _. split; [reflexivity|].
      erewrite handle_ButtonDown_in_game;
        [| exact Hplay | simpl; apply list_set_same; lia].
      simpl. split; [reflexivity|]. split; [reflexivity | lia]. }
  all: eexists _, _, _; (split; [reflexivity|]);
    rewrite (handle_ButtonDown_in_game paths _ s b q m Hplay Hm), Ha;
    split; [reflexivity|]; split; [reflexivity | lia].
Qed.

Lemma second_press_scores_nothing_witness :
  List.length (mole_states demo_state) = 8%nat /\
  game_over demo_state = false /\
  exists w1 s1 w2,
    handle Paths_init (demo_world 13) demo_state
           [ButtonDown CROSS; ButtonDown CROSS]
    = Ok (w1, s1, [ButtonDown CROSS]) /\
    handle Paths_init w1 s1 [ButtonDown CROSS] = Ok (w2, s1, []) /\
    (score s1 <= 4)%Z.
Proof.
  split; [reflexivity|]. split; [reflexivity|].
  destruct (second_press_scores_nothing Paths_init (demo_world 13)
              demo_state CROSS [] eq_refl eq_refl)
    as (w1 & s1 & w2 & A & B & _ & C).
  exists w1, s1, w2. auto.
Defined.

(** ** The game clock *)

Lemma demo_round_inv : round_inv (demo_world 14) demo_state.
Proof.
  unfold round_inv. split; [reflexivity|]. split.
  { repeat constructor; simpl; try reflexivity; discriminate. }
  split; [discriminate|]. split; [reflexivity|]. split.
  { simpl. intros n Hn. change 12 with (inject_Z 12).
    rewrite <- Zle_Qle. lia. }
  split; [apply demo_rnd_in_range | apply demo_clock_monotone].
Qed.

(** X8: in a round [main] runs (clock never backwards), handling an event
    never moves [state.now] backwards, moves it only for a [Tick] handled
    during the round, and leaves it no later than every reading the clock
    will still give. *)
Theorem now_only_moves_forward
        (paths : Paths) (w : World) (s : State) (e : Event) (q : list Event)
        (w1 : World) (s1 : State) (q1 : list Event)
        (Hinv : round_inv w s)
        (H : handle paths w s (e :: q) = Ok (w1, s1, q1)) :
  now s <= now s1 /\
  (now s1 <> now s -> e = Tick /\ game_over s = false /\
                      now s1 = next_now w) /\
  (forall n, (clock_pos w1 <= n)%nat -> now s1 <= clock w1 n).
Proof.
  pose proof (handle_round_inv _ _ _ _ _ _ _ Hinv H) as Hinv1.
  destruct Hinv as (_ & _ & _ & _ & Hclk & _).
  destruct Hinv1 as (_ & _ & _ & _ & Hclk1 & _).
  assert (Hnext : now s <= next_now w) by (apply Hclk; lia).
  split; [|split; [|exact Hclk1]].
  - apply handle_by_event in H. destruct e.
    + destruct (game_over s); [destruct H as (-> & _); apply Qle_refl|].
      destruct (Qgt_bool _ _).
      * destruct H as (-> & _). exact Hnext.
      * destruct H as (_ & ms & mi & _ & ->). exact Hnext.
    + destruct H as (-> & _). apply Qle_refl.
    + destruct H as (_ & [-> | (m & _ & _ & _ & -> & _)]); apply Qle_refl.
    + destruct H as (-> & _). apply Qle_refl.
  - apply handle_by_event in H. destruct e.
    + destruct (game_over s); [destruct H as (-> & _); congruence|].
      destruct (Qgt_bool _ _).
      * destruct H as (-> & _). auto.
      * destruct H as (_ & ms & mi & _ & ->). auto.
    + destruct H as (-> & _). simpl. congruence.
    + destruct H as (_ & [-> | (m & _ & _ & _ & -> & _)]); simpl; congruence.
    + destruct H as (-> & _). simpl. congruence.
Qed.

Lemma now_only_moves_forward_witness :
  round_inv (demo_world 14) demo_state /\
  exists w1 s1,
    handle Paths_init (demo_world 14) demo_state [Tick] = Ok (w1, s1, []) /\
    now demo_state <= now s1.
Proof.
  split; [exact demo_round_inv|].
  assert (H : exists w1 s1,
             handle Paths_init (demo_world 14) demo_state [Tick]
             = Ok (w1, s1, []))
    by (eexists _, _; vm_compute; reflexivity).
  destruct H as (w1 & s1 & H). exists w1, s1. split; [exact H|].
  exact (proj1 (now_only_moves_forward _ _ _ _ _ _ _ _ demo_round_inv H)).
Defined.

(** ** The first seconds of a round *)

Lemma set_misses_moles_same (s : State) :
  set_misses (misses s) (set_mole_states (mole_states s) s) = s.
Proof. destruct s; reflexivity. Qed.



(** * The frames of [main] *)

(** ** The queue of a frame *)

Lemma collect_shape (events : list PygameEvent) :
  forall q0,
  exists inputs,
    collect events q0 = q0 ++ inputs ++ [Tick] /\
    forallb is_input inputs = true /\
    (List.length inputs <= List.length events)%nat /\
    (In ReceivedQuit inputs <-> existsb asks_to_quit events = true) /\
    (forall b, In (ButtonDown b) inputs <->
               exists k, In (JOYBUTTONDOWN true k) events /\
                         button_map_get button_map k = Some b).
Proof.
  induction events as [|ev events IH]; intros q0.
  - exists []. simpl. split; [reflexivity|]. split; [reflexivity|].
    split; [lia|]. split; [split; [tauto | discriminate]|].
    intros b. split; [tauto | intros (k & [] & _)].
  - assert (Hskip :
      asks_to_quit ev = false ->
      (forall k b, ev = JOYBUTTONDOWN true k ->
                   button_map_get button_map k = Some b -> False) ->
      collect (ev :: events) q0 = collect events q0 ->
      exists inputs,
        collect (ev :: events) q0 = q0 ++ inputs ++ [Tick] /\
        forallb is_input inputs = true /\
        (List.length inputs <= List.length (ev :: events))%nat /\
        (In ReceivedQuit inputs
         <-> existsb asks_to_quit (ev :: events) = true) /\
        (forall b, In (ButtonDown b) inputs <->
                   exists k, In (JOYBUTTONDOWN true k) (ev :: events) /\
                             button_map_get button_map k = Some b)).
    { intros Hq Hb Hc. destruct (IH q0) as (inputs & E & F & L & Q & B).
      exists inputs. rewrite Hc, E. cbn [existsb List.length]. rewrite Hq.
      cbn [orb]. split; [reflexivity|]. split; [exact F|].
      split; [lia|]. split; [exact Q|]. intros b. split.
      - intros Hin. apply B in Hin. destruct Hin as (k & Hk & Hm).
        exists k. split; [right; exact Hk | exact Hm].
      - intros (k & [Hk|Hk] & Hm); [exfalso; eapply Hb; eauto|].
        apply B. eauto. }
    assert (Hquit :
      asks_to_quit ev = true ->
      collect (ev :: events) q0 = collect events (q0 ++ [ReceivedQuit]) ->
      (forall k, ev <> JOYBUTTONDOWN true k) ->
      exists inputs,
        collect (ev :: events) q0 = q0 ++ inputs ++ [Tick] /\
        forallb is_input inputs = true /\
        (List.length inputs <= List.length (ev :: events))%nat /\
        (In ReceivedQuit inputs
         <-> existsb asks_to_quit (ev :: events) = true) /\
        (forall b, In (ButtonDown b) inputs <->
                   exists k, In (JOYBUTTONDOWN true k) (ev :: events) /\
                             button_map_get button_map k = Some b)).
    { intros Hq Hc Hb.
      destruct (IH (q0 ++ [ReceivedQuit])) as (inputs & E & F & L & Q & B).
      exists (ReceivedQuit :: inputs). rewrite Hc, E, <- app_assoc.
      cbn [existsb List.length forallb is_input andb app]. rewrite Hq.
      cbn [orb]. split; [reflexivity|]. split; [exact F|].
      split; [lia|]. split; [split; [reflexivity | left; reflexivity]|].
      intros b. split.
      - intros [Hin|Hin]; [discriminate|]. apply B in Hin.
        destruct Hin as (k & Hk & Hm). exists k. split; [right|]; auto.
      - intros (k & [Hk|Hk] & Hm); [exfalso; eapply Hb; eauto|].
        right. apply B. eauto. }
    destruct ev as [|active button|key|].
    + apply Hquit; [reflexivity | reflexivity | discriminate].
    + destruct active.
      * destruct (button_map_get button_map button) as [b|] eqn:Hb.
        -- destruct (IH (q0 ++ [ButtonDown b]))
             as (inputs & E & F & L & Q & B).
           exists (ButtonDown b :: inputs). cbn [collect]. rewrite Hb, E.
           rewrite <- app_assoc.
           cbn [existsb List.length forallb is_input andb app asks_to_quit
                orb].
           split; [reflexivity|]. split; [exact F|]. split; [lia|].
           split.
           { split; [intros [Hin|Hin]; [discriminate | apply Q, Hin]|].
             intros Hin. right. apply Q, Hin. }
           intros b'. split.
           ++ intros [[= <-]|Hin].
              ** exists button. split; [left; reflexivity | exact Hb].
              ** apply B in Hin. destruct Hin as (k & Hk & Hm).
                 exists k. split; [right|]; auto.
           ++ intros (k & [[= <-]|Hk] & Hm).
              ** left. congruence.
              ** right. apply B. eauto.
        -- apply Hskip; [reflexivity | | cbn [collect]; rewrite Hb; reflexivity].
           intros k b [= <-]. congruence.
      * apply Hskip; [reflexivity | discriminate | reflexivity].
    + destruct ((key =? K_ESCAPE) || (key =? K_q))%Z%bool eqn:Hk.
      * apply Hquit; [exact Hk | cbn [collect]; rewrite Hk; reflexivity
                     | discriminate].
      * apply Hskip; [exact Hk | discriminate
                     | cbn [collect]; rewrite Hk; reflexivity].
    + apply Hskip; [reflexivity | discriminate | reflexivity].
Qed.

(** ** The events as delivered *)

Lemma py_getitem_known {A : Type} (l : list A) (i : Z) :
  ((- len l <=? i) && (i <? len l))%Z = true ->
  exists a, py_getitem l i = Ok a.
Proof.
  unfold len, py_getitem. intros H. apply andb_true_iff in H.
  destruct H as [H1 H2]. apply Z.leb_le in H1. apply Z.ltb_lt in H2.
  set (n := Z.of_nat (List.length l)) in *.
  set (j := if (i <? 0)%Z then (n + i)%Z else i).
  assert (Hj : (0 <= j < n)%Z).
  { unfold j. destruct (Z.ltb_spec i 0); lia. }
  destruct (Z.ltb_spec j 0); [lia|].
  destruct (Z.leb_spec n j); [lia|]. cbn [orb].
  destruct (nth_error l (Z.to_nat j)) as [a|] eqn:E; [eauto|].
  apply nth_error_None in E. lia.
Qed.

Lemma py_getitem_unknown {A : Type} (l : list A) (i : Z) :
  ((- len l <=? i) && (i <? len l))%Z = false ->
  py_getitem l i = Raise IndexError.
Proof.
  unfold len, py_getitem. intros H. apply andb_false_iff in H.
  set (n := Z.of_nat (List.length l)) in *.
  set (j := if (i <? 0)%Z then (n + i)%Z else i).
  assert (Hn : (0 <= n)%Z) by (unfold n; lia).
  assert (Hj : (j < 0 \/ n <= j)%Z).
  { unfold j. destruct H as [H|H].
    - apply Z.leb_gt in H. destruct (Z.ltb_spec i 0); lia.
    - apply Z.ltb_ge in H. destruct (Z.ltb_spec i 0); lia. }
  destruct (Z.ltb_spec j 0); [reflexivity|].
  destruct (Z.leb_spec n j); [reflexivity | lia].
Qed.

(** The loop of [main] is [collect] on the events with their joystick
    tests evaluated, and raises when one of the tests does. *)
Lemma collect_events_observe (joysticks : list nat) (active_joystick : nat)
      (events : list RawEvent) :
  forall q0,
    collect_events joysticks active_joystick events q0
    = (seen <- observe_all joysticks active_joystick events ;;
       Ok (collect seen q0)).
Proof.
  induction events as [|ev events IH]; intros q0;
    cbn [collect_events observe_all]; [reflexivity|].
  destruct ev as [|instance_id button|key|]; cbn [observe bind].
  - rewrite IH.
    destruct (observe_all joysticks active_joystick events); reflexivity.
  - destruct (is_active_joystick joysticks active_joystick instance_id)
      as [[|]|e]; cbn [bind]; [| |reflexivity].
    + destruct (button_map_get button_map button) as [b|] eqn:Hb;
        rewrite IH;
        destruct (observe_all joysticks active_joystick events);
        cbn [bind collect]; rewrite ?Hb; reflexivity.
    + rewrite IH.
      destruct (observe_all joysticks active_joystick events); reflexivity.
  - destruct ((key =? K_ESCAPE) || (key =? K_q))%Z%bool eqn:Hk; rewrite IH;
      destruct (observe_all joysticks active_joystick events);
      cbn [bind collect]; rewrite ?Hk; reflexivity.
  - rewrite IH.
    destruct (observe_all joysticks active_joystick events); reflexivity.
Qed.

Lemma observe_all_unknown (joysticks : list nat) (active_joystick : nat)
      (events : list RawEvent) :
  forallb (instance_known joysticks) events = false ->
  observe_all joysticks active_joystick events = Raise IndexError.
Proof.
  induction events as [|ev events IH]; cbn [forallb observe_all];
    [discriminate|].
  intros H. apply andb_false_iff in H.
  destruct (instance_known joysticks ev) eqn:Hk.
  - destruct H as [H|H]; [discriminate|]. rewrite (IH H).
    destruct ev as [|instance_id button|key|]; cbn [observe bind];
      try reflexivity.
    cbn [instance_known] in Hk. unfold is_active_joystick.
    destruct (py_getitem_known joysticks instance_id Hk) as (j & ->).
    reflexivity.
  - destruct ev as [|instance_id button|key|]; try discriminate.
    cbn [observe instance_known] in *. unfold is_active_joystick.
    rewrite (py_getitem_unknown _ _ Hk). reflexivity.
Qed.

Lemma observe_all_known (joysticks : list nat) (active_joystick : nat)
      (events : list RawEvent) :
  forallb (instance_known joysticks) events = true ->
  exists seen,
    observe_all joysticks active_joystick events = Ok seen /\
    List.length seen = List.length events /\
    existsb asks_to_quit seen = existsb raw_asks_to_quit events /\
    (forall k, In (JOYBUTTONDOWN true k) seen <->
               exists instance_id,
                 In (RAW_JOYBUTTONDOWN instance_id k) events /\
                 is_active_joystick joysticks active_joystick instance_id
                 = Ok true).
Proof.
  induction events as [|ev events IH]; cbn [forallb observe_all].
  - intros _. exists []. split; [reflexivity|]. split; [reflexivity|].
    split; [reflexivity|]. intros k. split; [intros [] | intros (i & [] & _)].
  - intros H. apply andb_true_iff in H. destruct H as [Hk H].
    destruct (IH H) as (seen & Hs & Hl & Hq & Hb). rewrite Hs.
    assert (Hother :
      forall pe,
        observe joysticks active_joystick ev = Ok pe ->
        asks_to_quit pe = raw_asks_to_quit ev ->
        (forall k, pe = JOYBUTTONDOWN true k <->
                   exists instance_id,
                     ev = RAW_JOYBUTTONDOWN instance_id k /\
                     is_active_joystick joysticks active_joystick instance_id
                     = Ok true) ->
        exists seen',
          (seen0 <- observe joysticks active_joystick ev ;;
           others <- Ok seen ;; Ok (seen0 :: others)) = Ok seen' /\
          List.length seen' = List.length (ev :: events) /\
          existsb asks_to_quit seen'
          = existsb raw_asks_to_quit (ev :: events) /\
          (forall k, In (JOYBUTTONDOWN true k) seen' <->
                     exists instance_id,
                       In (RAW_JOYBUTTONDOWN instance_id k) (ev :: events) /\
                       is_active_joystick joysticks active_joystick
                                          instance_id = Ok true)).
    { intros pe Hpe Hqe Hbe. exists (pe :: seen). rewrite Hpe. cbn [bind].
      split; [reflexivity|]. cbn [List.length existsb].
      split; [congruence|]. split; [congruence|].
      intros k. cbn [In]. split.
      - intros [Hhead | Hin].
        + apply Hbe in Hhead. destruct Hhead as (i & Hev & Hi).
          exists i. auto.
        + apply Hb in Hin. destruct Hin as (i & Hin & Hi). exists i. auto.
      - intros (i & [Hev | Hin] & Hi).
        + left. apply Hbe. exists i. auto.
        + right. apply Hb. exists i. auto. }
    destruct ev as [|instance_id button|key|].
    + apply (Hother QUIT); [reflexivity | reflexivity|].
      intros k. split; [discriminate | intros (i & Hi & _); discriminate].
    + cbn [instance_known] in Hk.
      destruct (py_getitem_known joysticks instance_id Hk) as (j & Hj).
      assert (Ha : is_active_joystick joysticks active_joystick instance_id
                   = Ok (j =? active_joystick)%nat).
      { unfold is_active_joystick. rewrite Hj. reflexivity. }
      apply (Hother (JOYBUTTONDOWN (j =? active_joystick)%nat button));
        [cbn [observe]; rewrite Ha; reflexivity | reflexivity|].
      intros k. split.
      * intros [= Hjt <-]. exists instance_id. split; [reflexivity|].
        rewrite Ha, Hjt. reflexivity.
      * intros (i & [= <- <-] & Hi). rewrite Ha in Hi.
        injection Hi as ->. reflexivity.
    + apply (Hother (KEYDOWN key)); [reflexivity | reflexivity|].
      intros k. split; [discriminate | intros (i & Hi & _); discriminate].
    + apply (Hother OTHER); [reflexivity | reflexivity|].
      intros k. split; [discriminate | intros (i & Hi & _); discriminate].
Qed.



(** ** A frame runs to its end *)

Lemma run_frame_ok (paths : Paths) (events : list PygameEvent) (w : World)
      (s : State) :
  round_inv w s ->
  exists w1 s1,
    run_frame paths events w s = Some (Ok (w1, s1)) /\ round_inv w1 s1.
Proof.
  intros Hinv. pose proof Hinv as (Hlen & _).
  destruct (drain_ok_on_eight paths _ w s (collect events []) (le_n _) Hlen)
    as (w1 & s1 & H).
  exists w1, s1. split; [exact H|].
  eapply (drain_invariant paths round_inv); [|exact Hinv|exact H].
  intros; eapply handle_round_inv; eauto.
Qed.

Lemma run_frame_events_observe (paths : Paths) (joysticks : list nat)
      (active_joystick : nat) (events : list RawEvent) (w : World)
      (s : State) :
  run_frame_events paths joysticks active_joystick events w s
  = match observe_all joysticks active_joystick events with
    | Raise e => Some (Raise e)
    | Ok seen => run_frame paths seen w s
    end.
Proof.
  unfold run_frame_events, run_frame. rewrite collect_events_observe.
  destruct (observe_all joysticks active_joystick events); reflexivity.
Qed.

(** X11: from every state [main] reaches, a frame whose button presses
    all carry an instance id that is an index of [joysticks] runs to its
    end: the drain raises nothing, empties the queue and leaves a state
    [main] reaches.  A frame with an instance id that is no index of
    [joysticks] raises [IndexError] while the queue is built, before
    anything is handled. *)
Theorem every_frame_runs_to_its_end
        (paths : Paths) (joysticks : list nat) (active_joystick : nat)
        (w0 w : World) (s : State) (events : list RawEvent)
        (Hr : rnd_in_range w0) (Hc : clock_monotone w0)
        (Hreach : main_reaches paths w0 w s)
        (Hrun : received_quit s = false) :
  (forallb (instance_known joysticks) events = true ->
   exists w1 s1,
     run_frame_events paths joysticks active_joystick events w s
     = Some (Ok (w1, s1)) /\
     main_reaches paths w0 w1 s1) /\
  (forallb (instance_known joysticks) events = false ->
   run_frame_events paths joysticks active_joystick events w s
   = Some (Raise IndexError)).
Proof.
  rewrite run_frame_events_observe. split; intros H.
  - destruct (observe_all_known joysticks active_joystick events H)
      as (seen & Hs & _).
    rewrite Hs.
    destruct (run_frame_ok paths seen w s) as (w1 & s1 & Hf & _).
    + eapply main_reaches_round_inv; eauto.
    + exists w1, s1. split; [exact Hf|]. eapply reaches_frame; eauto.
  - rewrite (observe_all_unknown _ _ _ H). reflexivity.
Qed.

Lemma demo_main_start :
  exists s w, main_start (demo_world 0) = Ok (s, w) /\
              received_quit s = false.
Proof. eexists _, _. split; [vm_compute; reflexivity | reflexivity]. Defined.

Lemma every_frame_runs_to_its_end_witness :
  rnd_in_range (demo_world 0) /\ clock_monotone (demo_world 0) /\
  exists s w w1 s1,
    main_reaches Paths_init (demo_world 0) w s /\
    received_quit s = false /\
    forallb (instance_known [0]%nat)
            [RAW_KEYDOWN 113; RAW_JOYBUTTONDOWN 0 2] = true /\
    run_frame_events Paths_init [0]%nat 0
                     [RAW_KEYDOWN 113; RAW_JOYBUTTONDOWN 0 2] w s
    = Some (Ok (w1, s1)) /\
    forallb (instance_known [0]%nat) [RAW_JOYBUTTONDOWN 1 2] = false /\
    run_frame_events Paths_init [0]%nat 0 [RAW_JOYBUTTONDOWN 1 2] w s
    = Some (Raise IndexError).
Proof.
  split; [apply demo_rnd_in_range|]. split; [apply demo_clock_monotone|].
  destruct demo_main_start as (s & w & Hs & Hq).
  pose proof (reaches_start Paths_init (demo_world 0) w s Hs) as Hreach.
  destruct (proj1 (every_frame_runs_to_its_end Paths_init [0]%nat 0
                     (demo_world 0) w s
                     [RAW_KEYDOWN 113; RAW_JOYBUTTONDOWN 0 2]
                     (demo_rnd_in_range 0) (demo_clock_monotone 0)
                     Hreach Hq) eq_refl)
    as (w1 & s1 & H & _).
  exists s, w, w1, s1. split; [exact Hreach|]. split; [exact Hq|].
  split; [reflexivity|]. split; [exact H|]. split; [reflexivity|].
  exact (proj2 (every_frame_runs_to_its_end Paths_init [0]%nat 0
                  (demo_world 0) w s [RAW_JOYBUTTONDOWN 1 2]
                  (demo_rnd_in_range 0) (demo_clock_monotone 0)
                  Hreach Hq) eq_refl).
Defined.

(** ** Quitting *)

Lemma drain_received_quit (paths : Paths) (fuel : nat) (w : World)
      (s : State) (q : list Event) (w1 : World) (s1 : State) :
  drain paths fuel w s q = Some (Ok (w1, s1)) ->
  (received_quit s1 = true <->
   received_quit s = true \/ In ReceivedQuit q).
Proof.
  intros H.
  apply (drain_invariant_queue paths
           (fun _ s' q' =>
              (received_quit s' = true \/ In ReceivedQuit q') <->
              (received_quit s = true \/ In ReceivedQuit q)))
    with (w1 := w1) (s1 := s1) in H.
  - rewrite <- H. simpl. tauto.
  - intros wa sa e qa wb sb qb HP Hh. rewrite <- HP.
    apply handle_by_event in Hh. destruct e.
    + assert (E : received_quit sb = received_quit sa /\
                  (qb = qa \/ qb = qa ++ [GameOver])).
      { destruct (game_over sa); [destruct Hh as (-> & -> & _); auto|].
        destruct (Qgt_bool _ _).
        - destruct Hh as (-> & -> & _); auto.
        - destruct Hh as (-> & ms & mi & _ & ->); auto. }
      destruct E as [-> [-> | ->]]; [simpl; intuition discriminate|].
      rewrite in_app_iff. simpl. intuition discriminate.
    + destruct Hh as (-> & ->). simpl. tauto.
    + destruct Hh as (-> & [-> | (m & _ & _ & _ & -> & _)]); simpl;
        intuition discriminate.
    + destruct Hh as (-> & ->). simpl. intuition discriminate.
  - tauto.
Qed.

(** X12: a frame started with [received_quit] clear ends with it set
    exactly when one of its pygame events closed the window or pressed
    ESC or q, which is when the loop of [main] stops. *)
Theorem frame_quits_iff_asked
        (paths : Paths) (events : list PygameEvent) (w : World) (s : State)
        (w1 : World) (s1 : State)
        (Hrun : received_quit s = false)
        (H : run_frame paths events w s = Some (Ok (w1, s1))) :
  received_quit s1 = true <-> existsb asks_to_quit events = true.
Proof.
  unfold run_frame in H. apply drain_received_quit in H. rewrite H.
  destruct (collect_shape events []) as (inputs & E & _ & _ & Q & _).
  rewrite E, <- Q. simpl. rewrite in_app_iff. simpl.
  rewrite Hrun. intuition discriminate.
Qed.

Lemma frame_quits_iff_asked_witness :
  received_quit demo_state = false /\
  exists w1 s1,
    run_frame Paths_init [OTHER; KEYDOWN 27] (demo_world 13) demo_state
    = Some (Ok (w1, s1)) /\
    received_quit s1 = true.
Proof.
  split; [reflexivity|].
  assert (H : exists w1 s1,
             run_frame Paths_init [OTHER; KEYDOWN 27] (demo_world 13)
                       demo_state = Some (Ok (w1, s1)))
    by (eexists _, _; vm_compute; reflexivity).
  destruct H as (w1 & s1 & H). exists w1, s1. split; [exact H|].
  apply (frame_quits_iff_asked Paths_init [OTHER; KEYDOWN 27] (demo_world 13)
           demo_state w1 s1 eq_refl H).
  reflexivity.
Defined.

(** ** The end of the round *)

Lemma drain_frame_game_over (paths : Paths) (fuel : nat) (w : World)
      (s : State) (pre : list Event) (w1 : World) (s1 : State) :
  forallb is_input pre = true ->
  (game_over s = true -> game_end s < now s) ->
  (game_over s = false -> now s <= game_end s) ->
  drain paths fuel w s (pre ++ [Tick]) = Some (Ok (w1, s1)) ->
  (game_over s1 = true -> game_end s1 < now s1) /\
  (game_over s1 = false -> now s1 <= game_end s1).
Proof.
  intros Hpre Hover Hplay H.
  apply (drain_invariant_queue paths
           (fun _ s' q' =>
              (game_over s' = true -> game_end s' < now s') /\
              ((exists pre', q' = pre' ++ [Tick] /\
                             forallb is_input pre' = true /\
                             (game_over s' = false ->
                              now s' <= game_end s')) \/
               (q' = [GameOver] /\ game_end s' < now s') \/
               (q' = [] /\
                (game_over s' = false -> now s' <= game_end s')))))
    with (w1 := w1) (s1 := s1) in H.
  - destruct H as (A & [(p & E & _) | [(E & _) | (_ & B)]]).
    + destruct p; discriminate.
    + discriminate.
    + auto.
  - clear. intros wa sa e qa wb sb qb (A & HP) Hh.
    apply handle_by_event in Hh.
    destruct HP as [(p & E & Fp & B) | [(E & B) | (E & _)]];
      [| |discriminate].
    + destruct p as [|e' p]; cbn [app] in E; injection E as -> ->.
      * destruct (game_over sa) eqn:Hov.
        -- destruct Hh as (-> & -> & _). split; [intros _; auto|].
           right; right. split; [reflexivity | congruence].
        -- destruct (Qgt_bool (next_now wa) (game_end sa)) eqn:Hlate.
           ++ destruct Hh as (-> & -> & _). cbn.
              apply Qgt_bool_true in Hlate.
              split; [congruence|]. right; left. auto.
           ++ destruct Hh as (-> & ms & mi & _ & ->). cbn.
              apply Qgt_bool_false in Hlate.
              split; [congruence|]. right; right. auto.
      * cbn [forallb] in Fp. apply andb_true_iff in Fp.
        destruct Fp as [Fe Fp]. destruct e'; try discriminate.
        -- destruct Hh as (-> & ->). cbn. split; [exact A|].
           left. exists p. auto.
        -- destruct Hh as (-> & [-> | (m & _ & _ & _ & -> & _)]); cbn;
             (split; [exact A|]); left; exists p; auto.
    + injection E as -> ->. destruct Hh as (-> & ->). cbn.
      split; [auto|]. right; right. split; [reflexivity | discriminate].
  - split; [exact Hover|]. left. exists pre. auto.
Qed.

Lemma main_reaches_game_over (paths : Paths) (w0 w : World) (s : State) :
  main_reaches paths w0 w s ->
  (game_over s = true -> game_end s < now s) /\
  (game_over s = false -> now s <= game_end s).
Proof.
  induction 1 as [w s H|w s events w1 s1 _ IH _ H].
  - unfold main_start in H. destruct (time_time w0) as [t wa].
    apply State_init_fields in H.
    destruct H as (_ & -> & _ & _ & -> & _ & -> & Hle & _).
    split; [discriminate | auto].
  - unfold run_frame in H.
    destruct (collect_shape events []) as (inputs & E & F & _).
    rewrite E in H. simpl in H. destruct IH as [A B].
    eapply drain_frame_game_over; eauto.
Qed.

(** X13: in every state [main] reaches, [game_over] is set exactly when
    [now] is past [game_end]: the round ends in the very frame whose tick
    first reads the clock past [game_end], and not before. *)
Theorem game_over_iff_past_game_end
        (paths : Paths) (w0 w : World) (s : State)
        (Hreach : main_reaches paths w0 w s) :
  game_over s = true <-> game_end s < now s.
Proof.
  destruct (main_reaches_game_over _ _ _ _ Hreach) as [A B].
  split; [exact A|]. intros Hlate.
  destruct (game_over s); [reflexivity|].
  exfalso. apply (Qlt_not_le _ _ Hlate). auto.
Qed.

Lemma game_over_iff_past_game_end_witness :
  exists w s,
    main_reaches Paths_init (demo_world 0) w s /\
    (game_over s = true <-> game_end s < now s).
Proof.
  destruct demo_main_reaches as (w & s & Hreach & _).
  exists w, s. split; [exact Hreach|].
  exact (game_over_iff_past_game_end _ _ _ _ Hreach).
Defined.

(** ** The whole loop *)

Lemma render_ok (display : Display) (w : World) (s : State) :
  round_inv w s ->
  exists screen,
    render Paths_init display s = Ok screen /\
    (screen = QuittingScreen <-> received_quit s = true).
Proof.
  intros Hinv. unfold render. destruct (received_quit s).
  - exists QuittingScreen. split; [reflexivity | tauto].
  - destruct (game_over s).
    + eexists. split; [reflexivity|]. split; discriminate.
    + destruct (render_game_ok Paths_init w s Paths_init_images) as
        (scene & Hs & _); [discriminate | exact Hinv |].
      rewrite Hs. cbn [bind]. eexists. split; [reflexivity|].
      split; discriminate.
Qed.

Lemma main_loop_ok (display : Display) (joysticks : list nat)
      (active_joystick : nat) (frames : list (list RawEvent)) :
  Forall (fun events => forallb (instance_known joysticks) events = true)
         frames ->
  forall w s,
    round_inv w s ->
    exists screens w1 s1,
      main_loop Paths_init display joysticks active_joystick frames w s
      = Some (Ok (screens, w1, s1)) /\
      (List.length screens <= List.length frames)%nat /\
      ((List.length screens < List.length frames)%nat ->
       received_quit s1 = true) /\
      (forall i, (i < List.length screens)%nat ->
         (nth_error screens i = Some QuittingScreen <->
          S i = List.length screens /\ received_quit s1 = true)).
Proof.
  induction 1 as [|events frames Hknown Hrest IH]; intros w s Hinv.
  - exists [], w, s. simpl. repeat split; try lia; intros; lia.
  - cbn [main_loop]. destruct (received_quit s) eqn:Hq.
    + exists [], w, s. simpl. repeat split; try lia; auto; intros; lia.
    + rewrite run_frame_events_observe.
      destruct (observe_all_known joysticks active_joystick events Hknown)
        as (seen & Hseen & _).
      rewrite Hseen.
      destruct (run_frame_ok Paths_init seen w s Hinv)
        as (wa & sa & Hf & Hinva).
      rewrite Hf.
      destruct (render_ok display wa sa Hinva) as (screen & Hs & Hquit).
      rewrite Hs.
      destruct (IH wa sa Hinva) as (screens & w1 & s1 & Hl & Hlen & Hstop & Hi).
      rewrite Hl. exists (screen :: screens), w1, s1.
      split; [reflexivity|]. cbn [List.length].
      split; [lia|]. split; [intros; apply Hstop; lia|].
      assert (Hearly : received_quit sa = true ->
                       screens = [] /\ s1 = sa).
      { intros Hqa. destruct frames; cbn [main_loop] in Hl.
        - injection Hl as <- _ <-. auto.
        - rewrite Hqa in Hl. injection Hl as <- _ <-. auto. }
      assert (Hlast : screens = [] -> received_quit s1 = received_quit sa).
      { intros ->. destruct frames as [|events' frames];
          cbn [main_loop] in Hl.
        - injection Hl as _ <-. reflexivity.
        - destruct (received_quit sa) eqn:Hqa.
          + injection Hl as _ <-. exact Hqa.
          + exfalso.
            destruct (run_frame_events Paths_init joysticks active_joystick
                                       events' wa sa)
              as [[[wb sb]|]|]; try discriminate.
            destruct (render Paths_init display sb); try discriminate.
            destruct (main_loop Paths_init display joysticks
                                active_joystick frames wb sb)
              as [[[[? ?] ?]|]|]; discriminate. }
      intros [|i] Hlt; cbn [nth_error].
      * split.
        -- intros [= ->]. destruct (Hearly (proj1 Hquit eq_refl)) as [-> ->].
           split; [reflexivity | apply Hquit; reflexivity].
        -- intros [Hone Hq1]. f_equal. apply Hquit.
           destruct screens; [|simpl in Hone; lia].
           rewrite <- (Hlast eq_refl). exact Hq1.
      * rewrite Hi by lia. split; intros [A B]; split; auto; lia.
Qed.

(** Whatever the frames, the loop ends, and the only exception it can
    raise is the [IndexError] of a frame with an instance id that is no
    index of [joysticks]. *)
Lemma main_loop_raises (display : Display) (joysticks : list nat)
      (active_joystick : nat) (frames : list (list RawEvent)) :
  forall w s,
    round_inv w s ->
    exists r,
      main_loop Paths_init display joysticks active_joystick frames w s
      = Some r /\
      forall e, r = Raise e ->
                e = IndexError /\
                Exists (fun events =>
                          forallb (instance_known joysticks) events = false)
                       frames.
Proof.
  induction frames as [|events frames IH]; intros w s Hinv;
    cbn [main_loop].
  - eexists. split; [reflexivity | discriminate].
  - destruct (received_quit s); [eexists; split; [reflexivity|discriminate]|].
    rewrite run_frame_events_observe.
    destruct (forallb (instance_known joysticks) events) eqn:Hknown.
    + destruct (observe_all_known joysticks active_joystick events Hknown)
        as (seen & Hseen & _).
      rewrite Hseen.
      destruct (run_frame_ok Paths_init seen w s Hinv)
        as (wa & sa & Hf & Hinva).
      rewrite Hf.
      destruct (render_ok display wa sa Hinva) as (screen & Hs & _).
      rewrite Hs.
      destruct (IH wa sa Hinva) as (r & Hl & Hr). rewrite Hl.
      destruct r as [[[screens w1] s1]|e].
      * eexists. split; [reflexivity | discriminate].
      * exists (Raise e). split; [reflexivity|].
        intros e' [= <-]. destruct (Hr e eq_refl) as [-> Hex].
        split; [reflexivity | right; exact Hex].
    + rewrite (observe_all_unknown _ _ _ Hknown).
      exists (Raise IndexError). split; [reflexivity|].
      intros e [= <-]. split; [reflexivity | left; exact Hknown].
Qed.

(** X14: started from any clock that never runs backwards and any draws
    of [[0, 1)], the game constructs its state, and on frames whose
    button presses all carry an instance id that is an index of
    [joysticks] it runs without raising: each frame is drained and
    rendered, the loop stops only once [received_quit] is set, and the
    quitting screen is shown once, as the last screen, exactly when the
    loop has been asked to quit.  On any frames the loop ends, and the
    only exception it can raise is the [IndexError] of a frame with an
    instance id that is no index of [joysticks]. *)
Theorem main_loop_never_raises (w0 : World)
        (Hr : rnd_in_range w0) (Hc : clock_monotone w0) :
  exists s w,
    main_start w0 = Ok (s, w) /\
    forall display joysticks active_joystick frames,
      (Forall (fun events =>
                 forallb (instance_known joysticks) events = true) frames ->
       exists screens w1 s1,
         main_loop Paths_init display joysticks active_joystick frames w s
         = Some (Ok (screens, w1, s1)) /\
         (List.length screens <= List.length frames)%nat /\
         ((List.length screens < List.length frames)%nat ->
          received_quit s1 = true) /\
         (forall i, (i < List.length screens)%nat ->
            (nth_error screens i = Some QuittingScreen <->
             S i = List.length screens /\ received_quit s1 = true))) /\
      (exists r,
         main_loop Paths_init display joysticks active_joystick frames w s
         = Some r /\
         forall e, r = Raise e ->
                   e = IndexError /\
                   Exists (fun events =>
                             forallb (instance_known joysticks) events
                             = false) frames).
Proof.
  assert (Hs : exists s w, main_start w0 = Ok (s, w)).
  { unfold main_start, time_time.
    destruct (State_init_ok (clock w0 (clock_pos w0))
                (clock w0 (clock_pos w0) + game_duration)
                (mkWorld (clock w0) (S (clock_pos w0)) (rnd w0) (rnd_pos w0)
                         (played w0)))
      as (s & w & H & _); [unfold game_duration; lra | exact Hr | eauto]. }
  destruct Hs as (s & w & Hs). exists s, w. split; [exact Hs|].
  pose proof (main_start_round_inv _ _ _ Hr Hc Hs) as Hinv.
  intros display joysticks active_joystick frames. split.
  - intros Hknown. apply main_loop_ok; assumption.
  - apply main_loop_raises. exact Hinv.
Qed.

Lemma main_loop_never_raises_witness :
  rnd_in_range (demo_world 0) /\ clock_monotone (demo_world 0) /\
  Forall (fun events => forallb (instance_known [0]%nat) events = true)
         [[RAW_JOYBUTTONDOWN 0 6]; [RAW_QUIT]; [RAW_OTHER]] /\
  exists s w screens w1 s1,
    main_start (demo_world 0) = Ok (s, w) /\
    main_loop Paths_init (mkDisplay 1080 40 40 40) [0]%nat 0
              [[RAW_JOYBUTTONDOWN 0 6]; [RAW_QUIT]; [RAW_OTHER]] w s
    = Some (Ok (screens, w1, s1)) /\
    (List.length screens <= 3)%nat /\
    main_loop Paths_init (mkDisplay 1080 40 40 40) [0]%nat 0
              [[RAW_JOYBUTTONDOWN 5 6]] w s
    = Some (Raise IndexError).
Proof.
  split; [apply demo_rnd_in_range|]. split; [apply demo_clock_monotone|].
  assert (Hk : Forall (fun events =>
                         forallb (instance_known [0]%nat) events = true)
                      [[RAW_JOYBUTTONDOWN 0 6]; [RAW_QUIT]; [RAW_OTHER]])
    by (repeat constructor).
  split; [exact Hk|].
  destruct (main_loop_never_raises (demo_world 0) (demo_rnd_in_range 0)
              (demo_clock_monotone 0)) as (s & w & Hs & Hloop).
  destruct (proj1 (Hloop (mkDisplay 1080 40 40 40) [0]%nat 0%nat
                         [[RAW_JOYBUTTONDOWN 0 6]; [RAW_QUIT]; [RAW_OTHER]])
                  Hk)
    as (screens & w1 & s1 & Hl & Hlen & _).
  exists s, w, screens, w1, s1. split; [exact Hs|]. split; [exact Hl|].
  split; [exact Hlen|].
  vm_compute in Hs. injection Hs as <- <-. vm_compute. reflexivity.
Defined.

(** * The game-over screen *)

Lemma int_div_nonneg (i n : Z) :
  (0 <= i)%Z -> (0 < n)%Z -> int (inject_Z i / inject_Z n) = (i / n)%Z.
Proof.
  intros Hi Hn. destruct n as [|p|p]; try lia.
  unfold int, Qdiv, Qmult, Qinv, inject_Z. simpl.
  rewrite Z.mul_1_r. apply Z.quot_div_nonneg; lia.
Qed.

Lemma one_percent_positive (display : Display) :
  (1 <= one_percent display)%Z.
Proof. unfold one_percent. lia. Qed.

Lemma draw_vegetables_nth (onepw : Z) (origin : Z * Z) (score0 : Z)
      (images : list string) :
  forall i k v,
    (0 <= i)%Z ->
    nth_error (draw_vegetables onepw origin score0 i images) k = Some v ->
    nth_error images k = Some (vegetable_image v) /\
    vegetable_xy v
    = ((fst origin + onepw * 22 * ((i + Z.of_nat k) mod 4))%Z,
       (snd origin + onepw * 22 * ((i + Z.of_nat k) / 4))%Z) /\
    vegetable_size v = (onepw * 20)%Z /\
    vegetable_lost v = (score0 <=? i + Z.of_nat k)%Z.
Proof.
  induction images as [|img images IH]; intros i k v Hi;
    cbn [draw_vegetables].
  - destruct k; discriminate.
  - destruct k as [|k]; cbn [nth_error].
    + intros [= <-]. cbn. rewrite Z.add_0_r.
      change 4 with (inject_Z 4). rewrite int_div_nonneg by lia. auto.
    + intros H. apply IH in H; [|lia].
      replace (i + Z.of_nat (S k))%Z with (i + 1 + Z.of_nat k)%Z by lia.
      exact H.
Qed.

Lemma draw_vegetables_length (onepw : Z) (origin : Z * Z) (score0 : Z)
      (images : list string) :
  forall i, List.length (draw_vegetables onepw origin score0 i images)
            = List.length images.
Proof.
  induction images as [|img images IH]; intros i; cbn; auto.
Qed.

Lemma draw_vegetables_saved (onepw : Z) (origin : Z * Z) (score0 : Z)
      (images : list string) :
  forall i,
    Z.of_nat (List.length
                (filter (fun v => negb (vegetable_lost v))
                        (draw_vegetables onepw origin score0 i images)))
    = Z.max 0 (Z.min (score0 - i) (len images)).
Proof.
  unfold len.
  induction images as [|img images IH]; intros i; cbn [draw_vegetables].
  - simpl. lia.
  - cbn [filter vegetable_lost]. specialize (IH (i + 1)%Z).
    destruct (Z.leb_spec score0 i); cbn [negb List.length];
      rewrite ?Nat2Z.inj_succ; lia.
Qed.

(** X15: on the game-over screen every vegetable image is drawn once, in
    order; with [misses] not negative, the vegetables left unspoiled are
    the first [max(len - misses, 0)], which is the number shown as saved,
    and the number filled red is [min(misses, len)]. *)
Theorem game_over_screen_counts_vegetables
        (paths : Paths) (display : Display) (s : State)
        (Hmisses : (0 <= misses s)%Z) :
  let screen := render_game_over paths display s in
  final_score screen = score s /\
  map vegetable_image (vegetables screen) = vegetable_images paths /\
  vegetable_score screen
  = Z.max (len (vegetable_images paths) - misses s) 0 /\
  Z.of_nat (List.length (filter (fun v => negb (vegetable_lost v))
                                (vegetables screen)))
  = vegetable_score screen /\
  Z.of_nat (List.length (filter vegetable_lost (vegetables screen)))
  = Z.min (misses s) (len (vegetable_images paths)) /\
  (forall k v, nth_error (vegetables screen) k = Some v ->
               vegetable_lost v = (vegetable_score screen <=? Z.of_nat k)%Z).
Proof.
  cbn zeta. unfold render_game_over.
  cbn [final_score vegetable_score vegetables].
  set (onepw := one_percent display).
  set (origin := (_, _)).
  set (vs := Z.max (len (vegetable_images paths) - misses s) 0).
  set (drawn := draw_vegetables onepw origin vs 0 (vegetable_images paths)).
  assert (Hsaved := draw_vegetables_saved onepw origin vs
                      (vegetable_images paths) 0).
  fold drawn in Hsaved.
  assert (Hlen := draw_vegetables_length onepw origin vs
                    (vegetable_images paths) 0).
  fold drawn in Hlen.
  assert (Hl0 : (0 <= len (vegetable_images paths))%Z) by (unfold len; lia).
  split; [reflexivity|]. split; [|split; [reflexivity|split; [|split]]].
  - apply nth_error_ext. intros k. rewrite nth_error_map.
    destruct (nth_error drawn k) as [v|] eqn:Hk.
    + apply draw_vegetables_nth in Hk; [|lia]. destruct Hk as (-> & _).
      reflexivity.
    + apply nth_error_None in Hk. rewrite Hlen in Hk.
      symmetry. apply nth_error_None. exact Hk.
  - rewrite Hsaved. lia.
  - pose proof (filter_length vegetable_lost drawn) as Hp.
    unfold len in *. lia.
  - intros k v Hk. apply draw_vegetables_nth in Hk; [|lia].
    destruct Hk as (_ & _ & _ & ->). reflexivity.
Qed.

Lemma game_over_screen_counts_vegetables_witness :
  (0 <= misses demo_state_over)%Z /\
  vegetable_score
    (render_game_over Paths_init (mkDisplay 1080 40 40 40) demo_state_over)
  = 11%Z.
Proof.
  split; [discriminate|].
  exact (proj1 (proj2 (proj2
           (game_over_screen_counts_vegetables Paths_init
              (mkDisplay 1080 40 40 40) demo_state_over
              ltac:(discriminate))))).
Defined.

(** X16: the vegetables of the game-over screen are laid out four to a
    row on a grid of 22 hundredths of the surface height, each 20
    hundredths wide and high, so that no two of them overlap. *)
Theorem game_over_vegetables_do_not_overlap
        (paths : Paths) (display : Display) (s : State) (k1 k2 : nat)
        (v1 v2 : Vegetable)
        (H1 : nth_error (vegetables (render_game_over paths display s)) k1
              = Some v1)
        (H2 : nth_error (vegetables (render_game_over paths display s)) k2
              = Some v2)
        (Hk : k1 <> k2) :
  boxes_disjoint
    (fst (vegetable_xy v1), snd (vegetable_xy v1),
     fst (vegetable_xy v1) + vegetable_size v1,
     snd (vegetable_xy v1) + vegetable_size v1)%Z
    (fst (vegetable_xy v2), snd (vegetable_xy v2),
     fst (vegetable_xy v2) + vegetable_size v2,
     snd (vegetable_xy v2) + vegetable_size v2)%Z.
Proof.
  unfold render_game_over in H1, H2. cbn [vegetables] in H1, H2.
  pose proof (one_percent_positive display) as Hp.
  set (onepw := one_percent display) in *.
  apply draw_vegetables_nth in H1; [|lia].
  apply draw_vegetables_nth in H2; [|lia].
  destruct H1 as (_ & -> & -> & _). destruct H2 as (_ & -> & -> & _).
  cbn [boxes_disjoint fst snd]. rewrite !Z.add_0_l.
  pose proof (Z.div_mod (Z.of_nat k1) 4 ltac:(lia)).
  pose proof (Z.div_mod (Z.of_nat k2) 4 ltac:(lia)).
  pose proof (Z.mod_pos_bound (Z.of_nat k1) 4 ltac:(lia)).
  pose proof (Z.mod_pos_bound (Z.of_nat k2) 4 ltac:(lia)).
  set (c1 := (Z.of_nat k1 mod 4)%Z) in *.
  set (c2 := (Z.of_nat k2 mod 4)%Z) in *.
  set (r1 := (Z.of_nat k1 / 4)%Z) in *.
  set (r2 := (Z.of_nat k2 / 4)%Z) in *.
  assert (Hd : (c1 < c2 \/ c2 < c1 \/ r1 < r2 \/ r2 < r1)%Z) by lia.
  nia.
Qed.

Lemma game_over_vegetables_do_not_overlap_witness :
  exists v1 v2,
    nth_error (vegetables (render_game_over Paths_init
                             (mkDisplay 1080 40 40 40) demo_state_over)) 3
    = Some v1 /\
    nth_error (vegetables (render_game_over Paths_init
                             (mkDisplay 1080 40 40 40) demo_state_over)) 4
    = Some v2 /\
    3%nat <> 4%nat /\
    (snd (vegetable_xy v1) + vegetable_size v1 <= snd (vegetable_xy v2))%Z.
Proof.
  eexists _, _. split; [vm_compute; reflexivity|].
  split; [vm_compute; reflexivity|]. split; [discriminate|].
  pose proof (game_over_vegetables_do_not_overlap Paths_init
                (mkDisplay 1080 40 40 40) demo_state_over 3 4 _ _
                eq_refl eq_refl ltac:(discriminate)) as H.
  vm_compute. discriminate.
Defined.

(** X17: in every state [main] reaches, [score] and [misses] are not
    negative. *)
Theorem counters_never_negative (paths : Paths) (w0 w : World) (s : State)
        (Hreach : main_reaches paths w0 w s) :
  (0 <= score s)%Z /\ (0 <= misses s)%Z.
Proof. exact (main_reaches_counters paths w0 w s Hreach). Qed.

Lemma counters_never_negative_witness :
  exists w s,
    main_reaches Paths_init (demo_world 0) w s /\
    (0 <= score s)%Z /\ (0 <= misses s)%Z.
Proof.
  destruct demo_main_reaches as (w & s & Hreach & _).
  exists w, s. split; [exact Hreach|].
  exact (counters_never_negative _ _ _ _ Hreach).
Defined.

(** * The image cache *)

Section ImageCacheFacts.

Variable Surface : Type.
Variable pygame_image_load : string -> Surface.

Lemma cache_get_set_same (d : list (string * Surface)) (path : string)
      (image : Surface) :
  cache_get Surface (cache_set Surface d path image) path = Some image.
Proof.
  induction d as [|[k v] d IH]; simpl.
  - rewrite String.eqb_refl. reflexivity.
  - destruct (String.eqb k path) eqn:E; simpl; rewrite E; auto.
Qed.

Lemma cache_get_set_other (d : list (string * Surface)) (p1 p2 : string)
      (image : Surface) :
  p1 <> p2 ->
  cache_get Surface (cache_set Surface d p1 image) p2
  = cache_get Surface d p2.
Proof.
  intros Hne. induction d as [|[k v] d IH]; simpl.
  - destruct (String.eqb_spec p1 p2); [contradiction | reflexivity].
  - destruct (String.eqb_spec k p1) as [->|Hk]; simpl.
    + destruct (String.eqb_spec p1 p2); [contradiction | reflexivity].
    + rewrite IH. reflexivity.
Qed.

(** One request: a hit leaves the store alone, a miss reads the disk and
    caches what it read. *)
Lemma load_image_cases (store : ImageStore Surface) (path : string) :
  (exists image,
      cache_get Surface (IMAGE_CACHE store) path = Some image /\
      load_image_or_retrieve_from_cache Surface pygame_image_load store path
      = (image, store)) \/
  (cache_get Surface (IMAGE_CACHE store) path = None /\
   load_image_or_retrieve_from_cache Surface pygame_image_load store path
   = (pygame_image_load path,
      mkImageStore
        (cache_set Surface (IMAGE_CACHE store) path (pygame_image_load path))
        (path :: disk_loads store))).
Proof.
  unfold load_image_or_retrieve_from_cache.
  destruct (cache_get Surface (IMAGE_CACHE store) path) as [image|];
    [left; eauto | right; auto].
Qed.

Lemma miss_keeps_coherent (store : ImageStore Surface) (path : string) :
  cache_coherent Surface pygame_image_load store ->
  cache_coherent Surface pygame_image_load
    (mkImageStore
       (cache_set Surface (IMAGE_CACHE store) path (pygame_image_load path))
       (path :: disk_loads store)).
Proof.
  intros Hco p img. cbn [IMAGE_CACHE].
  destruct (String.eqb_spec path p) as [E|Hne].
  - subst p. rewrite cache_get_set_same. congruence.
  - rewrite cache_get_set_other by assumption. apply Hco.
Qed.

Lemma miss_keeps_loads_cached (store : ImageStore Surface) (path : string) :
  cache_get Surface (IMAGE_CACHE store) path = None ->
  loads_cached Surface store ->
  loads_cached Surface
    (mkImageStore
       (cache_set Surface (IMAGE_CACHE store) path (pygame_image_load path))
       (path :: disk_loads store)).
Proof.
  intros Hg [Hnd Hin]. split; cbn [IMAGE_CACHE disk_loads].
  - constructor; [|exact Hnd]. intros Hp. apply Hin in Hp. congruence.
  - intros p Hp. destruct (String.eqb_spec path p) as [E|Hne].
    + subst p. rewrite cache_get_set_same. discriminate.
    + rewrite cache_get_set_other by assumption.
      destruct Hp as [E|Hp]; [contradiction | auto].
Qed.

(** X18: with a cache that holds what is on disk, a request returns the
    image on disk under that path and leaves it cached; asking again
    returns the same image without reading the disk and without changing
    the cache; a path cached before is not read from disk, and what was
    cached stays cached with the same image. *)
Theorem image_is_loaded_then_cached
        (store : ImageStore Surface) (path : string)
        (Hco : cache_coherent Surface pygame_image_load store)
        (Hlc : loads_cached Surface store) :
  exists image store1,
    load_image_or_retrieve_from_cache Surface pygame_image_load store path
    = (image, store1) /\
    image = pygame_image_load path /\
    cache_coherent Surface pygame_image_load store1 /\
    loads_cached Surface store1 /\
    load_image_or_retrieve_from_cache Surface pygame_image_load store1 path
    = (image, store1) /\
    (forall p, cache_get Surface (IMAGE_CACHE store) p <> None ->
               cache_get Surface (IMAGE_CACHE store1) p
               = cache_get Surface (IMAGE_CACHE store) p) /\
    (cache_get Surface (IMAGE_CACHE store) path <> None -> store1 = store).
Proof.
  destruct (load_image_cases store path) as [(image & Hg & Hl) | (Hg & Hl)].
  - exists image, store. split; [exact Hl|]. split; [apply Hco, Hg|].
    split; [exact Hco|]. split; [exact Hlc|]. split; [exact Hl|]. auto.
  - eexists _, _. split; [exact Hl|]. split; [reflexivity|].
    split; [apply miss_keeps_coherent, Hco|].
    split; [apply miss_keeps_loads_cached; assumption|].
    split; [|split; [|congruence]].
    + unfold load_image_or_retrieve_from_cache.
      cbn [IMAGE_CACHE]. rewrite cache_get_set_same. reflexivity.
    + intros p Hp. cbn [IMAGE_CACHE]. apply cache_get_set_other. congruence.
Qed.

Lemma load_images_run (requests : list string) :
  forall store images store1,
    cache_coherent Surface pygame_image_load store ->
    loads_cached Surface store ->
    load_images Surface pygame_image_load store requests
    = (images, store1) ->
    images = map pygame_image_load requests /\
    cache_coherent Surface pygame_image_load store1 /\
    loads_cached Surface store1 /\
    (forall p, In p requests ->
               cache_get Surface (IMAGE_CACHE store1) p <> None) /\
    (forall p, cache_get Surface (IMAGE_CACHE store) p <> None ->
               cache_get Surface (IMAGE_CACHE store1) p <> None) /\
    (forall p, In p (disk_loads store1) <->
               In p (disk_loads store) \/
               (In p requests /\
                cache_get Surface (IMAGE_CACHE store) p = None)).
Proof.
  induction requests as [|path requests IH];
    intros store images store1 Hco Hlc; cbn [load_images].
  - intros [= <- <-]. split; [reflexivity|]. split; [exact Hco|].
    split; [exact Hlc|]. split; [intros p []|]. split; [auto|].
    intros p. cbn [In]. tauto.
  - destruct (load_image_cases store path)
      as [(image & Hg & Hl) | (Hg & Hl)]; rewrite Hl.
    + destruct (load_images Surface pygame_image_load store requests)
        as [imgs st] eqn:Hr.
      intros [= <- <-].
      destruct (IH _ _ _ Hco Hlc Hr) as (A & B & C & D & E & F).
      split; [cbn [map]; rewrite (Hco _ _ Hg), A; reflexivity|].
      split; [exact B|]. split; [exact C|].
      split; [intros p [<-|Hp]; [apply E; congruence | apply D, Hp]|].
      split; [exact E|].
      intros p. rewrite F. cbn [In]. split.
      * intros [Hp | [Hp Hn]]; auto.
      * intros [Hp | [[<-|Hp] Hn]]; auto. congruence.
    + destruct (load_images Surface pygame_image_load
                  (mkImageStore
                     (cache_set Surface (IMAGE_CACHE store) path
                                (pygame_image_load path))
                     (path :: disk_loads store)) requests)
        as [imgs st] eqn:Hr.
      intros [= <- <-].
      destruct (IH _ _ _ (miss_keeps_coherent store path Hco)
                  (miss_keeps_loads_cached store path Hg Hlc) Hr)
        as (A & B & C & D & E & F).
      cbn [IMAGE_CACHE disk_loads] in E, F.
      split; [cbn [map]; rewrite A; reflexivity|].
      split; [exact B|]. split; [exact C|].
      assert (Hkeep : forall p,
                 p <> path ->
                 cache_get Surface
                   (cache_set Surface (IMAGE_CACHE store) path
                              (pygame_image_load path)) p
                 = cache_get Surface (IMAGE_CACHE store) p).
      { intros p Hp. apply cache_get_set_other. congruence. }
      assert (Hhere : cache_get Surface
                        (cache_set Surface (IMAGE_CACHE store) path
                                   (pygame_image_load path)) path
                      <> None).
      { rewrite cache_get_set_same. discriminate. }
      split; [intros p [<-|Hp]; [apply E, Hhere | apply D, Hp]|].
      split.
      { intros p Hp. apply E.
        destruct (String.eqb_spec p path) as [->|Hne];
          [exact Hhere | rewrite Hkeep; assumption]. }
      intros p. rewrite F. cbn [In]. split.
      * intros [[<-|Hp] | [Hp Hn]]; auto.
        right. split; [auto|].
        destruct (String.eqb_spec p path) as [->|Hne];
          [congruence | rewrite <- Hkeep; assumption].
      * intros [Hp | [[<-|Hp] Hn]]; auto.
        destruct (String.eqb_spec p path) as [->|Hne]; [auto|].
        right. split; [exact Hp | rewrite Hkeep; assumption].
Qed.

(** X19: starting from the empty cache, any run of requests returns for
    each request the image on disk under its path, and reads from disk
    exactly the paths requested, each of them once, however often it is
    requested. *)
Theorem every_image_is_read_from_disk_once (requests : list string) :
  exists images store1,
    load_images Surface pygame_image_load (mkImageStore [] []) requests
    = (images, store1) /\
    images = map pygame_image_load requests /\
    NoDup (disk_loads store1) /\
    (forall p, In p (disk_loads store1) <-> In p requests) /\
    (forall p, In p requests ->
               cache_get Surface (IMAGE_CACHE store1) p
               = Some (pygame_image_load p)).
Proof.
  destruct (load_images Surface pygame_image_load (mkImageStore [] [])
                        requests) as [images store1] eqn:Hr.
  exists images, store1. split; [reflexivity|].
  apply load_images_run in Hr.
  - destruct Hr as (A & B & [C1 C2] & D & _ & F).
    split; [exact A|]. split; [exact C1|]. split.
    + intros p. rewrite F. cbn. tauto.
    + intros p Hp. apply D in Hp.
      destruct (cache_get Surface (IMAGE_CACHE store1) p) as [img|] eqn:Hg;
        [|congruence].
      rewrite (B _ _ Hg). reflexivity.
  - intros p img. cbn. discriminate.
  - split; [constructor | intros p []].
Qed.

End ImageCacheFacts.

Lemma image_is_loaded_then_cached_witness :
  cache_coherent string (fun p => p) (mkImageStore [] []) /\
  loads_cached string (mkImageStore [] []) /\
  exists store1,
    load_image_or_retrieve_from_cache string (fun p => p)
      (mkImageStore [] []) "media/sprites/up0.png"
    = ("media/sprites/up0.png"%string, store1) /\
    load_image_or_retrieve_from_cache string (fun p => p) store1
      "media/sprites/up0.png"
    = ("media/sprites/up0.png"%string, store1).
Proof.
  assert (Hco : cache_coherent string (fun p => p) (mkImageStore [] []))
    by (intros p img; cbn; discriminate).
  assert (Hlc : loads_cached string (mkImageStore [] []))
    by (split; [constructor | intros p []]).
  split; [exact Hco|]. split; [exact Hlc|].
  destruct (image_is_loaded_then_cached string (fun p => p)
              (mkImageStore [] []) "media/sprites/up0.png" Hco Hlc)
    as (image & store1 & Hl & -> & _ & _ & Hagain & _).
  exists store1. split; [exact Hl | exact Hagain].
Defined.

(** * The media files *)

Lemma first_missing_none (os_path_exists : string -> bool)
      (all : list string) :
  first_missing os_path_exists all = None <->
  forall path, In path all -> os_path_exists path = true.
Proof.
  induction all as [|path all IH]; cbn [first_missing].
  - split; [intros _ p [] | reflexivity].
  - destruct (os_path_exists path) eqn:E; cbn [negb].
    + rewrite IH. split.
      * intros H p [<-|Hp]; auto.
      * intros H p Hp. apply H. right. exact Hp.
    + split; [discriminate|]. intros H.
      rewrite (H path (or_introl eq_refl)) in E. discriminate.
Qed.

Lemma first_missing_some (os_path_exists : string -> bool)
      (all : list string) (message : string) :
  first_missing os_path_exists all = Some message ->
  exists before path after,
    all = before ++ path :: after /\
    (forall p, In p before -> os_path_exists p = true) /\
    os_path_exists path = false /\
    message = ("The media file does not exist: " ++ path)%string.
Proof.
  induction all as [|path all IH]; cbn [first_missing]; [discriminate|].
  destruct (os_path_exists path) eqn:E; cbn [negb].
  - intros H. destruct (IH H) as (before & p & after & -> & Hb & Hp & Hm).
    exists (path :: before), p, after. split; [reflexivity|].
    split; [|auto]. intros p' [<-|Hin]; auto.
  - intros [= <-]. exists [], path, all. split; [reflexivity|].
    split; [intros p []|]. auto.
Qed.

Lemma py_getitem_In {A : Type} (l : list A) (i : Z) (a : A) :
  py_getitem l i = Ok a -> In a l.
Proof.
  unfold py_getitem.
  destruct (_ || _)%bool; [discriminate|].
  destruct (nth_error l _) as [x|] eqn:E; [|discriminate].
  intros [= <-]. eapply nth_error_In; eauto.
Qed.

Lemma images_for_registered (paths : Paths) (a : MoleAction) (p : string) :
  In p (images_for paths a) -> In p (Paths_all paths).
Proof.
  unfold Paths_all. intros H. right. rewrite !in_app_iff.
  destruct a; simpl in H; tauto.
Qed.

(** X20: [check_all_files_exist] returns no error exactly when every
    registered path exists; an error names the first registered path, in
    the order of registration, that does not exist. *)
Theorem check_all_files_exist_spec (os_path_exists : string -> bool)
        (paths : Paths) :
  (check_all_files_exist os_path_exists paths = None <->
   forall path, In path (Paths_all paths) -> os_path_exists path = true) /\
  (forall message,
      check_all_files_exist os_path_exists paths = Some message ->
      exists before path after,
        Paths_all paths = before ++ path :: after /\
        (forall p, In p before -> os_path_exists p = true) /\
        os_path_exists path = false /\
        message = ("The media file does not exist: " ++ path)%string).
Proof.
  split; [apply first_missing_none | apply first_missing_some].
Qed.

Lemma check_all_files_exist_spec_witness :
  check_all_files_exist
    (fun p => negb (String.eqb p "media/sprites/dizzy3.png")) Paths_init
  = Some "The media file does not exist: media/sprites/dizzy3.png"%string /\
  exists before after,
    Paths_all Paths_init
    = before ++ "media/sprites/dizzy3.png"%string :: after /\
    List.length before = 5%nat.
Proof.
  assert (H : check_all_files_exist
                (fun p => negb (String.eqb p "media/sprites/dizzy3.png"))
                Paths_init
              = Some "The media file does not exist: media/sprites/dizzy3.png"
                     %string)
    by (vm_compute; reflexivity).
  split; [exact H|].
  destruct (proj2 (check_all_files_exist_spec _ _) _ H)
    as (before & path & after & E & _ & _ & Hm).
  exists (firstn 5 (Paths_all Paths_init)),
         (skipn 6 (Paths_all Paths_init)).
  split; reflexivity.
Defined.

(** X21: once [check_all_files_exist] has found no error, every file the
    game asks for later exists: each sprite and the hourglass
    [render_game] selects, in any state, every vegetable of the game-over
    screen, the background, the font and the hit sound. *)
Theorem checked_files_cover_what_is_rendered
        (os_path_exists : string -> bool) (paths : Paths)
        (Hcheck : check_all_files_exist os_path_exists paths = None) :
  (forall s scene,
      render_game paths s = Ok scene ->
      Forall (fun sp => os_path_exists (sprite_image sp) = true)
             (scene_moles scene) /\
      os_path_exists (hourglass_image scene) = true) /\
  (forall display s,
      Forall (fun v => os_path_exists (vegetable_image v) = true)
             (vegetables (render_game_over paths display s))) /\
  os_path_exists (background paths) = true /\
  os_path_exists (font paths) = true /\
  os_path_exists (hit_sound paths) = true.
Proof.
  pose proof (proj1 (first_missing_none _ _) Hcheck) as Hall.
  assert (Hmoles : forall s xys i sprites,
             render_moles paths s i xys = Ok sprites ->
             Forall (fun sp => os_path_exists (sprite_image sp) = true)
                    sprites).
  { intros s. induction xys as [|xy xys IH]; intros i sprites;
      cbn [render_moles].
    - intros [= <-]. constructor.
    - unfold render_mole.
      destruct (py_getitem (mole_states s) (Z.of_nat i)) as [m|];
        [|discriminate].
      cbn [bind]. destruct (py_div _ _) as [f|]; [|discriminate].
      cbn [bind].
      destruct (py_getitem (images_for paths (action m)) _) as [img|] eqn:Hg;
        [|discriminate].
      cbn [bind].
      destruct (render_moles paths s (S i) xys) as [rest|] eqn:Hr;
        [|discriminate].
      cbn [bind]. intros [= <-]. constructor; [|eapply IH; eauto].
      cbn [sprite_image]. apply Hall.
      eapply images_for_registered, py_getitem_In, Hg. }
  split; [|split; [|split; [|split]]].
  - intros s scene. unfold render_game.
    destruct (render_moles paths s 0 MOLES_XY_ON_SCENE) as [sprites|] eqn:Hs;
      [|discriminate].
    cbn [bind]. destruct (py_div _ _) as [f|]; [|discriminate].
    cbn [bind].
    destruct (py_getitem (hourglass_images paths) _) as [img|] eqn:Hg;
      [|discriminate].
    cbn [bind]. intros [= <-]. cbn [scene_moles hourglass_image].
    split; [eapply Hmoles; eauto|].
    apply Hall. apply py_getitem_In in Hg.
    unfold Paths_all. right. rewrite !in_app_iff. tauto.
  - intros display s. apply Forall_forall. intros v Hv.
    apply In_nth_error in Hv. destruct Hv as (k & Hk).
    unfold render_game_over in Hk. cbn [vegetables] in Hk.
    apply draw_vegetables_nth in Hk; [|lia]. destruct Hk as (Hk & _).
    apply nth_error_In in Hk. apply Hall.
    unfold Paths_all. right. rewrite !in_app_iff. tauto.
  - apply Hall. left. reflexivity.
  - apply Hall. unfold Paths_all. right. rewrite !in_app_iff. simpl. tauto.
  - apply Hall. unfold Paths_all. right. rewrite !in_app_iff. simpl. tauto.
Qed.

Lemma checked_files_cover_what_is_rendered_witness :
  check_all_files_exist (fun _ => true) Paths_init = None /\
  Forall (fun v => (fun _ : string => true) (vegetable_image v) = true)
         (vegetables (render_game_over Paths_init (mkDisplay 1080 40 40 40)
                        demo_state_over)).
Proof.
  split; [reflexivity|].
  exact (proj1 (proj2 (checked_files_cover_what_is_rendered
                         (fun _ => true) Paths_init eq_refl))
               (mkDisplay 1080 40 40 40) demo_state_over).
Defined.

(** * The names of the events *)

(** X22: [str] tells the events apart: two events with the same string
    are the same event, button included. *)
Theorem Event_str_injective (e1 e2 : Event) :
  Event_str e1 = Event_str e2 -> e1 = e2.
Proof.
  destruct e1 as [| |b1|], e2 as [| |b2|]; try reflexivity;
    try (destruct b1); try (destruct b2);
    cbn; intros H; first [reflexivity | discriminate H].
Qed.

Lemma Event_str_injective_witness :
  Event_str (ButtonDown UP) = Event_str (ButtonDown UP) /\
  ButtonDown UP = ButtonDown UP.
Proof.
  split; [reflexivity|].
  exact (Event_str_injective (ButtonDown UP) (ButtonDown UP) eq_refl).
Defined.

(** * The development scripts *)

Lemma crop_box_eq (columns w h i : Z) :
  (0 <= i)%Z -> (0 < columns)%Z ->
  crop_box columns w h i
  = ((i mod columns) * w, (i / columns) * h,
     (i mod columns) * w + w, (i / columns) * h + h)%Z.
Proof.
  intros Hi Hc. unfold crop_box. rewrite int_div_nonneg by assumption.
  reflexivity.
Qed.

Lemma crop_box_on_sheet (columns rows w h i : Z) (size : Z * Z) :
  (0 < columns)%Z -> (0 <= w)%Z -> (0 <= h)%Z ->
  (0 <= i < columns * rows)%Z ->
  (columns * w <= fst size)%Z -> (rows * h <= snd size)%Z ->
  box_on_sheet size (crop_box columns w h i).
Proof.
  intros Hc Hw Hh Hi HW HH. rewrite crop_box_eq by lia.
  unfold box_on_sheet.
  pose proof (Z.mod_pos_bound i columns Hc).
  assert (i / columns < rows)%Z by (apply Z.div_lt_upper_bound; lia).
  assert (0 <= i / columns)%Z by (apply Z.div_pos; lia).
  repeat split; nia.
Qed.

Lemma crop_box_disjoint (columns w h i j : Z) :
  (0 < columns)%Z -> (0 <= w)%Z -> (0 <= h)%Z ->
  (0 <= i)%Z -> (0 <= j)%Z -> i <> j ->
  boxes_disjoint (crop_box columns w h i) (crop_box columns w h j).
Proof.
  intros Hc Hw Hh Hi Hj Hij. rewrite !crop_box_eq by lia.
  unfold boxes_disjoint.
  pose proof (Z.div_mod i columns ltac:(lia)).
  pose proof (Z.div_mod j columns ltac:(lia)).
  set (c1 := (i mod columns)%Z) in *. set (c2 := (j mod columns)%Z) in *.
  set (r1 := (i / columns)%Z) in *. set (r2 := (j / columns)%Z) in *.
  assert (Hd : (c1 < c2 \/ c2 < c1 \/ r1 < r2 \/ r2 < r1)%Z) by nia.
  nia.
Qed.

(** X23: the crop boxes of a sprite sheet tile it: for sprites of
    non-negative size, the boxes of two different indices share no pixel,
    and the box of an index below [columns * rows] lies on every sheet
    that holds [columns] by [rows] sprites. *)
Theorem crop_boxes_tile_the_sheet (columns rows w h i j : Z) (size : Z * Z)
        (Hc : (0 < columns)%Z) (Hw : (0 <= w)%Z) (Hh : (0 <= h)%Z)
        (Hi : (0 <= i < columns * rows)%Z) (Hj : (0 <= j)%Z)
        (HW : (columns * w <= fst size)%Z)
        (HH : (rows * h <= snd size)%Z) :
  box_on_sheet size (crop_box columns w h i) /\
  (i <> j ->
   boxes_disjoint (crop_box columns w h i) (crop_box columns w h j)).
Proof.
  split; [eapply crop_box_on_sheet; eauto|].
  intros Hij. apply crop_box_disjoint; lia.
Qed.

Lemma crop_boxes_tile_the_sheet_witness :
  box_on_sheet (600, 800)%Z (crop_box 6 100 100 44) /\
  boxes_disjoint (crop_box 6 100 100 44) (crop_box 6 100 100 38).
Proof.
  destruct (crop_boxes_tile_the_sheet 6 8 100 100 44 38 (600, 800)%Z
              ltac:(lia) ltac:(lia) ltac:(lia) ltac:(lia) ltac:(lia)
              ltac:(simpl; lia) ltac:(simpl; lia)) as [A B].
  split; [exact A | apply B; discriminate].
Defined.

Lemma cut_out_entries (name : string) (columns w h : Z) (bound : Z)
      (indices : list Z) :
  Forall (fun i => (0 <= i < bound)%Z) indices ->
  forall k,
    Forall (fun entry => exists i, (0 <= i < bound)%Z /\
                                   snd entry = crop_box columns w h i)
           (cut_out name columns w h k indices).
Proof.
  induction 1 as [|i indices Hi _ IH]; intros k; cbn [cut_out];
    constructor; eauto.
Qed.

Lemma cut_out_mole_sprites_boxes (size : Z * Z) :
  Forall (fun entry =>
            exists i, (0 <= i < 6 * 8)%Z /\
                      snd entry
                      = crop_box 6 (int (inject_Z (fst size) / 6))
                                 (int (inject_Z (snd size) / 8)) i)
         (cut_out_mole_sprites size).
Proof.
  unfold cut_out_mole_sprites. rewrite !Forall_app. split; [|split].
  - cbn [flat_map seq app].
    repeat constructor; eexists; (split; [|reflexivity]); simpl; lia.
  - apply cut_out_entries. repeat constructor; lia.
  - apply cut_out_entries. repeat constructor; lia.
Qed.

(** X24: for a sheet of any non-negative size, every file
    cut_out_mole_sprites.py saves is cropped from a box that lies on the
    sheet, is one sixth of its width wide and one eighth of its height
    high; and two saved files were cropped from the same box or from
    boxes that share no pixel. *)
Theorem mole_sprites_are_cut_from_the_sheet (size : Z * Z)
        (HW : (0 <= fst size)%Z) (HH : (0 <= snd size)%Z) :
  Forall (fun entry => box_on_sheet size (snd entry))
         (cut_out_mole_sprites size) /\
  Forall (fun entry =>
            let '(x0, y0, x1, y1) := snd entry in
            (x1 - x0 = fst size / 6 /\ y1 - y0 = snd size / 8)%Z)
         (cut_out_mole_sprites size) /\
  (forall e1 e2,
      In e1 (cut_out_mole_sprites size) ->
      In e2 (cut_out_mole_sprites size) ->
      snd e1 = snd e2 \/ boxes_disjoint (snd e1) (snd e2)).
Proof.
  pose proof (cut_out_mole_sprites_boxes size) as Hb.
  change 6 with (inject_Z 6) in Hb. change 8 with (inject_Z 8) in Hb.
  rewrite !int_div_nonneg in Hb by lia.
  assert (Hw : (0 <= fst size / 6)%Z) by (apply Z.div_pos; lia).
  assert (Hh : (0 <= snd size / 8)%Z) by (apply Z.div_pos; lia).
  rewrite Forall_forall in Hb.
  split; [|split].
  - apply Forall_forall. intros e He.
    destruct (Hb e He) as (i & Hi & ->).
    apply crop_box_on_sheet with (rows := 8%Z); try lia.
    + pose proof (Z.mul_div_le (fst size) 6 ltac:(lia)). lia.
    + pose proof (Z.mul_div_le (snd size) 8 ltac:(lia)). lia.
  - apply Forall_forall. intros e He.
    destruct (Hb e He) as (i & Hi & ->).
    rewrite crop_box_eq by lia. lia.
  - intros e1 e2 H1 H2.
    destruct (Hb e1 H1) as (i & Hi & ->).
    destruct (Hb e2 H2) as (j & Hj & ->).
    destruct (Z.eq_dec i j) as [->|Hij]; [left; reflexivity|].
    right. apply crop_box_disjoint; lia.
Qed.

Lemma mole_sprites_are_cut_from_the_sheet_witness :
  (0 <= fst (601, 803))%Z /\ (0 <= snd (601, 803))%Z /\
  Forall (fun entry => box_on_sheet (601, 803)%Z (snd entry))
         (cut_out_mole_sprites (601, 803)%Z).
Proof.
  split; [simpl; lia|]. split; [simpl; lia|].
  exact (proj1 (mole_sprites_are_cut_from_the_sheet (601, 803)%Z
                  ltac:(simpl; lia) ltac:(simpl; lia))).
Defined.

Lemma cut_out_names (name : string) (columns w h : Z) (indices : list Z) :
  forall k,
    map fst (cut_out name columns w h k indices)
    = map (sprite_file name) (seq k (List.length indices)).
Proof.
  induction indices as [|i indices IH]; intros k; cbn; [reflexivity|].
  rewrite IH. reflexivity.
Qed.

(** X25: whatever the size of the sheets, the two scripts save exactly
    the sprite files the game registers: cut_out_vegetables.py the twelve
    vegetables in order, cut_out_mole_sprites.py every going-up,
    going-down, looking-around and dizzy sprite, each file once, with
    [going_down] the frames of [going_up] in reverse. *)
Theorem scripts_save_the_registered_sprites (size : Z * Z) :
  map fst (cut_out_vegetables size) = vegetable_images Paths_init /\
  NoDup (map fst (cut_out_mole_sprites size)) /\
  (forall p, In p (map fst (cut_out_mole_sprites size)) <->
             In p (going_up_images Paths_init
                   ++ going_down_images Paths_init
                   ++ up_images Paths_init ++ dizzy_images Paths_init)) /\
  (forall k, (k < 6)%nat ->
     exists box,
       In (sprite_file "going_up" k, box) (cut_out_mole_sprites size) /\
       In (sprite_file "going_down" (5 - k), box)
          (cut_out_mole_sprites size)).
Proof.
  assert (Hnames : map fst (cut_out_mole_sprites size)
                   = map fst (cut_out_mole_sprites (0, 0)%Z)).
  { unfold cut_out_mole_sprites. rewrite !map_app, !cut_out_names.
    reflexivity. }
  split; [|split; [|split]].
  - unfold cut_out_vegetables. rewrite cut_out_names. reflexivity.
  - rewrite Hnames.
    assert (E : nodup string_dec (map fst (cut_out_mole_sprites (0, 0)%Z))
                = map fst (cut_out_mole_sprites (0, 0)%Z))
      by (vm_compute; reflexivity).
    rewrite <- E. apply NoDup_nodup.
  - intros p. rewrite Hnames.
    assert (E1 : incl (map fst (cut_out_mole_sprites (0, 0)%Z))
                      (going_up_images Paths_init
                       ++ going_down_images Paths_init
                       ++ up_images Paths_init ++ dizzy_images Paths_init)).
    { vm_compute. intros a Ha.
      repeat (destruct Ha as [Ha|Ha]; [auto 30|]). contradiction. }
    assert (E2 : incl (going_up_images Paths_init
                       ++ going_down_images Paths_init
                       ++ up_images Paths_init ++ dizzy_images Paths_init)
                      (map fst (cut_out_mole_sprites (0, 0)%Z))).
    { vm_compute. intros a Ha.
      repeat (destruct Ha as [Ha|Ha]; [auto 30|]). contradiction. }
    split; [apply E1 | apply E2].
  - intros k Hk. exists (crop_box 6 (int (inject_Z (fst size) / 6))
                                  (int (inject_Z (snd size) / 8))
                                  (Z.of_nat k)).
    unfold cut_out_mole_sprites. rewrite !in_app_iff.
    split; left; apply in_flat_map; exists k;
      (split; [apply in_seq; lia|]); [left | right; left]; reflexivity.
Qed.

(** X26: for a sheet of non-negative size, the twelve vegetables are cut
    from squares a quarter of the width of the sheet wide, no two of
    which share a pixel, each within the width of the sheet, and within
    its height as soon as the sheet is three such squares high. *)
Theorem vegetables_are_cut_from_the_sheet (size : Z * Z)
        (HW : (0 <= fst size)%Z) (HH : (0 <= snd size)%Z) :
  List.length (cut_out_vegetables size) = 12%nat /\
  (forall k1 k2 e1 e2,
      nth_error (cut_out_vegetables size) k1 = Some e1 ->
      nth_error (cut_out_vegetables size) k2 = Some e2 ->
      k1 <> k2 -> boxes_disjoint (snd e1) (snd e2)) /\
  Forall (fun entry =>
            let '(x0, y0, x1, y1) := snd entry in
            (0 <= x0 /\ x1 <= fst size /\
             x1 - x0 = fst size / 4 /\
             y1 - y0 = fst size / 4 /\ 0 <= y0)%Z /\
            ((3 * (fst size / 4) <= snd size)%Z ->
             box_on_sheet size (snd entry)))
         (cut_out_vegetables size).
Proof.
  assert (Hw : (0 <= fst size / 4)%Z) by (apply Z.div_pos; lia).
  assert (Hnth : forall k e,
             nth_error (cut_out_vegetables size) k = Some e ->
             (k < 12)%nat /\
             snd e = crop_box 4 (fst size / 4) (fst size / 4) (Z.of_nat k)).
  { unfold cut_out_vegetables. cbn zeta.
    change (int (inject_Z (fst size) / 4))
      with (int (inject_Z (fst size) / inject_Z 4)).
    rewrite int_div_nonneg by lia.
    assert (G : forall indices k0 k e,
               nth_error (cut_out "vegetable" 4 (fst size / 4)
                                  (fst size / 4) k0 indices) k = Some e ->
               exists i, nth_error indices k = Some i /\
                         snd e = crop_box 4 (fst size / 4) (fst size / 4) i).
    { induction indices as [|i indices IH]; intros k0 [|k] e;
        cbn [cut_out nth_error]; try discriminate.
      - intros [= <-]. eauto.
      - apply IH. }
    intros k e He. apply G in He. destruct He as (i & Hi & ->).
    rewrite nth_error_map in Hi.
    destruct (nth_error (seq 0 12) k) as [n|] eqn:Hn; [|discriminate].
    injection Hi as <-.
    assert (Hk : (k < 12)%nat).
    { assert (Hlt : (k < List.length (seq 0 12))%nat)
        by (apply nth_error_Some; congruence).
      rewrite length_seq in Hlt. exact Hlt. }
    rewrite nth_error_nth' with (d := 0%nat) in Hn
      by (rewrite length_seq; exact Hk).
    rewrite seq_nth in Hn by exact Hk. injection Hn as <-.
    split; [exact Hk | reflexivity]. }
  split; [|split].
  - unfold cut_out_vegetables.
    rewrite <- (length_map fst), cut_out_names, length_map, length_seq,
      length_map, length_seq.
    reflexivity.
  - intros k1 k2 e1 e2 H1 H2 Hk.
    apply Hnth in H1. apply Hnth in H2.
    destruct H1 as (_ & ->). destruct H2 as (_ & ->).
    apply crop_box_disjoint; lia.
  - apply Forall_forall. intros e He. apply In_nth_error in He.
    destruct He as (k & Hk). apply Hnth in Hk. destruct Hk as (Hk & ->).
    split.
    + rewrite !int_div_nonneg by lia.
      pose proof (Z.mod_pos_bound (Z.of_nat k) 4 ltac:(lia)).
      pose proof (Z.mul_div_le (fst size) 4 ltac:(lia)).
      assert (0 <= Z.of_nat k / 4)%Z by (apply Z.div_pos; lia).
      repeat split; nia.
    + intros H3. apply crop_box_on_sheet with (rows := 3%Z); try lia.
      pose proof (Z.mul_div_le (fst size) 4 ltac:(lia)). lia.
Qed.

Lemma vegetables_are_cut_from_the_sheet_witness :
  (0 <= fst (128, 160))%Z /\ (0 <= snd (128, 160))%Z /\
  List.length (cut_out_vegetables (128, 160)%Z) = 12%nat.
Proof.
  split; [simpl; lia|]. split; [simpl; lia|].
  exact (proj1 (vegetables_are_cut_from_the_sheet (128, 160)%Z
                  ltac:(simpl; lia) ltac:(simpl; lia))).
Defined.

Lemma every_image_is_read_from_disk_once_witness :
  exists images store1,
    load_images string (fun p => p) (mkImageStore [] [])
                ["up0.png"; "up1.png"; "up0.png"]%string
    = (images, store1) /\
    NoDup (disk_loads store1) /\ In "up0.png"%string (disk_loads store1).
Proof.
  destruct (every_image_is_read_from_disk_once string (fun p => p)
              ["up0.png"; "up1.png"; "up0.png"]%string)
    as (images & store1 & H & _ & Hnd & Hin & _).
  exists images, store1. split; [exact H|]. split; [exact Hnd|].
  apply Hin. left. reflexivity.
Defined.

Lemma scripts_save_the_registered_sprites_witness :
  (2 < 6)%nat /\
  exists box,
    In ("media/sprites/going_up2.png"%string, box)
       (cut_out_mole_sprites (600, 800)%Z) /\
    In ("media/sprites/going_down3.png"%string, box)
       (cut_out_mole_sprites (600, 800)%Z).
Proof.
  split; [lia|].
  exact (proj2 (proj2 (proj2 (scripts_save_the_registered_sprites
                                (600, 800)%Z))) 2%nat ltac:(lia)).
Defined.

(** * Points and misses against the events *)


(** X27: over a whole drain the score grows by at most the number of
    [ButtonDown] events that were in the queue, and the misses by at most
    the number of moles for each [Tick] that was in it: no point without a
    press, no miss without a tick. *)
Theorem points_need_presses_and_misses_need_ticks
        (paths : Paths) (fuel : nat) (w : World) (s : State)
        (q : list Event) (w1 : World) (s1 : State)
        (H : drain paths fuel w s q = Some (Ok (w1, s1))) :
  (score s <= score s1
   <= score s + Z.of_nat (List.length (filter is_ButtonDown q)))%Z /\
  (misses s <= misses s1
   <= misses s + Z.of_nat (List.length (mole_states s))
                 * Z.of_nat (List.length (filter is_Tick q)))%Z.
Proof.
  set (n := Z.of_nat (List.length (mole_states s))).
  apply (drain_invariant_queue paths
           (fun _ s' q' =>
              Z.of_nat (List.length (mole_states s')) = n /\
              (score s <= score s')%Z /\ (misses s <= misses s')%Z /\
              (score s' + Z.of_nat (List.length (filter is_ButtonDown q'))
               <= score s + Z.of_nat (List.length (filter is_ButtonDown q)))%Z /\
              (misses s' + n * Z.of_nat (List.length (filter is_Tick q'))
               <= misses s + n * Z.of_nat (List.length (filter is_Tick q)))%Z))
    with (w1 := w1) (s1 := s1) in H.
  - cbn [filter List.length] in H. lia.
  - clear. intros wa sa e qa wb sb qb (Hn & S0 & M0 & HS & HM) Hh.
    pose proof (handle_counters _ _ _ _ _ _ _ Hh) as (Cs & Cm & _).
    pose proof (effect_length _ _ _ (handle_effect _ _ _ _ _ _ _ Hh)) as Hl.
    rewrite Hl, Hn. rewrite Hn in Cm.
    split; [reflexivity|]. split; [lia|]. split; [lia|].
    apply handle_by_event in Hh. destruct e; cbn [filter is_ButtonDown is_Tick
                                                  List.length] in HS, HM.
    + assert (E : score sb = score sa /\
                  List.length (filter is_ButtonDown qb)
                  = List.length (filter is_ButtonDown qa) /\
                  List.length (filter is_Tick qb)
                  = List.length (filter is_Tick qa)).
      { destruct (game_over sa); [destruct Hh as (-> & -> & _); auto|].
        destruct (Qgt_bool _ _).
        - destruct Hh as (-> & -> & _). rewrite !filter_app, !length_app.
          cbn. split; [reflexivity | lia].
        - destruct Hh as (-> & ms & mi & _ & ->); auto. }
      destruct E as (-> & -> & ->). nia.
    + destruct Hh as (-> & ->). cbn. lia.
    + destruct Hh as (-> & [-> | (m & _ & _ & _ & -> & _)]); cbn; lia.
    + destruct Hh as (-> & ->). cbn. lia.
  - split; [reflexivity|]. lia.
Qed.

Lemma points_need_presses_and_misses_need_ticks_witness :
  exists w1 s1,
    drain Paths_init 4 (demo_world 13) demo_state
          [ButtonDown CROSS; ButtonDown CROSS; Tick] = Some (Ok (w1, s1)) /\
    (score s1 <= 3 + 2)%Z.
Proof.
  assert (H : exists w1 s1,
             drain Paths_init 4 (demo_world 13) demo_state
                   [ButtonDown CROSS; ButtonDown CROSS; Tick]
             = Some (Ok (w1, s1)))
    by (eexists _, _; vm_compute; reflexivity).
  destruct H as (w1 & s1 & H). exists w1, s1. split; [exact H|].
  exact (proj2 (proj1 (points_need_presses_and_misses_need_ticks
                         _ _ _ _ _ _ _ H))).
Defined.

(** * From the dance mat to the moles *)

(** X28: the eight buttons 0..7 of the dance mat and no others are
    mapped, no two to the same button of the game, and through
    [BUTTON_TO_MOLE] every mole is reached from exactly one of them. *)
Theorem every_mole_has_one_mat_button :
  (forall k, button_map_get button_map k <> None <-> (0 <= k < 8)%Z) /\
  (forall k1 k2 b, button_map_get button_map k1 = Some b ->
                   button_map_get button_map k2 = Some b -> k1 = k2) /\
  (forall i, (i < 8)%nat ->
     exists k b,
       button_map_get button_map k = Some b /\
       dict_get BUTTON_TO_MOLE b = Some i /\
       forall k' b', button_map_get button_map k' = Some b' ->
                     dict_get BUTTON_TO_MOLE b' = Some i -> k' = k).
Proof.
  assert (Hdom : forall k, button_map_get button_map k <> None ->
                           (0 <= k < 8)%Z).
  { intros k. unfold button_map. cbn [button_map_get].
    repeat match goal with
           | |- context [(?a =? k)%Z] => destruct (Z.eqb_spec a k); [lia|]
           end.
    congruence. }
  assert (Hcases : forall k, (0 <= k < 8)%Z ->
            k = 0%Z \/ k = 1%Z \/ k = 2%Z \/ k = 3%Z \/ k = 4%Z \/ k = 5%Z
            \/ k = 6%Z \/ k = 7%Z) by (intros; lia).
  assert (Hinj : forall k1 k2 b, button_map_get button_map k1 = Some b ->
                   button_map_get button_map k2 = Some b -> k1 = k2).
  { intros k1 k2 b H1 H2.
    assert (B1 : (0 <= k1 < 8)%Z) by (apply Hdom; congruence).
    assert (B2 : (0 <= k2 < 8)%Z) by (apply Hdom; congruence).
    apply Hcases in B1. apply Hcases in B2.
    repeat (destruct B1 as [B1|B1]); repeat (destruct B2 as [B2|B2]);
      subst; try reflexivity; vm_compute in H1, H2; congruence. }
  split; [|split; [exact Hinj|]].
  - intros k. split; [apply Hdom|]. intros Hk. apply Hcases in Hk.
    repeat (destruct Hk as [Hk|Hk]); subst; discriminate.
  - intros i Hi.
    assert (Hex : exists k b, button_map_get button_map k = Some b /\
                              dict_get BUTTON_TO_MOLE b = Some i).
    { do 8 (destruct i as [|i];
            [first [ exists 6%Z, CROSS; split; reflexivity
                   | exists 2%Z, UP; split; reflexivity
                   | exists 7%Z, CIRCLE; split; reflexivity
                   | exists 3%Z, RIGHT; split; reflexivity
                   | exists 5%Z, SQUARE; split; reflexivity
                   | exists 1%Z, DOWN; split; reflexivity
                   | exists 4%Z, TRIANGLE; split; reflexivity
                   | exists 0%Z, LEFT; split; reflexivity ]|]).
      lia. }
    destruct Hex as (k & b & Hk & Hb). exists k, b.
    split; [exact Hk|]. split; [exact Hb|].
    intros k' b' Hk' Hb'.
    assert (b' = b).
    { rewrite dict_get_BUTTON_TO_MOLE in Hb, Hb'.
      destruct b, b'; try reflexivity;
        rewrite <- Hb' in Hb; vm_compute in Hb; discriminate. }
    subst b'. eapply Hinj; eauto.
Qed.

Lemma every_mole_has_one_mat_button_witness :
  (3 < 8)%nat /\
  exists k b, button_map_get button_map k = Some b /\
              dict_get BUTTON_TO_MOLE b = Some 3%nat.
Proof.
  split; [lia|].
  destruct (proj2 (proj2 every_mole_has_one_mat_button) 3%nat ltac:(lia))
    as (k & b & Hk & Hb & _).
  exists k, b. auto.
Defined.
